(** * py-genl: the Generic Netlink attribute codec

    A shallow embedding of [genl/netlink.py] (alignment, padding, the
    attribute splitter and the message headers), of [genl/nlattr.py] (the
    schema classes, their [from_spec] compiler and the [build] / [parse]
    pair) and of the family lookup of [genl/__init__.py], followed by the
    properties of the codec.

    Python values are a first-order tree ([value]); a raised exception is
    the [Err] branch of [result]; [warnings.warn] is a writer effect of
    [parse].  Byte strings are [list byte]; integers are [Z]. *)

From Stdlib Require Import ZArith List String Ascii Bool Lia.
From Stdlib Require Import Strings.Byte.
Import ListNotations.
Local Open Scope string_scope.
Local Open Scope list_scope.
Local Open Scope Z_scope.

Set Warnings "-register-all".

(** ** Exceptions and results *)

Inductive value_error :=
| ExactlyOne            (* "Provide exactly one of _attr_values or kwargs" *)
| UnsupportedKwargs
| UnknownAttributes
| MissingRequired
| NotFixedSize          (* NlAttrSchemaArray.__init__ *)
| BadBytesArgument.     (* bytes(): negative count or element outside range(256) *)

Inductive error :=
| StructError
| AssertionError
| ValueError (why : value_error)
| KeyError (key : string)
| TypeError
| AttributeError
| IndexError
| UnicodeError
| NetlinkMissing                                             (* "Missing required attributes in parsed message" *)
| NetlinkWhileParsing (e : error) (attr_name cls : string)   (* "Got '{}' while parsing attribute '{}' of type {}" *)
| OutOfFuel.                                                 (* the model's loop budget; never reached, see the totality lemmas *)

Inductive result (A : Type) :=
| Ok (a : A)
| Err (e : error).
Arguments Ok {A} a.
Arguments Err {A} e.

Definition bind {A B} (r : result A) (f : A -> result B) : result B :=
  match r with
  | Ok a => f a
  | Err e => Err e
  end.

Notation "'do' x <- r ; k" := (bind r (fun x => k))
  (at level 10, x pattern, r at level 100, k at level 200).

(** ** Bytes *)

Definition bytes := list byte.

Definition len {A} (l : list A) : Z := Z.of_nat (List.length l).

Definition Z_of_byte (b : byte) : Z := Z.of_N (Byte.to_N b).

Definition byte_of_Z (z : Z) : byte :=
  match Byte.of_N (Z.to_N (z mod 256)) with
  | Some b => b
  | None => x00
  end.

(** Python's [data[a:b]] for non-negative [a] and [b]: both ends are clamped
    to the length, and the slice is empty when [b <= a]. *)
Definition slice {A} (data : list A) (a b : Z) : list A :=
  firstn (Z.to_nat (b - a)) (skipn (Z.to_nat a) data).

(** [b'\0' * n]: empty for a negative count. *)
Definition zeros (n : Z) : bytes := repeat x00 (Z.to_nat n).

(** ** The [struct] module, for the formats the package uses

    [struct] is Python's library; [pack] and [unpack] are as its
    documentation has them.  Integers are packed in the byte order of the
    host ([sys.byteorder]); the development is parametric in it. *)

Inductive byteorder := little | big.

Fixpoint le_bytes (n : nat) (v : Z) : bytes :=
  match n with
  | O => []
  | S n' => byte_of_Z v :: le_bytes n' (v / 256)
  end.

Fixpoint le_value (l : bytes) : Z :=
  match l with
  | [] => 0
  | b :: r => Z_of_byte b + 256 * le_value r
  end.

Definition in_host_order (host : byteorder) (l : bytes) : bytes :=
  match host with
  | little => l
  | big => rev l
  end.

(** The values of [int_type_to_fmt]: "=B", "=H", "=h", "=I", "=Q". *)
Inductive int_fmt := fmt_B | fmt_H | fmt_h | fmt_I | fmt_Q.

Definition calcsize (fmt : int_fmt) : Z :=
  match fmt with
  | fmt_B => 1
  | fmt_H | fmt_h => 2
  | fmt_I => 4
  | fmt_Q => 8
  end.

Definition fmt_signed (fmt : int_fmt) : bool :=
  match fmt with
  | fmt_h => true
  | _ => false
  end.

Definition fmt_bits (fmt : int_fmt) : Z := 8 * calcsize fmt.

Definition fmt_min (fmt : int_fmt) : Z :=
  if fmt_signed fmt then - 2 ^ (fmt_bits fmt - 1) else 0.

Definition fmt_max (fmt : int_fmt) : Z :=
  if fmt_signed fmt then 2 ^ (fmt_bits fmt - 1) - 1 else 2 ^ fmt_bits fmt - 1.

Definition in_range (fmt : int_fmt) (val : Z) : bool :=
  (fmt_min fmt <=? val) && (val <=? fmt_max fmt).

(** [struct.pack(fmt, val)] for an integer [val]: [struct.error] outside the
    range of the format, else the two's complement bytes in host order. *)
Definition struct_pack (host : byteorder) (fmt : int_fmt) (val : Z) : result bytes :=
  if in_range fmt val
  then Ok (in_host_order host
             (le_bytes (Z.to_nat (calcsize fmt)) (val mod 2 ^ fmt_bits fmt)))
  else Err StructError.

(** [struct.unpack(fmt, data)[0]]: [struct.error] unless [data] has exactly
    the size of the format. *)
Definition struct_unpack (host : byteorder) (fmt : int_fmt) (data : bytes) : result Z :=
  if len data =? calcsize fmt then
    let u := le_value (in_host_order host data) in
    Ok (if fmt_signed fmt && (2 ^ (fmt_bits fmt - 1) <=? u)
        then u - 2 ^ fmt_bits fmt else u)
  else Err StructError.

(** The attribute header, format "@HH": two unsigned shorts, four bytes. *)
Definition attrib_hdr_len : Z := 4.

Definition struct_pack_HH (host : byteorder) (a b : Z) : result bytes :=
  do x <- struct_pack host fmt_H a;
  do y <- struct_pack host fmt_H b;
  Ok (x ++ y).

Definition struct_unpack_HH (host : byteorder) (data : bytes) : result (Z * Z) :=
  if len data =? attrib_hdr_len then
    do a <- struct_unpack host fmt_H (slice data 0 2);
    do b <- struct_unpack host fmt_H (slice data 2 4);
    Ok (a, b)
  else Err StructError.

(** ** genl/netlink.py *)

Definition align (size : Z) : Z :=
  Z.land (size + 0x03) ((Z.shiftl 1 64 - 1) - 3).

Definition pad (data : bytes) : bytes :=
  let padding_len := align (len data) - len data in
  data ++ zeros padding_len.

(** The namedtuple [GNLAttribute(length, atype, data)]; [length] and
    [data] are [alength] and [adata] here. *)
Record GNLAttribute := mkGNLAttribute {
  alength : Z;
  atype : Z;
  adata : bytes
}.

(** The [while index < len(data)] loop of [parse_generic_attributes].  Each
    turn that does not raise moves [index] forward, so a budget of one turn
    per byte is never used up. *)
Fixpoint parse_loop (host : byteorder) (fuel : nat) (data : bytes) (index : Z)
         (attributes : list GNLAttribute) : result (list GNLAttribute) :=
  match fuel with
  | O => Err OutOfFuel
  | S fuel' =>
    if index <? len data then
      do (nla_len, nla_type) <-
         struct_unpack_HH host (slice data index (index + attrib_hdr_len));
      let nla_data := slice data (index + align attrib_hdr_len) (index + nla_len) in
      let index' := index + align nla_len in
      if nla_len =? 0 then Err AssertionError        (* assert nla_len *)
      else parse_loop host fuel' data index'
             (attributes ++ [mkGNLAttribute nla_len nla_type nla_data])
    else Ok attributes
  end.

Definition parse_generic_attributes (host : byteorder) (data : bytes)
  : result (list GNLAttribute) :=
  parse_loop host (S (List.length data)) data 0 [].

(** ** Python values

    The values the codec is given and returns: [None], [int], [str] (its
    code points), [bytes], [list] and a mapping keyed by attribute names
    (a [dict], an [OrderedDict] or the [NlAttrSet] wrapper, which compares
    and iterates as the dictionary it wraps).  A mapping is kept in
    insertion order, as Python iterates it; [dict_set] keeps its keys
    unique. *)

Definition text := list Z.

Definition dict (V : Type) := list (string * V).

Inductive value :=
| VNone
| VInt (z : Z)
| VStr (s : text)
| VBytes (b : bytes)
| VList (l : list value)
| VDict (d : dict value).

Section Dict.
Variable V : Type.

Fixpoint dict_get (k : string) (d : dict V) : option V :=
  match d with
  | [] => None
  | (k', v) :: rest => if String.eqb k k' then Some v else dict_get k rest
  end.

(** [d[k] = v]: an existing key keeps its place, a new one goes last. *)
Fixpoint dict_set (k : string) (v : V) (d : dict V) : dict V :=
  match d with
  | [] => [(k, v)]
  | (k', v') :: rest =>
      if String.eqb k k' then (k, v) :: rest else (k', v') :: dict_set k v rest
  end.

Definition dict_keys (d : dict V) : list string := map fst d.

(** [d[k]], raising [KeyError]. *)
Definition dict_lookup (k : string) (d : dict V) : result V :=
  match dict_get k d with
  | Some v => Ok v
  | None => Err (KeyError k)
  end.
End Dict.
Arguments dict_get {V} k d.
Arguments dict_set {V} k v d.
Arguments dict_keys {V} d.
Arguments dict_lookup {V} k d.

(** [bool(set(a).difference(b))] for a list of names [a]: some name of [a]
    is not in [b]. *)
Definition some_not_in (a : list string) (b : list string) : bool :=
  existsb (fun k => negb (existsb (String.eqb k) b)) a.

Definition text_of_string (s : string) : text :=
  map (fun c => Z.of_N (N_of_ascii c)) (list_ascii_of_string s).

(** [bool(v)] *)
Definition truthy (v : value) : bool :=
  match v with
  | VNone => false
  | VInt z => negb (z =? 0)
  | VStr [] | VBytes [] | VList [] | VDict [] => false
  | _ => true
  end.

(** [iter(v)]: what a [for] loop over [v] yields. *)
Definition py_iter (v : value) : result (list value) :=
  match v with
  | VList l => Ok l
  | VBytes b => Ok (map (fun x => VInt (Z_of_byte x)) b)
  | VStr s => Ok (map (fun c => VStr [c]) s)
  | VDict d => Ok (map (fun k => VStr (text_of_string k)) (dict_keys d))
  | VNone | VInt _ => Err TypeError
  end.

Fixpoint bytes_of_ints (l : list value) : result bytes :=
  match l with
  | [] => Ok []
  | VInt z :: rest =>
      if (0 <=? z) && (z <? 256)
      then do r <- bytes_of_ints rest; Ok (byte_of_Z z :: r)
      else Err (ValueError BadBytesArgument)
  | _ :: _ => Err TypeError
  end.

(** [bytes(v)] *)
Definition py_bytes (v : value) : result bytes :=
  match v with
  | VBytes b => Ok b
  | VInt n => if n <? 0 then Err (ValueError BadBytesArgument) else Ok (zeros n)
  | VList l => bytes_of_ints l
  | VDict [] => Ok []
  | VDict (_ :: _) | VStr _ | VNone => Err TypeError
  end.

(** [s.encode("ascii")] *)
Fixpoint encode_ascii (s : text) : result bytes :=
  match s with
  | [] => Ok []
  | c :: rest =>
      if (0 <=? c) && (c <? 128)
      then do r <- encode_ascii rest; Ok (byte_of_Z c :: r)
      else Err UnicodeError
  end.

Definition between (lo hi : Z) (b : byte) : bool :=
  (lo <=? Z_of_byte b) && (Z_of_byte b <=? hi).

Definition trail (b : byte) : Z := Z_of_byte b - 0x80.

(** [data.decode()]: strict UTF-8 (well-formed sequences only, so neither
    overlong forms nor surrogates). *)
Fixpoint utf8_decode (data : bytes) : option text :=
  match data with
  | [] => Some []
  | b0 :: rest =>
    let c0 := Z_of_byte b0 in
    if c0 <? 0x80 then option_map (cons c0) (utf8_decode rest)
    else if between 0xC2 0xDF b0 then
      match rest with
      | b1 :: rest1 =>
          if between 0x80 0xBF b1
          then option_map (cons ((c0 - 0xC0) * 64 + trail b1)) (utf8_decode rest1)
          else None
      | _ => None
      end
    else if between 0xE0 0xEF b0 then
      match rest with
      | b1 :: b2 :: rest2 =>
          if between (if c0 =? 0xE0 then 0xA0 else 0x80)
                     (if c0 =? 0xED then 0x9F else 0xBF) b1
             && between 0x80 0xBF b2
          then option_map (cons ((c0 - 0xE0) * 4096 + trail b1 * 64 + trail b2))
                          (utf8_decode rest2)
          else None
      | _ => None
      end
    else if between 0xF0 0xF4 b0 then
      match rest with
      | b1 :: b2 :: b3 :: rest3 =>
          if between (if c0 =? 0xF0 then 0x90 else 0x80)
                     (if c0 =? 0xF4 then 0x8F else 0xBF) b1
             && between 0x80 0xBF b2 && between 0x80 0xBF b3
          then option_map
                 (cons ((c0 - 0xF0) * 262144 + trail b1 * 4096 + trail b2 * 64 + trail b3))
                 (utf8_decode rest3)
          else None
      | _ => None
      end
    else None
  end.

Definition decode (data : bytes) : result text :=
  match utf8_decode data with
  | Some s => Ok s
  | None => Err UnicodeError
  end.

(** [ret[idx] = v] on a list: a negative index counts from the end. *)
Definition list_setitem {A} (ret : list A) (idx : Z) (v : A) : result (list A) :=
  let i := if idx <? 0 then idx + len ret else idx in
  if (0 <=? i) && (i <? len ret)
  then Ok (firstn (Z.to_nat i) ret ++ v :: skipn (S (Z.to_nat i)) ret)
  else Err IndexError.

(** ** Warnings

    [parse] warns about each attribute it does not know: the attribute's
    type, and the names the id table gives that number. *)

Record warning := mkWarning {
  unknown_atype : Z;
  candidates : list string
}.

Definition M (A : Type) : Type := list warning * result A.

Definition ret {A} (a : A) : M A := ([], Ok a).

Definition lift {A} (r : result A) : M A := ([], r).

Definition warn (w : warning) : M unit := ([w], Ok tt).

Definition mbind {A B} (m : M A) (f : A -> M B) : M B :=
  match m with
  | (w, Ok a) => let (w', r) := f a in (w ++ w', r)
  | (w, Err e) => (w, Err e)
  end.

Notation "'mdo' x <- m ; k" := (mbind m (fun x => k))
  (at level 10, x pattern, m at level 100, k at level 200).

(** ** genl/nlattr.py: the schema classes *)

Inductive schema :=
| NlAttrSchemaInt (fmt : int_fmt)
| NlAttrSchemaStr
| NlAttrSchemaBytes
| NlAttrSchemaList (subelem_schema : schema)
| NlAttrSchemaArray (subelem_schema : schema)
| NlAttrSchema (subattr_schemata : dict schema)
               (required_attrs : list string)
               (name_mapping : dict string).

(** [type(schema).__name__] *)
Definition class_name (s : schema) : string :=
  match s with
  | NlAttrSchemaInt _ => "NlAttrSchemaInt"
  | NlAttrSchemaStr => "NlAttrSchemaStr"
  | NlAttrSchemaBytes => "NlAttrSchemaBytes"
  | NlAttrSchemaList _ => "NlAttrSchemaList"
  | NlAttrSchemaArray _ => "NlAttrSchemaArray"
  | NlAttrSchema _ _ _ => "NlAttrSchema"
  end.

(** The [size] attribute; only [NlAttrSchemaInt] has one. *)
Definition size (s : schema) : option Z :=
  match s with
  | NlAttrSchemaInt fmt => Some (calcsize fmt)
  | _ => None
  end.

Section Codec.
(** The byte order of the host, and the [ids] table every schema object
    of one [from_spec] call shares. *)
Variable host : byteorder.
Variable ids : dict Z.

(** *** build *)

Definition builder := value -> result bytes.

Definition NlAttrSchemaInt_build (fmt : int_fmt) : builder := fun val =>
  match val with
  | VInt z => struct_pack host fmt z
  | _ => Err StructError
  end.

Definition NlAttrSchemaStr_build : builder := fun val =>
  match val with
  | VStr s => do b <- encode_ascii s; Ok (b ++ [x00])
  | _ => Err AttributeError
  end.

Definition NlAttrSchemaBytes_build : builder := py_bytes.

(** One attribute: header, payload, padding. *)
Definition tlv (attr_id : Z) (attr_payload : bytes) : result bytes :=
  let length := attrib_hdr_len + len attr_payload in
  do hdr <- struct_pack_HH host length attr_id;
  Ok (pad (hdr ++ attr_payload)).

Fixpoint list_build_loop (subelem_build : builder) (items : list value) (i : Z)
         (payload : bytes) : result bytes :=
  match items with
  | [] => Ok payload
  | val :: rest =>
      do attr_payload <- subelem_build val;
      let attr_id := i + 1 in
      do t <- tlv attr_id attr_payload;
      list_build_loop subelem_build rest (i + 1) (payload ++ t)
  end.

Definition NlAttrSchemaList_build (subelem_build : builder) : builder :=
  fun attr_values =>
    do items <- py_iter attr_values;
    list_build_loop subelem_build items 0 [].

Fixpoint array_build_loop (subelem_build : builder) (items : list value)
         (payload : bytes) : result bytes :=
  match items with
  | [] => Ok payload
  | val :: rest =>
      do b <- subelem_build val;
      array_build_loop subelem_build rest (payload ++ b)
  end.

Definition NlAttrSchemaArray_build (subelem_build : builder) : builder :=
  fun attr_values =>
    do items <- py_iter attr_values;
    array_build_loop subelem_build items [].

(** The [for name, val in attr_values.items()] loop of
    [NlAttrSchema.build]. *)
Fixpoint set_build_loop (subattr_build : dict builder) (items : dict value)
         (payload : bytes) : result bytes :=
  match items with
  | [] => Ok payload
  | (name, val) :: rest =>
      do child <- dict_lookup name subattr_build;
      do attr_payload <- child val;
      do attr_id <- dict_lookup name ids;
      do t <- tlv attr_id attr_payload;
      set_build_loop subattr_build rest (payload ++ t)
  end.

(** [{self.name_mapping[k]: v for k, v in kwargs.items()}] *)
Fixpoint translate_kwargs (name_mapping : dict string) (kwargs : dict value)
         (acc : dict value) : result (dict value) :=
  match kwargs with
  | [] => Ok acc
  | (k, v) :: rest =>
      do name <- dict_lookup k name_mapping;
      translate_kwargs name_mapping rest (dict_set name v acc)
  end.

(** [NlAttrSchema.build(self, _attr_values=None, **kwargs)].  A truthy
    [_attr_values] that is not a mapping fails in [set()], in the unknown
    attribute check or at [.items()]; the model raises [TypeError] for
    all three. *)
Definition NlAttrSchema_build (subattr_build : dict builder)
           (required_attrs : list string) (name_mapping : dict string)
           (_attr_values : value) (kwargs : dict value) : result bytes :=
  if Bool.eqb (truthy _attr_values) (truthy (VDict kwargs))
  then Err (ValueError ExactlyOne)
  else
    do attr_values <-
       (if truthy (VDict kwargs) then
          if some_not_in (dict_keys kwargs) (dict_keys name_mapping)
          then Err (ValueError UnsupportedKwargs)
          else translate_kwargs name_mapping kwargs []
        else
          match _attr_values with
          | VDict d => Ok d
          | _ => Err TypeError
          end);
    if some_not_in (dict_keys attr_values) (dict_keys subattr_build)
    then Err (ValueError UnknownAttributes)
    else if some_not_in required_attrs (dict_keys attr_values)
    then Err (ValueError MissingRequired)
    else set_build_loop subattr_build attr_values [].

(** The [build] methods of the objects in [subattr_schemata]. *)
Definition child_builders (build : schema -> builder) (subattr_schemata : dict schema)
  : dict builder :=
  map (fun '(name, sub) => (name, build sub)) subattr_schemata.

(** [schema.build(val)], as a nested schema is called: one positional
    argument. *)
Fixpoint build (s : schema) (val : value) {struct s} : result bytes :=
  match s with
  | NlAttrSchemaInt fmt => NlAttrSchemaInt_build fmt val
  | NlAttrSchemaStr => NlAttrSchemaStr_build val
  | NlAttrSchemaBytes => NlAttrSchemaBytes_build val
  | NlAttrSchemaList sub => NlAttrSchemaList_build (build sub) val
  | NlAttrSchemaArray sub => NlAttrSchemaArray_build (build sub) val
  | NlAttrSchema subattr_schemata required_attrs name_mapping =>
      NlAttrSchema_build
        (child_builders build subattr_schemata)
        required_attrs name_mapping val []
  end.

(** The call with keyword arguments, on an attribute set schema. *)
Definition build_kwargs (s : schema) (_attr_values : value) (kwargs : dict value)
  : result bytes :=
  match s with
  | NlAttrSchema subattr_schemata required_attrs name_mapping =>
      NlAttrSchema_build
        (child_builders build subattr_schemata)
        required_attrs name_mapping _attr_values kwargs
  | _ => if truthy (VDict kwargs) then Err TypeError else build s _attr_values
  end.

(** *** parse *)

Definition parser := bytes -> M value.

Definition NlAttrSchemaInt_parse (fmt : int_fmt) : parser := fun data =>
  lift (do z <- struct_unpack host fmt data; Ok (VInt z)).

(** [s[-1]] raises [IndexError] on the empty string. *)
Definition NlAttrSchemaStr_parse : parser := fun data =>
  lift (do s <- decode data;
        match rev s with
        | [] => Err IndexError
        | c :: _ => if c =? 0 then Ok (VStr (removelast s)) else Ok (VStr s)
        end).

Definition NlAttrSchemaBytes_parse : parser := fun data => ret (VBytes data).

Fixpoint list_parse_loop (subelem_parse : parser) (attrs : list GNLAttribute)
         (ret_ : list value) : M (list value) :=
  match attrs with
  | [] => ret ret_
  | attr :: rest =>
      mdo v <- subelem_parse (adata attr);
      mdo ret' <- lift (list_setitem ret_ (atype attr - 1) v);
      list_parse_loop subelem_parse rest ret'
  end.

(** [max(a.atype for a in attrs)] on a list that is not empty. *)
Definition max_atype (attrs : list GNLAttribute) : Z :=
  match attrs with
  | [] => 0
  | a :: rest => fold_left (fun m b => Z.max m (atype b)) rest (atype a)
  end.

Definition NlAttrSchemaList_parse (subelem_parse : parser) : parser := fun data =>
  mdo attrs <- lift (parse_generic_attributes host data);
  match attrs with
  | [] => ret (VList [])
  | _ :: _ =>
      let ret_ := repeat VNone (Z.to_nat (max_atype attrs)) in
      mdo l <- list_parse_loop subelem_parse attrs ret_;
      ret (VList l)
  end.

(** The [while data] loop of [NlAttrSchemaArray.parse]; every turn
    removes [elem_size] bytes. *)
Fixpoint array_parse_loop (fuel : nat) (subelem_parse : parser) (elem_size : Z)
         (data : bytes) (ret_ : list value) : M (list value) :=
  match fuel with
  | O => lift (Err OutOfFuel)
  | S fuel' =>
      match data with
      | [] => ret ret_
      | _ :: _ =>
          mdo v <- subelem_parse (slice data 0 elem_size);
          array_parse_loop fuel' subelem_parse elem_size
            (skipn (Z.to_nat elem_size) data) (ret_ ++ [v])
      end
  end.

Definition NlAttrSchemaArray_parse (elem_size : option Z) (subelem_parse : parser)
  : parser := fun data =>
  match elem_size with
  | None => lift (Err AttributeError)
  | Some n => mdo l <- array_parse_loop (S (List.length data)) subelem_parse n data [];
              ret (VList l)
  end.

(** The inner [for ... else] of [NlAttrSchema.parse]: the first child
    whose id is the attribute's type. *)
Fixpoint find_attr {T} (subattr : dict T) (t : Z) : result (option (string * T)) :=
  match subattr with
  | [] => Ok None
  | (attr_name, attr_type) :: rest =>
      do id <- dict_lookup attr_name ids;
      if t =? id then Ok (Some (attr_name, attr_type)) else find_attr rest t
  end.

(** [[n for n, i in self.ids.items() if i == attr.atype]] *)
Definition id_candidates (t : Z) : list string :=
  map fst (filter (fun '(_, i) => i =? t) ids).

(** The [try ... except] around the child's [parse]: a [NetlinkError] is
    raised again, any other exception is wrapped in one.  (The budget
    error of the model is passed on as it is.) *)
Definition annotate (attr_name cls : string) (m : M value) : M value :=
  match m with
  | (w, Err (NetlinkMissing as e))
  | (w, Err (NetlinkWhileParsing _ _ _ as e))
  | (w, Err (OutOfFuel as e)) => (w, Err e)
  | (w, Err e) => (w, Err (NetlinkWhileParsing e attr_name cls))
  | (w, Ok v) => (w, Ok v)
  end.

Fixpoint set_parse_loop (subattr_parse : dict (string * parser))
         (attrs : list GNLAttribute) (attr_values : dict value) : M (dict value) :=
  match attrs with
  | [] => ret attr_values
  | attr :: rest =>
      mdo found <- lift (find_attr subattr_parse (atype attr));
      match found with
      | None =>
          mdo _ <- warn (mkWarning (atype attr) (id_candidates (atype attr)));
          set_parse_loop subattr_parse rest attr_values
      | Some (attr_name, (cls, attr_type)) =>
          mdo v <- annotate attr_name cls (attr_type (adata attr));
          set_parse_loop subattr_parse rest (dict_set attr_name v attr_values)
      end
  end.

(** [NlAttrSchema.parse], from the attributes the splitter found on. *)
Definition NlAttrSchema_parse_attrs (subattr_parse : dict (string * parser))
           (required_attrs : list string) (attrs : list GNLAttribute) : M value :=
  mdo attr_values <- set_parse_loop subattr_parse attrs [];
  if some_not_in required_attrs (dict_keys attr_values)
  then lift (Err NetlinkMissing)
  else ret (VDict attr_values).

Definition NlAttrSchema_parse (subattr_parse : dict (string * parser))
           (required_attrs : list string) : parser := fun data =>
  mdo attrs <- lift (parse_generic_attributes host data);
  NlAttrSchema_parse_attrs subattr_parse required_attrs attrs.

(** The [parse] methods of the objects in [subattr_schemata], each with
    the name of its class. *)
Definition child_parsers (parse : schema -> parser) (subattr_schemata : dict schema)
  : dict (string * parser) :=
  map (fun '(name, sub) => (name, (class_name sub, parse sub))) subattr_schemata.

Fixpoint parse (s : schema) (data : bytes) {struct s} : M value :=
  match s with
  | NlAttrSchemaInt fmt => NlAttrSchemaInt_parse fmt data
  | NlAttrSchemaStr => NlAttrSchemaStr_parse data
  | NlAttrSchemaBytes => NlAttrSchemaBytes_parse data
  | NlAttrSchemaList sub => NlAttrSchemaList_parse (parse sub) data
  | NlAttrSchemaArray sub => NlAttrSchemaArray_parse (size sub) (parse sub) data
  | NlAttrSchema subattr_schemata required_attrs _ =>
      NlAttrSchema_parse
        (child_parsers parse subattr_schemata)
        required_attrs data
  end.

(** [NlAttrSet.__getattr__]: access by the short Python name. *)
Definition getattr (name_mapping : dict string) (values : dict value) (name : string)
  : result value :=
  match dict_get name name_mapping with
  | Some key => dict_lookup key values
  | None => Err AttributeError
  end.
End Codec.

(** ** Schema descriptions and [from_spec]

    A description is the Python data [from_spec] is given: a string (a type
    name), a list of field descriptions, or a dictionary with the keys
    "name", "python_name", "type", "subelem_type" and "required", each of
    which may be absent. *)

Inductive pyspec :=
| PStr (s : string)
| PList (l : list pyspec)
| PDict (name python_name : option string) (type subelem_type : option pyspec)
        (required : bool).

(** The classes registered by [@schema_class], and [schema_classes]. *)
Inductive schema_cls :=
| ClsInt (fmt : int_fmt)
| ClsStr
| ClsBytes
| ClsList
| ClsArray.

Definition schema_classes (type_name : string) : result schema_cls :=
  if String.eqb type_name "u8" then Ok (ClsInt fmt_B)
  else if String.eqb type_name "u16" then Ok (ClsInt fmt_H)
  else if String.eqb type_name "s16" then Ok (ClsInt fmt_h)
  else if String.eqb type_name "u32" then Ok (ClsInt fmt_I)
  else if String.eqb type_name "u64" then Ok (ClsInt fmt_Q)
  else if String.eqb type_name "str" then Ok ClsStr
  else if String.eqb type_name "bytes" then Ok ClsBytes
  else if String.eqb type_name "list" then Ok ClsList
  else if String.eqb type_name "array" then Ok ClsArray
  else Err (KeyError type_name).

(** *** Strings

    Attribute names are ASCII identifiers; [lower] is [str.lower] on
    them. *)

Definition lower_ascii (c : ascii) : ascii :=
  let n := N_of_ascii c in
  if (N.leb 65 n && N.leb n 90)%bool then ascii_of_N (n + 32) else c.

Fixpoint lower (s : string) : string :=
  match s with
  | EmptyString => EmptyString
  | String c r => String (lower_ascii c) (lower r)
  end.

(** [s[n:]] *)
Fixpoint string_drop (n : nat) (s : string) : string :=
  match n, s with
  | O, _ => s
  | S n', String _ r => string_drop n' r
  | S _, EmptyString => EmptyString
  end.

Fixpoint endswith_underscore (s : string) : bool :=
  match s with
  | EmptyString => false
  | String c EmptyString => Ascii.eqb c "_"
  | String _ r => endswith_underscore r
  end.

Fixpoint common_prefix2 (s1 s2 : string) : string :=
  match s1, s2 with
  | String c1 r1, String c2 r2 =>
      if Ascii.eqb c1 c2 then String c1 (common_prefix2 r1 r2) else EmptyString
  | _, _ => EmptyString
  end.

Definition string_min (a b : string) : string := if String.leb a b then a else b.
Definition string_max (a b : string) : string := if String.leb a b then b else a.

(** [os.path.commonprefix]: the common prefix of the least and the
    greatest name. *)
Definition commonprefix (m : list string) : string :=
  match m with
  | [] => EmptyString
  | s :: rest =>
      common_prefix2 (fold_left string_min rest s) (fold_left string_max rest s)
  end.

(** *** The compiler *)

(** [a["name"]] for a field description. *)
Definition field_name (a : pyspec) : result string :=
  match a with
  | PDict (Some n) _ _ _ _ => Ok n
  | PDict None _ _ _ _ => Err (KeyError "name")
  | _ => Err TypeError
  end.

Fixpoint field_names (spec : list pyspec) : result (list string) :=
  match spec with
  | [] => Ok []
  | a :: rest => do n <- field_name a; do ns <- field_names rest; Ok (n :: ns)
  end.

(** The [for field_spec in spec] loop of [NlAttrSchema.from_spec]; each
    field comes with the result of compiling it. *)
Fixpoint from_spec_loop (common_prefix : string)
         (spec : list (pyspec * result schema))
         (subattr_schemata : dict schema) (name_mapping : dict string)
         (required_attrs : list string) : result schema :=
  match spec with
  | [] => Ok (NlAttrSchema subattr_schemata required_attrs name_mapping)
  | (field_spec, compiled) :: rest =>
      do subattr_schema <- compiled;
      do name <- field_name field_spec;
      let python_name :=
        match field_spec with
        | PDict _ (Some p) _ _ _ => p
        | _ => lower (string_drop (String.length common_prefix) name)
        end in
      let required :=
        match field_spec with
        | PDict _ _ _ _ r => r
        | _ => false
        end in
      from_spec_loop common_prefix rest
        (dict_set name subattr_schema subattr_schemata)
        (dict_set python_name name name_mapping)
        (if required then required_attrs ++ [name] else required_attrs)
  end.

Definition NlAttrSchema_from_spec (spec : list (pyspec * result schema))
  : result schema :=
  do names <- field_names (map fst spec);
  let common_prefix := commonprefix names in
  let common_prefix :=
    if endswith_underscore common_prefix then common_prefix
    else (common_prefix ++ "_")%string in
  from_spec_loop common_prefix spec [] [] [].

(** [cls(subelem_schema, ids)] for the two collection classes;
    [NlAttrSchemaArray.__init__] wants a [size]. *)
Definition new_collection (cls : schema_cls) (subelem_schema : schema) : result schema :=
  match cls with
  | ClsArray =>
      match size subelem_schema with
      | Some _ => Ok (NlAttrSchemaArray subelem_schema)
      | None => Err (ValueError NotFixedSize)
      end
  | _ => Ok (NlAttrSchemaList subelem_schema)
  end.

(** Compiling [{"type": type_name}], the form a bare string
    "subelem_type" is turned into. *)
Definition from_type_name (type_name : string) : result schema :=
  do cls <- schema_classes type_name;
  match cls with
  | ClsInt fmt => Ok (NlAttrSchemaInt fmt)
  | ClsStr => Ok NlAttrSchemaStr
  | ClsBytes => Ok NlAttrSchemaBytes
  | ClsList | ClsArray => Err (KeyError "subelem_type")
  end.

(** [get_schema_class(spec).from_spec(spec, ids)] *)
Fixpoint from_spec (spec : pyspec) : result schema :=
  match spec with
  | PStr _ => Err TypeError
  | PList fields =>
      NlAttrSchema_from_spec (map (fun f => (f, from_spec f)) fields)
  | PDict _ _ None _ _ => Err (KeyError "type")
  | PDict _ _ (Some (PList fields)) _ _ =>
      NlAttrSchema_from_spec (map (fun f => (f, from_spec f)) fields)
  | PDict _ _ (Some (PDict _ _ _ _ _)) _ _ => Err TypeError
  | PDict _ _ (Some (PStr type_name)) subelem_type _ =>
      do cls <- schema_classes type_name;
      match cls with
      | ClsInt fmt => Ok (NlAttrSchemaInt fmt)
      | ClsStr => Ok NlAttrSchemaStr
      | ClsBytes => Ok NlAttrSchemaBytes
      | ClsList | ClsArray =>
          match subelem_type with
          | None => Err (KeyError "subelem_type")
          | Some (PStr s) =>
              do subelem_schema <- from_type_name s;
              new_collection cls subelem_schema
          | Some subelem_spec =>
              do subelem_schema <- from_spec subelem_spec;
              new_collection cls subelem_schema
          end
      end
  end.

(** The descriptions used below. *)
Definition field (name type_name : string) : pyspec :=
  PDict (Some name) None (Some (PStr type_name)) None false.

(** ** genl/netlink.py: messages

    The netlink and generic netlink headers, formats "@IHHII" (16 bytes)
    and "@BBH" (4 bytes); neither has padding between its fields. *)

Definition NLMSG_ERROR : Z := 0x02.
Definition GENL_ID_CTRL : Z := 0x10.
Definition NLM_F_REQUEST : Z := 1.
Definition GNL_FAMILY_VERSION : Z := 1.

Definition NL_HEADER_LEN : Z := 16.
Definition GNL_HEADER_LEN : Z := 4.

(** The namedtuple [NLMessageHeader(length, mtype, flags, seq, port)]. *)
Record NLMessageHeader := mkNLMessageHeader {
  nl_length : Z;
  mtype : Z;
  flags : Z;
  seq : Z;
  port : Z
}.

(** The namedtuple [GNLMessageHeader(cmd, version, reserved)]. *)
Record GNLMessageHeader := mkGNLMessageHeader {
  cmd : Z;
  version : Z;
  reserved : Z
}.

Definition struct_pack_IHHII (host : byteorder) (h : NLMessageHeader) : result bytes :=
  do a <- struct_pack host fmt_I (nl_length h);
  do b <- struct_pack host fmt_H (mtype h);
  do c <- struct_pack host fmt_H (flags h);
  do d <- struct_pack host fmt_I (seq h);
  do e <- struct_pack host fmt_I (port h);
  Ok (a ++ b ++ c ++ d ++ e).

Definition struct_unpack_IHHII (host : byteorder) (data : bytes) : result NLMessageHeader :=
  if len data =? NL_HEADER_LEN then
    do a <- struct_unpack host fmt_I (slice data 0 4);
    do b <- struct_unpack host fmt_H (slice data 4 6);
    do c <- struct_unpack host fmt_H (slice data 6 8);
    do d <- struct_unpack host fmt_I (slice data 8 12);
    do e <- struct_unpack host fmt_I (slice data 12 16);
    Ok (mkNLMessageHeader a b c d e)
  else Err StructError.

Definition struct_pack_BBH (host : byteorder) (h : GNLMessageHeader) : result bytes :=
  do a <- struct_pack host fmt_B (cmd h);
  do b <- struct_pack host fmt_B (version h);
  do c <- struct_pack host fmt_H (reserved h);
  Ok (a ++ b ++ c).

Definition struct_unpack_BBH (host : byteorder) (data : bytes) : result GNLMessageHeader :=
  if len data =? GNL_HEADER_LEN then
    do a <- struct_unpack host fmt_B (slice data 0 1);
    do b <- struct_unpack host fmt_B (slice data 1 2);
    do c <- struct_unpack host fmt_H (slice data 2 4);
    Ok (mkGNLMessageHeader a b c)
  else Err StructError.

(** [struct.unpack("@i", data)[0]]: a signed int of four bytes. *)
Definition struct_unpack_i (host : byteorder) (data : bytes) : result Z :=
  if len data =? 4 then
    let u := le_value (in_host_order host data) in
    Ok (if 2 ^ 31 <=? u then u - 2 ^ 32 else u)
  else Err StructError.

(** [x or default] for an optional integer: [None] and 0 are falsy. *)
Definition or_else (x : option Z) (default : Z) : Z :=
  match x with
  | Some v => if v =? 0 then default else v
  | None => default
  end.

(** [get_genl_message].  [now] is [int(time.time())] and [pid] is
    [os.getpid()] at the time of the call; [payload] defaults to [None],
    and [len(None)] raises. *)
Definition get_genl_message (host : byteorder) (now pid : Z) (payload : option bytes)
           (mtype cmd version flags : Z) (seq port : option Z) : result bytes :=
  match payload with
  | None => Err TypeError
  | Some payload =>
      let length := NL_HEADER_LEN + GNL_HEADER_LEN + len payload in
      let padded_length := align length in
      let padding := zeros (padded_length - length) in
      let nl_header :=
        mkNLMessageHeader padded_length mtype flags (or_else seq now) (or_else port pid) in
      let genl_header := mkGNLMessageHeader cmd version 0 in
      do h1 <- struct_pack_IHHII host nl_header;
      do h2 <- struct_pack_BBH host genl_header;
      Ok (h1 ++ h2 ++ payload ++ padding)
  end.

Definition parse_nl_message (host : byteorder) (nl_message : bytes)
  : result (NLMessageHeader * bytes) :=
  let header_bytes := slice nl_message 0 NL_HEADER_LEN in
  do nl_header <- struct_unpack_IHHII host header_bytes;
  let nl_body := skipn (Z.to_nat (align NL_HEADER_LEN)) nl_message in
  Ok (nl_header, nl_body).

Definition parse_genl_message (host : byteorder) (genl_message : bytes)
  : result (NLMessageHeader * GNLMessageHeader * bytes) :=
  do (nl_header, nl_body) <- parse_nl_message host genl_message;
  let genl_header_bytes := slice nl_body 0 GNL_HEADER_LEN in
  do genl_header <- struct_unpack_BBH host genl_header_bytes;
  let genl_body := skipn (Z.to_nat (align GNL_HEADER_LEN)) nl_body in
  Ok (nl_header, genl_header, genl_body).

Definition parse_nl_error (host : byteorder) (data : bytes) : result Z :=
  struct_unpack_i host (slice data 0 4).

(** [wait_for_ack], on the bytes [sock.recv(4096)] returned.  The message
    of the last [NetlinkError] is formatted first: [os.strerror] raises
    [OverflowError] above the largest C int, and [errno.errorcode], the
    table of the platform, raises [KeyError] for a number it does not
    have. *)
Inductive ack_exception :=
| AckStructError
| AckInvalidResponse (mtype : Z)        (* NetlinkError("Invalid response to vendor command (%s)") *)
| AckCommandFailed (error : Z) (code : string)   (* NetlinkError("Vendor command failed: %s [%s]") *)
| AckOverflowError
| AckKeyError (error : Z).

Definition wait_for_ack (host : byteorder) (errorcode : Z -> option string) (data : bytes)
  : option ack_exception :=
  match parse_nl_message host data with
  | Err _ => Some AckStructError
  | Ok (nl_header, nl_body) =>
      if negb (mtype nl_header =? NLMSG_ERROR)
      then Some (AckInvalidResponse (mtype nl_header))
      else
        match parse_nl_error host nl_body with
        | Err _ => Some AckStructError
        | Ok e =>
            let error := Z.abs e in
            if negb (error =? 0) then
              if 2 ^ 31 - 1 <? error then Some AckOverflowError
              else match errorcode error with
                   | Some code => Some (AckCommandFailed error code)
                   | None => Some (AckKeyError error)
                   end
            else None
        end
  end.

(** ** genl/__init__.py: looking a family up *)

Definition CTRL_CMD_GETFAMILY : Z := 3.

Definition genl_ctrl_constants : dict Z :=
  [("CTRL_CMD_GETFAMILY", 3);
   ("CTRL_ATTR_FAMILY_ID", 1);
   ("CTRL_ATTR_FAMILY_NAME", 2);
   ("CTRL_ATTR_MCAST_GROUPS", 7);
   ("CTRL_ATTR_MCAST_GRP_NAME", 1);
   ("CTRL_ATTR_VERSION", 3);
   ("CTRL_ATTR_HDRSIZE", 4);
   ("CTRL_ATTR_MAXATTR", 5);
   ("CTRL_ATTR_OPS", 6);
   ("CTRL_ATTR_MCAST_GRP_ID", 2)].

Definition getfamily_spec : pyspec :=
  PList
    [field "CTRL_ATTR_FAMILY_ID" "u16";
     field "CTRL_ATTR_FAMILY_NAME" "str";
     field "CTRL_ATTR_VERSION" "u32";
     field "CTRL_ATTR_HDRSIZE" "u32";
     field "CTRL_ATTR_MAXATTR" "u32";
     field "CTRL_ATTR_OPS" "bytes";
     PDict (Some "CTRL_ATTR_MCAST_GROUPS") None (Some (PStr "list"))
           (Some (PList [field "CTRL_ATTR_MCAST_GRP_NAME" "str";
                         field "CTRL_ATTR_MCAST_GRP_ID" "u32"]))
           false].

(** [NlAttrSchema.from_spec(getfamily_spec, genl_ctrl_constants)], run when
    the package is imported. *)
Definition getfamily_schema : result schema := from_spec getfamily_spec.

(** [c.isspace()] for a code point and for a byte: what [str.strip()] and
    [bytes.strip()] remove. *)
Definition isspace (c : Z) : bool :=
  ((0x09 <=? c) && (c <=? 0x0D)) || ((0x1C <=? c) && (c <=? 0x20))
  || (c =? 0x85) || (c =? 0xA0) || (c =? 0x1680)
  || ((0x2000 <=? c) && (c <=? 0x200A))
  || (c =? 0x2028) || (c =? 0x2029) || (c =? 0x202F) || (c =? 0x205F) || (c =? 0x3000).

Definition isspace_byte (b : byte) : bool :=
  let c := Z_of_byte b in ((0x09 <=? c) && (c <=? 0x0D)) || (c =? 0x20).

Fixpoint lstrip {A} (space : A -> bool) (s : list A) : list A :=
  match s with
  | [] => []
  | c :: rest => if space c then lstrip space rest else s
  end.

Definition strip {A} (space : A -> bool) (s : list A) : list A :=
  rev (lstrip space (rev (lstrip space s))).

(** [v.strip()] *)
Definition py_strip (v : value) : result value :=
  match v with
  | VStr s => Ok (VStr (strip isspace s))
  | VBytes b => Ok (VBytes (strip isspace_byte b))
  | _ => Err AttributeError
  end.

(** [v[key]] for a string [key]: an [NlAttrSet] or a dictionary looks the
    key up, any other value of the codec raises [TypeError]. *)
Definition getitem (v : value) (key : string) : result value :=
  match v with
  | VDict d => dict_lookup key d
  | _ => Err TypeError
  end.

Fixpoint list_eqb {A} (eqb : A -> A -> bool) (l1 l2 : list A) : bool :=
  match l1, l2 with
  | [], [] => true
  | x :: r1, y :: r2 => eqb x y && list_eqb eqb r1 r2
  | _, _ => false
  end.

(** [a == b] for the keys of [mcast_groups], which [strip] returned: a
    [str] and a [bytes] are never equal. *)
Definition key_eqb (a b : value) : bool :=
  match a, b with
  | VStr s, VStr t => list_eqb Z.eqb s t
  | VBytes x, VBytes y => list_eqb Byte.eqb x y
  | _, _ => false
  end.

(** [mcast_groups[k] = v] *)
Fixpoint groups_set (k v : value) (d : list (value * value)) : list (value * value) :=
  match d with
  | [] => [(k, v)]
  | (k', v') :: rest =>
      if key_eqb k k' then (k, v) :: rest else (k', v') :: groups_set k v rest
  end.

(** The namedtuple [GenlFamilyInfo(id, mcast_groups)]; [id] is
    [family_id] here. *)
Record GenlFamilyInfo := mkGenlFamilyInfo {
  family_id : value;
  mcast_groups : list (value * value)
}.

(** The [for entry in response["CTRL_ATTR_MCAST_GROUPS"]] loop. *)
Fixpoint mcast_groups_loop (entries : list value) (mcast_groups : list (value * value))
  : result (list (value * value)) :=
  match entries with
  | [] => Ok mcast_groups
  | entry :: rest =>
      do name <- getitem entry "CTRL_ATTR_MCAST_GRP_NAME";
      do group_name <- py_strip name;
      do group_id <- getitem entry "CTRL_ATTR_MCAST_GRP_ID";
      mcast_groups_loop rest (groups_set group_name group_id mcast_groups)
  end.

(** [lookup_genl_family], in its two halves: the message it sends, and
    what it makes of the bytes [sock.recv(4096)] returned.  An error of
    the socket calls themselves is not modelled. *)
Definition lookup_request (host : byteorder) (now pid : Z) (family_name : value)
  : result bytes :=
  do schema <- getfamily_schema;
  do payload <- build_kwargs host genl_ctrl_constants schema VNone
                             [("family_name", family_name)];
  get_genl_message host now pid (Some payload) GENL_ID_CTRL CTRL_CMD_GETFAMILY
                   GNL_FAMILY_VERSION NLM_F_REQUEST None None.

Definition lookup_response (host : byteorder) (data : bytes) : M GenlFamilyInfo :=
  mdo schema <- lift getfamily_schema;
  mdo (_, genl_body) <- lift (parse_genl_message host data);
  mdo response <- parse host genl_ctrl_constants schema genl_body;
  lift (do groups <- getitem response "CTRL_ATTR_MCAST_GROUPS";
        do entries <- py_iter groups;
        do mcast_groups <- mcast_groups_loop entries [];
        do family_id <- getitem response "CTRL_ATTR_FAMILY_ID";
        Ok (mkGenlFamilyInfo family_id mcast_groups)).

(** [sock] is the kernel's side: the bytes [recv] returns after the
    request was sent. *)
Definition lookup_genl_family (host : byteorder) (now pid : Z) (sock : bytes -> bytes)
           (family_name : value) : M GenlFamilyInfo :=
  mdo cmd <- lift (lookup_request host now pid family_name);
  let data := sock cmd in
  lookup_response host data.

(** ** Notions the properties are stated with *)

(** Where the byte of weight [256 ^ i] of a packed integer sits. *)
Definition byte_index (host : byteorder) (fmt : int_fmt) (i : Z) : Z :=
  match host with
  | little => i
  | big => calcsize fmt - 1 - i
  end.

(** The child an attribute of type [t] belongs to: the first child of the
    scope, in the order of the schema, to whose name the id table gives
    the number [t].  [None]: the type matches no child. *)
Fixpoint child_of_type (ids : dict Z) (subattr_schemata : dict schema) (t : Z)
  : option (string * schema) :=
  match subattr_schemata with
  | [] => None
  | (name, sub) :: rest =>
      match dict_get name ids with
      | Some i => if i =? t then Some (name, sub) else child_of_type ids rest t
      | None => child_of_type ids rest t
      end
  end.

(** Every child of the scope has an id in the table, as the documentation
    of [from_spec] asks; nothing in the code checks it. *)
Definition children_have_ids (ids : dict Z) (subattr_schemata : dict schema) : bool :=
  forallb (fun '(name, _) =>
             match dict_get name ids with
             | Some _ => true
             | None => false
             end) subattr_schemata.

(** The attribute belongs to a child of the scope. *)
Definition recognized (ids : dict Z) (subattr_schemata : dict schema) (a : GNLAttribute)
  : bool :=
  match child_of_type ids subattr_schemata (atype a) with
  | Some _ => true
  | None => false
  end.

(** [piece] is one attribute on the wire: a header that unpacks to the
    header size plus the length of the payload, and to the id; the payload;
    then fewer than four zero bytes, up to a multiple of four. *)
Definition tlv_layout (host : byteorder) (attr_id : Z) (attr_payload piece : bytes)
  : Prop :=
  exists hdr k,
    piece = hdr ++ attr_payload ++ zeros k
    /\ struct_unpack_HH host hdr = Ok (attrib_hdr_len + len attr_payload, attr_id)
    /\ 0 <= k < 4
    /\ len piece mod 4 = 0.

(** The pieces of a list payload: element [i] (from 0) is one attribute on
    the wire, of type [i + 1], whose payload is what the element schema
    built and is laid out as [inner] says. *)
Fixpoint list_layout (host : byteorder) (subelem_build : value -> result bytes)
         (inner : value -> bytes -> Prop) (i : Z)
         (items : list value) (pieces : list bytes) : Prop :=
  match items, pieces with
  | [], [] => True
  | val :: items', piece :: pieces' =>
      (exists attr_payload,
          subelem_build val = Ok attr_payload
          /\ tlv_layout host (i + 1) attr_payload piece
          /\ inner val attr_payload)
      /\ list_layout host subelem_build inner (i + 1) items' pieces'
  | _, _ => False
  end.

(** The attributes inside a payload [b] that schema [s] built from [v], at
    every depth: the payload of a list or of an attribute set is the
    concatenation of attributes on the wire, each starting at a multiple
    of four from the start of the payload (which itself follows the four
    bytes of its own header), and their payloads are laid out in the same
    way; an array is the concatenation of its elements; integers, strings
    and blobs hold no attributes. *)
Fixpoint nested_layout (host : byteorder) (ids : dict Z) (s : schema)
         (v : value) (b : bytes) {struct s} : Prop :=
  match s with
  | NlAttrSchemaInt _ | NlAttrSchemaStr | NlAttrSchemaBytes => True
  | NlAttrSchemaList sub =>
      exists items pieces,
        py_iter v = Ok items
        /\ b = List.concat pieces
        /\ list_layout host (build host ids sub) (nested_layout host ids sub) 0 items pieces
        /\ (forall n, len (List.concat (firstn n pieces)) mod 4 = 0)
  | NlAttrSchemaArray sub =>
      exists items chunks,
        py_iter v = Ok items
        /\ b = List.concat chunks
        /\ Forall2 (fun val chunk =>
                      build host ids sub val = Ok chunk
                      /\ nested_layout host ids sub val chunk) items chunks
  | NlAttrSchema subattr_schemata _ _ =>
      exists d pieces,
        v = VDict d
        /\ b = List.concat pieces
        /\ Forall2 (fun '(name, val) piece =>
                      exists child inner attr_payload attr_id,
                        dict_get name
                          (map (fun '(n, sub) => (n, (sub, nested_layout host ids sub)))
                               subattr_schemata)
                        = Some (child, inner)
                        /\ build host ids child val = Ok attr_payload
                        /\ dict_get name ids = Some attr_id
                        /\ tlv_layout host attr_id attr_payload piece
                        /\ inner val attr_payload) d pieces
        /\ (forall n, len (List.concat (firstn n pieces)) mod 4 = 0)
  end.

(** A schema, an id table and a value used in the examples: the scalar,
    string and array scenarios in one attribute set. *)
Definition example_ids : dict Z :=
  [("ATTR_X", 1); ("ATTR_NAME", 2); ("ATTR_RATES", 5)].

Definition example_schema : schema :=
  NlAttrSchema
    [("ATTR_X", NlAttrSchemaInt fmt_I); ("ATTR_NAME", NlAttrSchemaStr);
     ("ATTR_RATES", NlAttrSchemaArray (NlAttrSchemaInt fmt_B))]
    ["ATTR_X"]
    [("x", "ATTR_X"); ("name", "ATTR_NAME"); ("rates", "ATTR_RATES")].

Definition example_value : value :=
  VDict [("ATTR_RATES", VList [VInt 5; VInt 6; VInt 7]);
         ("ATTR_X", VInt 3735928559);
         ("ATTR_NAME", VStr [104; 105])].

Definition example_bytes : bytes :=
  [x07; x00; x05; x00; x05; x06; x07; x00;
   x08; x00; x01; x00; xef; xbe; xad; xde;
   x07; x00; x02; x00; x68; x69; x00; x00].

(** Every name of a scope has an id in the table, and no two of them the
    same id. *)
Fixpoint ids_distinct (ids : dict Z) (names : list string) : bool :=
  match names with
  | [] => true
  | n :: rest =>
      match dict_get n ids with
      | None => false
      | Some i =>
          forallb (fun m => match dict_get m ids with
                            | Some j => negb (i =? j)
                            | None => false
                            end) rest
          && ids_distinct ids rest
      end
  end.

(** What the compiler leaves to its caller: in every attribute set of the
    schema, the ids of the children are in the table and distinct. *)
Fixpoint scope_ids_ok (ids : dict Z) (s : schema) : bool :=
  match s with
  | NlAttrSchemaInt _ | NlAttrSchemaStr | NlAttrSchemaBytes => true
  | NlAttrSchemaList sub | NlAttrSchemaArray sub => scope_ids_ok ids sub
  | NlAttrSchema subattr_schemata _ _ =>
      ids_distinct ids (dict_keys subattr_schemata)
      && forallb (fun '(_, sub) => scope_ids_ok ids sub) subattr_schemata
  end.

(** What [NlAttrSchemaArray.__init__] checks: the element schema of every
    array has a [size]. *)
Fixpoint arrays_sized (s : schema) : bool :=
  match s with
  | NlAttrSchemaInt _ | NlAttrSchemaStr | NlAttrSchemaBytes => true
  | NlAttrSchemaList sub => arrays_sized sub
  | NlAttrSchemaArray sub =>
      match size sub with Some _ => true | None => false end && arrays_sized sub
  | NlAttrSchema subattr_schemata _ _ =>
      forallb (fun '(_, sub) => arrays_sized sub) subattr_schemata
  end.

Fixpoint unique_names (names : list string) : bool :=
  match names with
  | [] => true
  | n :: rest => negb (existsb (String.eqb n) rest) && unique_names rest
  end.

(** The value has the shape of the schema: an [int] for an integer, a
    [str] for a string, [bytes] for a blob, a [list] for a list or an
    array, a mapping (whose keys are unique, as those of a Python mapping
    are) for an attribute set, and so on below. *)
Fixpoint value_ok (s : schema) (v : value) {struct s} : bool :=
  match s, v with
  | NlAttrSchemaInt _, VInt _ => true
  | NlAttrSchemaStr, VStr _ => true
  | NlAttrSchemaBytes, VBytes _ => true
  | NlAttrSchemaList sub, VList l => forallb (value_ok sub) l
  | NlAttrSchemaArray sub, VList l => forallb (value_ok sub) l
  | NlAttrSchema subattr_schemata _ _, VDict d =>
      unique_names (dict_keys d)
      && forallb (fun '(k, x) =>
                    match dict_get k (map (fun '(n, sub) => (n, value_ok sub))
                                          subattr_schemata) with
                    | Some ok => ok x
                    | None => true
                    end) d
  | _, _ => false
  end.

(** The attributes of a built list carry the numbers [i + 1], [i + 2],
    ... as their types. *)
Fixpoint numbered_from (i : Z) (attrs : list GNLAttribute) : Prop :=
  match attrs with
  | [] => True
  | a :: rest => atype a = i + 1 /\ numbered_from (i + 1) rest
  end.

(** [isinstance(e, NetlinkError)] *)
Definition is_NetlinkError (e : error) : bool :=
  match e with
  | NetlinkMissing | NetlinkWhileParsing _ _ _ => true
  | _ => false
  end.

(** An exception [parse] may raise: not the budget error of the model,
    and a [NetlinkError] that wraps another exception never wraps a
    [NetlinkError]. *)
Definition good_error (e : error) : Prop :=
  e <> OutOfFuel
  /\ forall e' n c, e = NetlinkWhileParsing e' n c -> is_NetlinkError e' = false.

(** In every attribute set of the schema, every required name and every
    target of the name mapping is the name of a child.  (Nothing is said
    of the Python names: two fields may derive the same one, and the
    mapping then keeps the later field.) *)
Fixpoint names_resolve (s : schema) : bool :=
  match s with
  | NlAttrSchemaInt _ | NlAttrSchemaStr | NlAttrSchemaBytes => true
  | NlAttrSchemaList sub | NlAttrSchemaArray sub => names_resolve sub
  | NlAttrSchema subattr_schemata required_attrs name_mapping =>
      negb (some_not_in required_attrs (dict_keys subattr_schemata))
      && negb (some_not_in (map snd name_mapping) (dict_keys subattr_schemata))
      && forallb (fun '(_, sub) => names_resolve sub) subattr_schemata
  end.

(** [field_spec.get("required", False)], as the loop of [from_spec]
    reads it. *)
Definition field_required (a : pyspec) : bool :=
  match a with
  | PDict _ _ _ _ r => r
  | _ => false
  end.

(** The slot [ret[t - 1] = ...] writes in a list of [n] slots: a negative
    index counts from the end, so type 0 addresses the last slot. *)
Definition list_slot (n t : Z) : Z :=
  if t - 1 <? 0 then t - 1 + n else t - 1.

(** The entry of a multicast group in a reply. *)
Definition mcast_entry (g : text * Z) : value :=
  VDict [("CTRL_ATTR_MCAST_GRP_NAME", VStr (fst g)); ("CTRL_ATTR_MCAST_GRP_ID", VInt (snd g))].

(** Messages used in the examples: a request of type 16 with command 3,
    sequence number 1, port 2 and the payload 01, as a little-endian host
    builds it; an acknowledgement (type [NLMSG_ERROR], error 0); and a
    reply to a family lookup, family id 28 and one multicast group. *)
Definition example_message : bytes :=
  [x18; x00; x00; x00; x10; x00; x01; x00; x01; x00; x00; x00; x02; x00; x00; x00;
   x03; x01; x00; x00;
   x01; x00; x00; x00].

Definition example_ack : bytes :=
  [x18; x00; x00; x00; x02; x00; x00; x00; x01; x00; x00; x00; x02; x00; x00; x00;
   x00; x00; x00; x00;
   x00; x00; x00; x00].

Definition example_reply_values : dict value :=
  [("CTRL_ATTR_FAMILY_ID", VInt 28);
   ("CTRL_ATTR_MCAST_GROUPS", VList (map mcast_entry [([32; 109; 108; 109; 101], 5)]))].

Definition example_reply_header : bytes :=
  [x38; x00; x00; x00; x10; x00; x00; x00; x01; x00; x00; x00; x02; x00; x00; x00;
   x01; x02; x00; x00].

Definition example_reply_body : bytes :=
  [x06; x00; x01; x00; x1c; x00; x00; x00;
   x1c; x00; x07; x00;
   x18; x00; x01; x00;
   x0a; x00; x01; x00; x20; x6d; x6c; x6d; x65; x00; x00; x00;
   x08; x00; x02; x00; x05; x00; x00; x00].

(** The parts of [example_schema]. *)
Definition example_children : dict schema :=
  [("ATTR_X", NlAttrSchemaInt fmt_I); ("ATTR_NAME", NlAttrSchemaStr);
   ("ATTR_RATES", NlAttrSchemaArray (NlAttrSchemaInt fmt_B))].

Definition example_name_mapping : dict string :=
  [("x", "ATTR_X"); ("name", "ATTR_NAME"); ("rates", "ATTR_RATES")].

(** A scope with one child and a table that also names the number 99, a
    buffer with an attribute of type 99 before one of type 1, and the
    attributes the splitter finds in it. *)
Definition unknown_example_ids : dict Z := [("ATTR_A", 1); ("OTHER_Z", 99)].

Definition unknown_example_children : dict schema := [("ATTR_A", NlAttrSchemaInt fmt_B)].

Definition unknown_example_bytes : bytes :=
  [x05; x00; x63; x00; x07; x00; x00; x00;
   x05; x00; x01; x00; x05; x00; x00; x00].

Definition unknown_example_attrs : list GNLAttribute :=
  [mkGNLAttribute 5 99 [x07]; mkGNLAttribute 5 1 [x05]].

(** A scope with a list of strings among its children, and its ids. *)
Definition nested_example_ids : dict Z := [("ATTR_X", 1); ("ATTR_NAMES", 4)].

Definition nested_example_children : dict schema :=
  [("ATTR_X", NlAttrSchemaInt fmt_I); ("ATTR_NAMES", NlAttrSchemaList NlAttrSchemaStr)].

(** * Properties *)

(** ** Bytes and integers *)

Lemma Z_of_byte_range (b : byte) : 0 <= Z_of_byte b < 256.
Proof.
  unfold Z_of_byte. pose proof (Byte.to_N_bounded b). lia.
Qed.

Lemma Z_of_byte_of_Z (z : Z) : Z_of_byte (byte_of_Z z) = z mod 256.
Proof.
  unfold Z_of_byte, byte_of_Z.
  pose proof (Z.mod_pos_bound z 256 ltac:(lia)) as Hb.
  destruct (Byte.of_N (Z.to_N (z mod 256))) as [b|] eqn:E.
  - apply Byte.to_of_N in E. rewrite E. lia.
  - apply Byte.of_N_None_iff in E. lia.
Qed.

Lemma byte_of_Z_of_byte (b : byte) : byte_of_Z (Z_of_byte b) = b.
Proof.
  unfold byte_of_Z. pose proof (Z_of_byte_range b) as Hb.
  rewrite Z.mod_small by lia. unfold Z_of_byte.
  rewrite N2Z.id, Byte.of_to_N. reflexivity.
Qed.

Lemma byte_of_Z_mod (z : Z) : byte_of_Z (z mod 256) = byte_of_Z z.
Proof.
  unfold byte_of_Z. rewrite Z.mod_mod by lia. reflexivity.
Qed.

Lemma len_app {A} (l1 l2 : list A) : len (l1 ++ l2) = len l1 + len l2.
Proof. unfold len. rewrite length_app. lia. Qed.

Lemma len_nonneg {A} (l : list A) : 0 <= len l.
Proof. unfold len. lia. Qed.

Lemma len_cons {A} (a : A) (l : list A) : len (a :: l) = 1 + len l.
Proof. unfold len. simpl List.length. lia. Qed.

Lemma len_rev {A} (l : list A) : len (rev l) = len l.
Proof. unfold len. now rewrite length_rev. Qed.

Lemma length_le_bytes (n : nat) (v : Z) : List.length (le_bytes n v) = n.
Proof.
  revert v. induction n as [|n IH]; intros v; simpl; [reflexivity|].
  now rewrite IH.
Qed.

Lemma le_value_le_bytes (n : nat) (v : Z) :
  le_value (le_bytes n v) = v mod 256 ^ Z.of_nat n.
Proof.
  revert v. induction n as [|n IH]; intros v.
  - simpl. now rewrite Z.mod_1_r.
  - cbn [le_bytes le_value]. rewrite IH, Z_of_byte_of_Z.
    rewrite Nat2Z.inj_succ, Z.pow_succ_r by lia.
    rewrite Z.rem_mul_r; [reflexivity | lia |].
    apply Z.pow_pos_nonneg; lia.
Qed.

Lemma le_bytes_le_value (l : bytes) : le_bytes (List.length l) (le_value l) = l.
Proof.
  induction l as [|b r IH]; [reflexivity|].
  cbn [List.length le_bytes le_value].
  pose proof (Z_of_byte_range b) as Hb.
  f_equal.
  - rewrite <- byte_of_Z_mod.
    replace ((Z_of_byte b + 256 * le_value r) mod 256) with (Z_of_byte b).
    + apply byte_of_Z_of_byte.
    + rewrite (Z.mul_comm 256), Z.mod_add by lia.
      now rewrite Z.mod_small by lia.
  - replace ((Z_of_byte b + 256 * le_value r) / 256) with (le_value r); [exact IH|].
    rewrite (Z.mul_comm 256), Z.div_add by lia.
    rewrite (Z.div_small (Z_of_byte b)) by lia. lia.
Qed.

Lemma in_host_order_involutive (host : byteorder) (l : bytes) :
  in_host_order host (in_host_order host l) = l.
Proof. destruct host; simpl; [reflexivity | apply rev_involutive]. Qed.

Lemma len_in_host_order (host : byteorder) (l : bytes) :
  len (in_host_order host l) = len l.
Proof. destruct host; simpl; [reflexivity | apply len_rev]. Qed.

Lemma calcsize_pos (fmt : int_fmt) : 0 < calcsize fmt.
Proof. destruct fmt; simpl; lia. Qed.

Lemma in_range_iff (fmt : int_fmt) (val : Z) :
  in_range fmt val = true <-> fmt_min fmt <= val <= fmt_max fmt.
Proof. unfold in_range. rewrite andb_true_iff, !Z.leb_le. tauto. Qed.

Lemma len_struct_pack (host : byteorder) (fmt : int_fmt) (val : Z) (b : bytes) :
  struct_pack host fmt val = Ok b -> len b = calcsize fmt.
Proof.
  unfold struct_pack. destruct (in_range fmt val); [|discriminate].
  intros [= <-]. rewrite len_in_host_order. unfold len.
  rewrite length_le_bytes. pose proof (calcsize_pos fmt). lia.
Qed.

Lemma struct_unpack_pack (host : byteorder) (fmt : int_fmt) (val : Z) (b : bytes) :
  struct_pack host fmt val = Ok b -> struct_unpack host fmt b = Ok val.
Proof.
  intros Hp. pose proof (len_struct_pack _ _ _ _ Hp) as Hl.
  unfold struct_unpack. rewrite Hl, Z.eqb_refl.
  unfold struct_pack in Hp. destruct (in_range fmt val) eqn:Hr; [|discriminate].
  injection Hp as <-. rewrite in_host_order_involutive, le_value_le_bytes.
  apply in_range_iff in Hr. f_equal.
  rewrite Z2Nat.id by (pose proof (calcsize_pos fmt); lia).
  destruct fmt; cbv [fmt_signed fmt_bits calcsize fmt_min fmt_max andb] in *;
    change (256 ^ 1) with 256; change (256 ^ 2) with 65536;
    change (256 ^ 4) with 4294967296; change (256 ^ 8) with 18446744073709551616;
    simpl Z.mul; simpl Z.sub;
    change (2 ^ 8) with 256 in *; change (2 ^ 16) with 65536 in *;
    change (2 ^ 15) with 32768 in *;
    change (2 ^ 32) with 4294967296 in *;
    change (2 ^ 64) with 18446744073709551616 in *;
    rewrite ?Z.mod_mod by lia.
  1,2,4,5: rewrite Z.mod_small by lia; reflexivity.
  destruct (Z.leb_spec 32768 (val mod 65536)) as [H|H].
  - destruct (Z.le_gt_cases 0 val) as [Hn|Hn].
    + rewrite Z.mod_small in H by lia. lia.
    + replace val with ((val + 65536) + (-1) * 65536) at 1 by lia.
      rewrite Z.mod_add by lia. rewrite Z.mod_small by lia. lia.
  - destruct (Z.le_gt_cases 0 val) as [Hn|Hn].
    + rewrite Z.mod_small by lia. reflexivity.
    + replace val with ((val + 65536) + (-1) * 65536) in H at 1 by lia.
      rewrite Z.mod_add in H by lia. rewrite Z.mod_small in H by lia. lia.
Qed.

(** ** Alignment, slices and the attribute header *)

Lemma align_spec (n : Z) : 0 <= n < 2 ^ 64 - 3 -> align n = 4 * ((n + 3) / 4).
Proof.
  intros Hn. unfold align.
  change (Z.shiftl 1 64 - 1 - 3) with (Z.shiftl (Z.ones 62) 2).
  replace (4 * ((n + 3) / 4)) with (Z.shiftl (Z.shiftr (n + 3) 2) 2).
  2:{ rewrite Z.shiftl_mul_pow2, Z.shiftr_div_pow2 by lia. change (2 ^ 2) with 4. lia. }
  apply Z.bits_inj'. intros i Hi.
  rewrite Z.land_spec.
  destruct (Z.lt_ge_cases i 2) as [Hlt|Hge].
  - rewrite !Z.shiftl_spec_low by lia. apply andb_false_r.
  - rewrite !Z.shiftl_spec by lia. rewrite Z.shiftr_spec by lia.
    replace (i - 2 + 2) with i by lia.
    rewrite Z.testbit_ones by lia.
    destruct (Z.lt_ge_cases i 64) as [H64|H64].
    + replace ((0 <=? i - 2) && (i - 2 <? 62)) with true; [apply andb_true_r|].
      symmetry. apply andb_true_iff. split; [apply Z.leb_le|apply Z.ltb_lt]; lia.
    + replace (Z.testbit (n + 3) i) with false; [reflexivity|].
      symmetry. rewrite <- (Z.mod_small (n + 3) (2 ^ 64)) by lia.
      apply Z.mod_pow2_bits_high. lia.
Qed.

Lemma align_nonneg (n : Z) : 0 <= align n.
Proof.
  unfold align. apply Z.land_nonneg. right. cbv. discriminate.
Qed.

Lemma align_bounds (n : Z) :
  0 <= n < 2 ^ 64 - 3 -> n <= align n < n + 4 /\ align n mod 4 = 0.
Proof.
  intros Hn. rewrite align_spec by exact Hn.
  pose proof (Z.div_mod (n + 3) 4 ltac:(lia)) as Hd.
  pose proof (Z.mod_pos_bound (n + 3) 4 ltac:(lia)) as Hm.
  split; [lia|].
  rewrite Z.mul_comm. apply Z.mod_mul. lia.
Qed.

Lemma slice_app_shift {A} (pre data : list A) (a b : Z) :
  0 <= a -> slice (pre ++ data) (len pre + a) (len pre + b) = slice data a b.
Proof.
  intros Ha. unfold slice, len.
  replace (Z.of_nat (List.length pre) + b - (Z.of_nat (List.length pre) + a)) with (b - a) by lia.
  f_equal. rewrite skipn_app.
  rewrite skipn_all2 by lia. simpl. f_equal. lia.
Qed.

Lemma slice_all_app {A} (x rest : list A) : slice (x ++ rest) 0 (len x) = x.
Proof.
  unfold slice, len. simpl. rewrite Z.sub_0_r, Nat2Z.id.
  rewrite firstn_app, firstn_all, Nat.sub_diag. simpl. apply app_nil_r.
Qed.

Lemma le_value_bound (l : bytes) : 0 <= le_value l < 256 ^ len l.
Proof.
  induction l as [|b r IH].
  - simpl. lia.
  - rewrite len_cons. cbn [le_value]. pose proof (Z_of_byte_range b).
    pose proof (len_nonneg r).
    rewrite Z.pow_add_r by lia. change (256 ^ 1) with 256. lia.
Qed.

Lemma struct_unpack_H_range (host : byteorder) (data : bytes) (z : Z) :
  struct_unpack host fmt_H data = Ok z -> 0 <= z < 65536.
Proof.
  unfold struct_unpack. cbn [calcsize fmt_signed andb].
  destruct (Z.eqb_spec (len data) 2) as [Hl|]; [|discriminate].
  intros [= <-]. pose proof (le_value_bound (in_host_order host data)) as Hb.
  rewrite len_in_host_order, Hl in Hb. exact Hb.
Qed.

Lemma struct_unpack_HH_range (host : byteorder) (data : bytes) (a b : Z) :
  struct_unpack_HH host data = Ok (a, b) -> 0 <= a < 65536 /\ 0 <= b < 65536.
Proof.
  unfold struct_unpack_HH. destruct (len data =? attrib_hdr_len); [|discriminate].
  destruct (struct_unpack host fmt_H (slice data 0 2)) as [x|] eqn:Hx; [|discriminate].
  destruct (struct_unpack host fmt_H (slice data 2 4)) as [y|] eqn:Hy; [|discriminate].
  cbn [bind]. intros [= <- <-].
  split; eapply struct_unpack_H_range; eassumption.
Qed.

Lemma struct_pack_HH_inv (host : byteorder) (a b : Z) (hdr : bytes) :
  struct_pack_HH host a b = Ok hdr ->
  len hdr = 4 /\ struct_unpack_HH host hdr = Ok (a, b)
  /\ 0 <= a < 65536 /\ 0 <= b < 65536.
Proof.
  unfold struct_pack_HH.
  destruct (struct_pack host fmt_H a) as [x|] eqn:Hx; [|discriminate].
  destruct (struct_pack host fmt_H b) as [y|] eqn:Hy; [|discriminate].
  cbn [bind]. intros [= <-].
  pose proof (len_struct_pack _ _ _ _ Hx) as Lx.
  pose proof (len_struct_pack _ _ _ _ Hy) as Ly.
  cbn [calcsize] in Lx, Ly.
  assert (Hs1 : slice (x ++ y) 0 2 = x).
  { rewrite <- Lx. apply slice_all_app. }
  assert (Hs2 : slice (x ++ y) 2 4 = y).
  { replace 2 with (len x + 0) at 1 by lia. replace 4 with (len x + 2) by lia.
    rewrite slice_app_shift by lia. rewrite <- Ly, <- (app_nil_r y) at 1.
    apply slice_all_app. }
  split; [rewrite len_app; lia|]. split.
  - unfold struct_unpack_HH. rewrite len_app, Lx, Ly. cbn [Z.add Z.eqb attrib_hdr_len].
    simpl (2 + 2 =? 4). cbv iota. rewrite Hs1, Hs2.
    rewrite (struct_unpack_pack _ _ _ _ Hx), (struct_unpack_pack _ _ _ _ Hy). reflexivity.
  - unfold struct_pack in Hx, Hy.
    destruct (in_range fmt_H a) eqn:Ra; [|discriminate].
    destruct (in_range fmt_H b) eqn:Rb; [|discriminate].
    apply in_range_iff in Ra, Rb.
    cbv [fmt_min fmt_max fmt_signed fmt_bits calcsize] in Ra, Rb.
    change (2 ^ (8 * 2)) with 65536 in Ra, Rb. lia.
Qed.

(** ** The attribute splitter *)

Section Splitter.
Variable host : byteorder.

Lemma parse_loop_shift (fuel : nat) (pre data : bytes) (i : Z) (acc : list GNLAttribute) :
  0 <= i ->
  parse_loop host fuel (pre ++ data) (len pre + i) acc = parse_loop host fuel data i acc.
Proof.
  revert i acc. induction fuel as [|fuel IH]; intros i acc Hi; [reflexivity|].
  cbn [parse_loop]. rewrite len_app.
  replace (len pre + i <? len pre + len data) with (i <? len data).
  2:{ destruct (Z.ltb_spec i (len data)), (Z.ltb_spec (len pre + i) (len pre + len data));
      try reflexivity; lia. }
  destruct (i <? len data); [|reflexivity].
  pose proof (align_nonneg attrib_hdr_len) as Hh.
  assert (E : forall a b, 0 <= a ->
            slice (pre ++ data) (len pre + i + a) (len pre + i + b)
            = slice data (i + a) (i + b)).
  { intros a b Ha. rewrite <- !Z.add_assoc. apply slice_app_shift. lia. }
  rewrite <- (Z.add_0_r (len pre + i)) at 1. rewrite !E by lia. rewrite Z.add_0_r.
  destruct (struct_unpack_HH host (slice data i (i + attrib_hdr_len))) as [[nla_len nla_type]|e];
    [|reflexivity].
  cbn [bind]. destruct (nla_len =? 0); [reflexivity|].
  rewrite E by lia.
  rewrite <- Z.add_assoc. apply IH. pose proof (align_nonneg nla_len). lia.
Qed.

Lemma parse_loop_acc (fuel : nat) (data : bytes) (i : Z) (acc : list GNLAttribute) :
  parse_loop host fuel data i acc
  = do r <- parse_loop host fuel data i []; Ok (acc ++ r).
Proof.
  revert i acc. induction fuel as [|fuel IH]; intros i acc; [reflexivity|].
  cbn [parse_loop]. destruct (i <? len data).
  2:{ cbn [bind]. now rewrite app_nil_r. }
  destruct (struct_unpack_HH host (slice data i (i + attrib_hdr_len))) as [[nla_len nla_type]|e];
    [|reflexivity].
  cbn [bind]. destruct (nla_len =? 0); [reflexivity|].
  rewrite IH. rewrite (IH _ ([] ++ _)).
  destruct (parse_loop host fuel data (i + align nla_len) []); cbn [bind]; [|reflexivity].
  now rewrite <- app_assoc.
Qed.

Lemma parse_loop_fuel (fuel fuel' : nat) (data : bytes) (i : Z) (acc : list GNLAttribute) :
  Z.max 0 (len data - i) < Z.of_nat fuel -> Z.max 0 (len data - i) < Z.of_nat fuel' ->
  parse_loop host fuel data i acc = parse_loop host fuel' data i acc.
Proof.
  revert fuel' i acc. induction fuel as [|fuel IH]; intros fuel' i acc H1 H2; [lia|].
  destruct fuel' as [|fuel']; [lia|].
  cbn [parse_loop]. destruct (Z.ltb_spec i (len data)) as [Hlt|]; [|reflexivity].
  destruct (struct_unpack_HH host (slice data i (i + attrib_hdr_len)))
    as [[nla_len nla_type]|e] eqn:Hu; [|reflexivity].
  cbn [bind]. destruct (Z.eqb_spec nla_len 0) as [|Hnz]; [reflexivity|].
  apply struct_unpack_HH_range in Hu. destruct Hu as [Hr _].
  pose proof (align_bounds nla_len) as Hb.
  apply IH; lia.
Qed.

(** The splitter never runs out of its budget. *)
Lemma parse_generic_attributes_unfold (data : bytes) :
  parse_generic_attributes host data =
  match data with
  | [] => Ok []
  | _ :: _ =>
      do (nla_len, nla_type) <- struct_unpack_HH host (slice data 0 attrib_hdr_len);
      if nla_len =? 0 then Err AssertionError
      else
        do rest <- parse_generic_attributes host (skipn (Z.to_nat (align nla_len)) data);
        Ok (mkGNLAttribute nla_len nla_type (slice data attrib_hdr_len nla_len) :: rest)
  end.
Proof.
  destruct data as [|b0 data0]; [reflexivity|].
  set (data := b0 :: data0).
  unfold parse_generic_attributes at 1. cbn [parse_loop].
  assert (Hpos : 0 < len data) by (unfold data; rewrite len_cons; pose proof (len_nonneg data0); lia).
  destruct (Z.ltb_spec 0 (len data)) as [_|]; [|lia].
  rewrite !Z.add_0_l.
  destruct (struct_unpack_HH host (slice data 0 attrib_hdr_len))
    as [[nla_len nla_type]|e] eqn:Hu; [|reflexivity].
  cbn [bind]. destruct (Z.eqb_spec nla_len 0) as [|Hnz]; [reflexivity|].
  apply struct_unpack_HH_range in Hu. destruct Hu as [Hr _].
  pose proof (align_bounds nla_len ltac:(lia)) as [Hb _].
  rewrite parse_loop_acc. cbn [app]. rewrite !Z.add_0_l.
  change (align attrib_hdr_len) with attrib_hdr_len.
  set (n := Z.to_nat (align nla_len)).
  replace (parse_loop host (List.length data) data (align nla_len) [])
    with (parse_generic_attributes host (skipn n data)); [reflexivity|].
  unfold parse_generic_attributes.
  destruct (Z.le_gt_cases (align nla_len) (len data)) as [Hle|Hgt].
  - rewrite <- (firstn_skipn n data) at 4.
    replace (align nla_len) with (len (firstn n data) + 0).
    2:{ unfold len. rewrite length_firstn. unfold len in Hle. lia. }
    rewrite parse_loop_shift by lia.
    apply parse_loop_fuel; rewrite Z.sub_0_r; unfold len in *; 
      rewrite ?length_skipn; lia.
  - rewrite skipn_all2 by (unfold len in Hgt; lia).
    cbn [List.length parse_loop len Z.of_nat Z.ltb Z.compare].
    destruct (List.length data) eqn:El; [unfold len in Hpos; lia|].
    cbn [parse_loop]. destruct (Z.ltb_spec (align nla_len) (len data)); [lia|reflexivity].
Qed.
End Splitter.

Lemma nth_le_bytes (n : nat) (v : Z) (i : nat) :
  (i < n)%nat -> nth i (le_bytes n v) x00 = byte_of_Z (v / 256 ^ Z.of_nat i).
Proof.
  revert v i. induction n as [|n IH]; intros v i Hi; [lia|].
  destruct i as [|i]; cbn [le_bytes nth].
  - now rewrite Z.pow_0_r, Z.div_1_r.
  - rewrite IH by lia. f_equal.
    rewrite Nat2Z.inj_succ, Z.pow_succ_r by lia.
    rewrite Z.div_div by (try apply Z.pow_pos_nonneg; lia). reflexivity.
Qed.

(** ** Integer attributes *)

(** C9: an integer outside the range of the format is refused by [build]
    with [struct.error]; an integer inside it is packed on [calcsize fmt]
    bytes, the byte of weight [256 ^ i] at the place the host's byte
    order gives it, and [parse] of those bytes returns the integer. *)
Theorem int_codec_range_and_roundtrip (host : byteorder) (ids : dict Z)
        (fmt : int_fmt) (val : Z) :
  (~ (fmt_min fmt <= val <= fmt_max fmt) ->
   build host ids (NlAttrSchemaInt fmt) (VInt val) = Err StructError)
  /\ (fmt_min fmt <= val <= fmt_max fmt ->
      exists b,
        build host ids (NlAttrSchemaInt fmt) (VInt val) = Ok b
        /\ len b = calcsize fmt
        /\ (forall i, 0 <= i < calcsize fmt ->
            nth (Z.to_nat (byte_index host fmt i)) b x00
            = byte_of_Z ((val mod 2 ^ fmt_bits fmt) / 256 ^ i))
        /\ parse host ids (NlAttrSchemaInt fmt) b = ([], Ok (VInt val))).
Proof.
  cbn [build parse]. unfold NlAttrSchemaInt_build, NlAttrSchemaInt_parse, lift.
  split; intros Hr.
  - unfold struct_pack. destruct (in_range fmt val) eqn:E; [|reflexivity].
    apply in_range_iff in E. contradiction.
  - apply in_range_iff in Hr.
    destruct (struct_pack host fmt val) as [b|e] eqn:Hp.
    2:{ unfold struct_pack in Hp. rewrite Hr in Hp. discriminate. }
    exists b. split; [reflexivity|].
    split; [eapply len_struct_pack; eassumption|].
    split.
    + intros i Hi. unfold struct_pack in Hp. rewrite Hr in Hp.
      injection Hp as <-. pose proof (calcsize_pos fmt) as Hc.
      destruct host; cbn [in_host_order byte_index].
      * rewrite nth_le_bytes by lia. now rewrite Z2Nat.id by lia.
      * rewrite rev_nth by (rewrite length_le_bytes; lia).
        rewrite length_le_bytes, nth_le_bytes by lia.
        f_equal. f_equal. f_equal. lia.
    + rewrite (struct_unpack_pack _ _ _ _ Hp). reflexivity.
Qed.

Lemma int_codec_range_and_roundtrip_witness :
  build little [] (NlAttrSchemaInt fmt_B) (VInt 256) = Err StructError
  /\ exists b,
      build big [] (NlAttrSchemaInt fmt_h) (VInt (-2)) = Ok b
      /\ len b = calcsize fmt_h
      /\ (forall i, 0 <= i < calcsize fmt_h ->
          nth (Z.to_nat (byte_index big fmt_h i)) b x00
          = byte_of_Z (((-2) mod 2 ^ fmt_bits fmt_h) / 256 ^ i))
      /\ parse big [] (NlAttrSchemaInt fmt_h) b = ([], Ok (VInt (-2))).
Proof.
  split.
  - apply (proj1 (int_codec_range_and_roundtrip little [] fmt_B 256)).
    vm_compute. intros [_ H]. apply H. reflexivity.
  - apply (proj2 (int_codec_range_and_roundtrip big [] fmt_h (-2))).
    vm_compute. split; discriminate.
Defined.

(** ** String attributes *)

Lemma utf8_decode_nil (data : bytes) : utf8_decode data = Some [] -> data = [].
Proof.
  destruct data as [|b0 rest]; [reflexivity|].
  cbn [utf8_decode].
  repeat match goal with
         | |- context [if ?c then _ else _] => destruct c
         | |- context [match ?l with [] => _ | _ :: _ => _ end] => destruct l
         | |- context [option_map _ ?o] => destruct o; cbn [option_map]
         end; discriminate.
Qed.

Lemma rev_cons_inv {A} (s r : list A) (c : A) : rev s = c :: r -> s = rev r ++ [c].
Proof.
  intros H. rewrite <- (rev_involutive s), H. reflexivity.
Qed.

(** C10: the string codec raises on an empty payload ([s[-1]] on the empty
    string); it returns a value only for a payload that is not empty and
    decodes, and the value is then the decoded text without its last
    character when that is NUL, and the whole decoded text otherwise. *)
Theorem str_parse_empty_payload_raises (host : byteorder) (ids : dict Z) :
  parse host ids NlAttrSchemaStr [] = ([], Err IndexError)
  /\ (forall data v,
        parse host ids NlAttrSchemaStr data = ([], Ok v) ->
        data <> []
        /\ exists t c, decode data = Ok (t ++ [c])
                       /\ v = VStr (if c =? 0 then t else t ++ [c]))
  /\ (forall data t,
        data <> [] -> decode data = Ok t ->
        exists t' c, t = t' ++ [c]
                     /\ parse host ids NlAttrSchemaStr data
                        = ([], Ok (VStr (if c =? 0 then t' else t)))).
Proof.
  cbn [parse]. unfold NlAttrSchemaStr_parse, lift.
  split; [reflexivity|]. split.
  - intros data v H. injection H as H.
    destruct (decode data) as [s|e] eqn:Hd; cbn [bind] in H; [|discriminate].
    destruct (rev s) as [|c r] eqn:Hr; [discriminate|].
    apply rev_cons_inv in Hr. subst s. split.
    + intros ->. cbv [decode utf8_decode] in Hd. injection Hd as Hd.
      destruct (rev r); discriminate.
    + exists (rev r), c. split; [reflexivity|].
      rewrite removelast_last in H. destruct (c =? 0); congruence.
  - intros data t Hne Hd. rewrite Hd. cbn [bind].
    destruct (rev t) as [|c r] eqn:Hr.
    + exfalso. apply Hne. apply utf8_decode_nil.
      unfold decode in Hd. destruct (utf8_decode data); [|discriminate].
      injection Hd as ->. destruct t as [|x t]; [reflexivity|].
      simpl in Hr. destruct (rev t); discriminate.
    + apply rev_cons_inv in Hr. exists (rev r), c. split; [exact Hr|].
      subst t. rewrite removelast_last. destruct (c =? 0); reflexivity.
Qed.

Lemma str_parse_empty_payload_raises_witness :
  [x68; x69; x00] <> []
  /\ exists t c, decode [x68; x69; x00] = Ok (t ++ [c])
                 /\ VStr [104; 105] = VStr (if c =? 0 then t else t ++ [c]).
Proof.
  apply (proj1 (proj2 (str_parse_empty_payload_raises little [])) [x68; x69; x00]).
  reflexivity.
Defined.

(** ** The two input forms of [NlAttrSchema.build] *)

(** C8, with "given" read as the guard tests it, as truthy ([None] and
    an empty mapping count as missing): [build] of an attribute set raises
    the "exactly one" [ValueError] whenever the positional mapping and the
    keyword values are both given or both missing, and it returns bytes
    only when exactly one of them is given. *)
Theorem build_exactly_one_form (host : byteorder) (ids : dict Z)
        (subattr_schemata : dict schema) (required_attrs : list string)
        (name_mapping : dict string) (_attr_values : value) (kwargs : dict value) :
  let S := NlAttrSchema subattr_schemata required_attrs name_mapping in
  (truthy _attr_values = true -> truthy (VDict kwargs) = true ->
   build_kwargs host ids S _attr_values kwargs = Err (ValueError ExactlyOne))
  /\ (truthy _attr_values = false -> truthy (VDict kwargs) = false ->
      build_kwargs host ids S _attr_values kwargs = Err (ValueError ExactlyOne))
  /\ (forall b, build_kwargs host ids S _attr_values kwargs = Ok b ->
                truthy _attr_values <> truthy (VDict kwargs)).
Proof.
  cbn [build_kwargs]. unfold NlAttrSchema_build.
  repeat split.
  - intros -> ->. reflexivity.
  - intros -> ->. reflexivity.
  - intros b H E. rewrite E in H. rewrite Bool.eqb_reflx in H. discriminate.
Qed.

Lemma build_exactly_one_form_witness :
  build_kwargs little [("ATTR_X", 1)]
    (NlAttrSchema [("ATTR_X", NlAttrSchemaInt fmt_B)] [] [("x", "ATTR_X")])
    (VDict [("ATTR_X", VInt 1)]) [("x", VInt 1)]
  = Err (ValueError ExactlyOne)
  /\ build_kwargs little [("ATTR_X", 1)]
       (NlAttrSchema [("ATTR_X", NlAttrSchemaInt fmt_B)] [] [("x", "ATTR_X")])
       (VDict []) []
     = Err (ValueError ExactlyOne)
  /\ truthy VNone <> truthy (VDict [("x", VInt 1)]).
Proof.
  split; [|split].
  - apply (proj1 (build_exactly_one_form little [("ATTR_X", 1)]
                    [("ATTR_X", NlAttrSchemaInt fmt_B)] [] [("x", "ATTR_X")]
                    (VDict [("ATTR_X", VInt 1)]) [("x", VInt 1)])); reflexivity.
  - apply (proj1 (proj2 (build_exactly_one_form little [("ATTR_X", 1)]
                    [("ATTR_X", NlAttrSchemaInt fmt_B)] [] [("x", "ATTR_X")]
                    (VDict []) []))); reflexivity.
  - apply (proj2 (proj2 (build_exactly_one_form little [("ATTR_X", 1)]
                    [("ATTR_X", NlAttrSchemaInt fmt_B)] [] [("x", "ATTR_X")]
                    VNone [("x", VInt 1)])) [x05; x00; x01; x00; x01; x00; x00; x00]).
    reflexivity.
Defined.

(** C8 as stated fails: with an empty positional mapping and a keyword
    value both forms are supplied, and [build] does not raise but builds
    from the keyword; and an empty positional mapping alone is refused
    though one form was supplied. *)
Lemma build_takes_an_empty_mapping_as_missing :
  build_kwargs little [("ATTR_X", 1)]
    (NlAttrSchema [("ATTR_X", NlAttrSchemaInt fmt_B)] [] [("x", "ATTR_X")])
    (VDict []) [("x", VInt 1)]
  = Ok [x05; x00; x01; x00; x01; x00; x00; x00]
  /\ build_kwargs little [("ATTR_X", 1)]
       (NlAttrSchema [("ATTR_X", NlAttrSchemaInt fmt_B)] [] [("x", "ATTR_X")])
       (VDict []) []
     = Err (ValueError ExactlyOne).
Proof.
  split; reflexivity.
Qed.

(** ** The schema compiler *)

(** C3: a field of type "flag" does not compile, whatever else it says: no
    class is registered under that name, and [schema_classes["flag"]]
    raises [KeyError].  So does the description of the test [test_flag],
    which has this one field. *)
Theorem flag_field_does_not_compile :
  (forall name python_name subelem_type required,
      from_spec (PDict name python_name (Some (PStr "flag")) subelem_type required)
      = Err (KeyError "flag"))
  /\ from_spec (PList [PDict (Some "ATTR_FOO") (Some "foo") (Some (PStr "flag")) None false])
     = Err (KeyError "flag").
Proof. split; reflexivity. Qed.

(** C5: for the two children FOO and BAR, which share no prefix, the
    derived Python names are "oo" and "ar", not "foo" and "bar": the
    underscore appended to the empty common prefix makes the slice start
    one character late.  Likewise ATTR_FOO and ATTR_FAB, whose common
    prefix ATTR_F does not end in an underscore, get "o" and "b".  The
    names of the docstring, MY_ATTR_FOO and MY_ATTR_BAR, get "foo" and
    "bar". *)
Theorem short_names_without_common_prefix :
  from_spec (PList [field "FOO" "u8"; field "BAR" "u8"])
  = Ok (NlAttrSchema [("FOO", NlAttrSchemaInt fmt_B); ("BAR", NlAttrSchemaInt fmt_B)]
                     [] [("oo", "FOO"); ("ar", "BAR")])
  /\ from_spec (PList [field "ATTR_FOO" "u8"; field "ATTR_FAB" "u8"])
     = Ok (NlAttrSchema [("ATTR_FOO", NlAttrSchemaInt fmt_B);
                         ("ATTR_FAB", NlAttrSchemaInt fmt_B)]
                        [] [("o", "ATTR_FOO"); ("b", "ATTR_FAB")])
  /\ from_spec (PList [field "MY_ATTR_FOO" "u8"; field "MY_ATTR_BAR" "u8"])
     = Ok (NlAttrSchema [("MY_ATTR_FOO", NlAttrSchemaInt fmt_B);
                         ("MY_ATTR_BAR", NlAttrSchemaInt fmt_B)]
                        [] [("foo", "MY_ATTR_FOO"); ("bar", "MY_ATTR_BAR")]).
Proof.
  split; [|split].
  - reflexivity.
  - reflexivity.
  - reflexivity.
Qed.

(** ** What the splitter accepts *)

(** C4, as the code has it: the splitter returns no attribute on the empty
    buffer; it raises [struct.error] when fewer than four bytes are left
    for a header and [AssertionError] when a header's length field is zero;
    for any other length field, also one below four and one whose aligned
    advance passes the end of the buffer, it yields the attribute (length,
    type, the slice from 4 to the length, clamped to the buffer) followed
    by what it yields on the rest of the buffer after the aligned
    length. *)
Theorem splitter_behaviour (host : byteorder) (data : bytes) :
  (data = [] -> parse_generic_attributes host data = Ok [])
  /\ (data <> [] -> len data < attrib_hdr_len ->
      parse_generic_attributes host data = Err StructError)
  /\ (forall nla_len nla_type,
        data <> [] ->
        struct_unpack_HH host (slice data 0 attrib_hdr_len) = Ok (nla_len, nla_type) ->
        (nla_len = 0 -> parse_generic_attributes host data = Err AssertionError)
        /\ (nla_len <> 0 ->
            parse_generic_attributes host data
            = do rest <- parse_generic_attributes host
                           (skipn (Z.to_nat (align nla_len)) data);
              Ok (mkGNLAttribute nla_len nla_type (slice data attrib_hdr_len nla_len)
                    :: rest))).
Proof.
  split; [intros ->; reflexivity|]. split.
  - intros Hne Hlen. rewrite parse_generic_attributes_unfold.
    destruct data as [|b0 data0]; [contradiction|].
    unfold struct_unpack_HH.
    replace (len (slice (b0 :: data0) 0 attrib_hdr_len) =? attrib_hdr_len) with false;
      [reflexivity|].
    symmetry. apply Z.eqb_neq. unfold slice, len in *.
    rewrite length_firstn. cbn [skipn Z.to_nat]. lia.
  - intros nla_len nla_type Hne Hu. rewrite parse_generic_attributes_unfold.
    destruct data as [|b0 data0]; [contradiction|].
    rewrite Hu. cbn [bind]. split.
    + intros ->. reflexivity.
    + intros Hnz. destruct (Z.eqb_spec nla_len 0); [contradiction|reflexivity].
Qed.

Lemma splitter_behaviour_witness :
  parse_generic_attributes big [x00; x05; x00; x01; xaa; x00; x00; x00; x00; x04; x00; x02]
  = do rest <- parse_generic_attributes big
                 (skipn (Z.to_nat (align 5))
                        [x00; x05; x00; x01; xaa; x00; x00; x00; x00; x04; x00; x02]);
    Ok (mkGNLAttribute 5 1
          (slice [x00; x05; x00; x01; xaa; x00; x00; x00; x00; x04; x00; x02]
                 attrib_hdr_len 5) :: rest).
Proof.
  apply (proj2 (proj2 (splitter_behaviour big
           [x00; x05; x00; x01; xaa; x00; x00; x00; x00; x04; x00; x02])) 5 1).
  - discriminate.
  - reflexivity.
  - discriminate.
Defined.

(** C4 as stated fails: a header whose length field is 1, below the header
    size, is accepted with an empty payload, and so is a last attribute of
    length 5 in a buffer of 5 bytes, whose aligned advance of 8 passes the
    end of the buffer. *)
Lemma splitter_accepts_short_length_and_overshoot :
  (struct_unpack_HH little (slice [x01; x00; x05; x00] 0 attrib_hdr_len) = Ok (1, 5)
   /\ 1 < attrib_hdr_len
   /\ parse_generic_attributes little [x01; x00; x05; x00]
      = Ok [mkGNLAttribute 1 5 []])
  /\ (struct_unpack_HH little (slice [x05; x00; x01; x00; xaa] 0 attrib_hdr_len) = Ok (5, 1)
      /\ len [x05; x00; x01; x00; xaa] < 0 + align 5
      /\ parse_generic_attributes little [x05; x00; x01; x00; xaa]
         = Ok [mkGNLAttribute 5 1 [xaa]]).
Proof.
  repeat split.
Qed.

(** ** Unknown attributes *)

Lemma snd_mbind {A B} (m : M A) (f : A -> M B) :
  snd (mbind m f) = match snd m with
                    | Ok a => snd (f a)
                    | Err e => Err e
                    end.
Proof.
  destruct m as [w [a|e]]; cbn [mbind snd]; [|reflexivity].
  destruct (f a); reflexivity.
Qed.

Section Unknown.
Variable host : byteorder.
Variable ids : dict Z.

Lemma set_parse_loop_skips (sp : dict (string * parser)) (keep : GNLAttribute -> bool)
      (attrs : list GNLAttribute) :
  (forall a, In a attrs -> keep a = false -> find_attr ids sp (atype a) = Ok None) ->
  forall acc,
    snd (set_parse_loop ids sp attrs acc) = snd (set_parse_loop ids sp (filter keep attrs) acc).
Proof.
  induction attrs as [|a rest IH]; intros Hu acc; [reflexivity|].
  cbn [filter]. assert (Hrest : forall a, In a rest -> keep a = false -> find_attr ids sp (atype a) = Ok None).
  { intros a' Hin. apply Hu. now right. }
  destruct (keep a) eqn:Hk.
  - cbn [set_parse_loop]. rewrite !snd_mbind.
    destruct (snd (lift (find_attr ids sp (atype a)))) as [[[attr_name [cls attr_type]]|]|e];
      [| |reflexivity].
    + rewrite !snd_mbind. destruct (snd (annotate attr_name cls (attr_type (adata a))));
        [|reflexivity]. apply IH, Hrest.
    + rewrite !snd_mbind. cbn [warn snd]. apply IH, Hrest.
  - cbn [set_parse_loop]. rewrite (Hu a (or_introl eq_refl) Hk).
    rewrite snd_mbind. cbn [lift snd]. rewrite snd_mbind. cbn [warn snd].
    apply IH, Hrest.
Qed.

Lemma set_parse_loop_warns (sp : dict (string * parser)) (attrs : list GNLAttribute) :
  forall acc w d a,
    set_parse_loop ids sp attrs acc = (w, Ok d) ->
    In a attrs -> find_attr ids sp (atype a) = Ok None ->
    In (mkWarning (atype a) (id_candidates ids (atype a))) w.
Proof.
  induction attrs as [|a0 rest IH]; intros acc w d a Hp Hin Hf; [contradiction|].
  cbn [set_parse_loop] in Hp.
  destruct (find_attr ids sp (atype a0)) as [[[attr_name [cls attr_type]]|]|e] eqn:Hf0;
    cbn [lift mbind] in Hp.
  - destruct (annotate attr_name cls (attr_type (adata a0))) as [w1 [v|e]] eqn:Ha;
      cbn [mbind] in Hp.
    + destruct (set_parse_loop ids sp rest (dict_set attr_name v acc)) as [w2 r] eqn:Hl.
      apply pair_equal_spec in Hp. destruct Hp as [<- ->].
      destruct Hin as [<-|Hin]; [congruence|].
      cbn [app]. apply in_or_app. right. eapply IH; eassumption.
    + discriminate.
  - cbn [warn mbind] in Hp.
    destruct (set_parse_loop ids sp rest acc) as [w2 r] eqn:Hl.
    apply pair_equal_spec in Hp. destruct Hp as [<- ->].
    destruct Hin as [<-|Hin]; [left; reflexivity|].
    right. eapply IH; eassumption.
  - discriminate.
Qed.
End Unknown.

Lemma mbind_ret_l {A B} (a : A) (f : A -> M B) : mbind ([], Ok a) f = f a.
Proof. cbn [mbind]. destruct (f a). reflexivity. Qed.

Lemma mbind_assoc {A B C} (m : M A) (f : A -> M B) (g : B -> M C) :
  mbind (mbind m f) g = mbind m (fun x => mbind (f x) g).
Proof.
  destruct m as [w [a|e]]; cbn [mbind]; [|reflexivity].
  destruct (f a) as [w1 [b|e]]; cbn [mbind]; [|reflexivity].
  destruct (g b) as [w2 r]. now rewrite app_assoc.
Qed.

Lemma in_fst_mbind {A B} (m : M A) (f : A -> M B) (x : warning) :
  In x (fst m) -> In x (fst (mbind m f)).
Proof.
  destruct m as [w [a|e]]; cbn [mbind fst]; intros H; [|exact H].
  destruct (f a) as [w' r]. cbn [fst]. apply in_or_app. now left.
Qed.

Lemma set_parse_loop_app (ids : dict Z) (sp : dict (string * parser))
      (pre rest : list GNLAttribute) :
  forall acc,
    set_parse_loop ids sp (pre ++ rest) acc
    = mbind (set_parse_loop ids sp pre acc) (fun acc' => set_parse_loop ids sp rest acc').
Proof.
  induction pre as [|a pre IH]; intros acc.
  - cbn [app set_parse_loop]. unfold ret. now rewrite mbind_ret_l.
  - cbn [app set_parse_loop].
    destruct (find_attr ids sp (atype a)) as [[[name [cls p]]|]|e];
      cbn [lift mbind]; [| |reflexivity].
    + destruct (annotate name cls (p (adata a))) as [w [v|e]]; cbn [mbind];
        [|reflexivity].
      rewrite IH.
      destruct (set_parse_loop ids sp pre (dict_set name v acc)) as [w1 [d1|e1]];
        cbn [mbind]; [|reflexivity].
      destruct (set_parse_loop ids sp rest d1) as [w2 r2].
      now rewrite !app_nil_l, app_assoc.
    + cbn [warn mbind]. rewrite IH.
      destruct (set_parse_loop ids sp pre acc) as [w1 [d1|e1]];
        cbn [mbind]; [|reflexivity].
      destruct (set_parse_loop ids sp rest d1) as [w2 r2].
      now rewrite !app_nil_l, <- !app_comm_cons, app_nil_l.
Qed.

(** An attribute the scope does not know is warned about as soon as the
    loop reaches it. *)
Lemma set_parse_loop_warns_when_reached (ids : dict Z) (sp : dict (string * parser))
      (pre post : list GNLAttribute) (a : GNLAttribute) :
  find_attr ids sp (atype a) = Ok None ->
  In (mkWarning (atype a) (id_candidates ids (atype a)))
     (fst (set_parse_loop ids sp (pre ++ a :: post) []))
  \/ exists e, snd (set_parse_loop ids sp pre []) = Err e.
Proof.
  intros Hf. rewrite set_parse_loop_app.
  destruct (set_parse_loop ids sp pre []) as [w1 [d1|e1]]; cbn [mbind snd];
    [left|right; eauto].
  cbn [set_parse_loop]. rewrite Hf. cbn [lift warn mbind].
  destruct (set_parse_loop ids sp post d1) as [w2 r2]. cbn [fst].
  apply in_or_app. right. now left.
Qed.

(** ** The keyword form of [build] *)

Lemma dict_set_nonempty {V} (k : string) (v : V) (d : dict V) : dict_set k v d <> [].
Proof.
  destruct d as [|[k' v'] rest]; cbn [dict_set]; [discriminate|].
  destruct (String.eqb k k'); discriminate.
Qed.

Lemma translate_kwargs_nonempty (name_mapping : dict string) (kwargs : dict value) :
  forall acc d,
    translate_kwargs name_mapping kwargs acc = Ok d ->
    acc <> [] \/ kwargs <> [] -> d <> [].
Proof.
  induction kwargs as [|[k v] rest IH]; intros acc d H Hne.
  - injection H as <-. destruct Hne as [Hne|Hne]; [exact Hne|contradiction].
  - cbn [translate_kwargs] in H.
    destruct (dict_lookup k name_mapping) as [name|]; [|discriminate].
    cbn [bind] in H. apply (IH _ _ H). left. apply dict_set_nonempty.
Qed.

(** What [build] of an attribute set goes on with: the positional mapping,
    or the mapping the keywords translate to; the call is then the call
    with that mapping alone. *)
Lemma build_kwargs_inv (host : byteorder) (ids : dict Z)
      (subattr_schemata : dict schema) (required_attrs : list string)
      (name_mapping : dict string) (_attr_values : value) (kwargs : dict value)
      (b : bytes) :
  build_kwargs host ids (NlAttrSchema subattr_schemata required_attrs name_mapping)
               _attr_values kwargs = Ok b ->
  exists d,
    ((kwargs = [] /\ _attr_values = VDict d)
     \/ (kwargs <> [] /\ truthy _attr_values = false
         /\ translate_kwargs name_mapping kwargs [] = Ok d))
    /\ build host ids (NlAttrSchema subattr_schemata required_attrs name_mapping)
             (VDict d) = Ok b.
Proof.
  cbn [build_kwargs build]. unfold NlAttrSchema_build.
  destruct kwargs as [|kv kw].
  - cbn [truthy]. destruct (truthy _attr_values) eqn:Ht; cbn [Bool.eqb]; [|discriminate].
    destruct _attr_values as [| | | | |d]; try discriminate.
    destruct d as [|x d]; [discriminate|].
    intros H. exists (x :: d). split; [left; split; reflexivity|].
    exact H.
  - cbn [truthy]. destruct (truthy _attr_values) eqn:Ht; cbn [Bool.eqb]; [discriminate|].
    destruct (some_not_in (dict_keys (kv :: kw)) (dict_keys name_mapping)); [discriminate|].
    destruct (translate_kwargs name_mapping (kv :: kw) []) as [d|] eqn:Htr; [|discriminate].
    cbn [bind]. intros H. exists d.
    split.
    { right. split; [discriminate|]. split; reflexivity. }
    assert (Hd : d <> []).
    { apply (translate_kwargs_nonempty _ _ _ _ Htr). right. discriminate. }
    destruct d as [|x d]; [contradiction|]. cbn [truthy Bool.eqb bind]. exact H.
Qed.

(** ** The layout of what [build] returns *)

Lemma len_zeros (k : Z) : 0 <= k -> len (zeros k) = k.
Proof. intros Hk. unfold len, zeros. rewrite repeat_length. lia. Qed.

Lemma dict_get_map {A B} (f : A -> B) (k : string) (d : dict A) :
  dict_get k (map (fun '(name, a) => (name, f a)) d) = option_map f (dict_get k d).
Proof.
  induction d as [|[k' a] rest IH]; [reflexivity|].
  cbn [map dict_get]. destruct (String.eqb k k'); [reflexivity|exact IH].
Qed.

Section Layout.
Variable host : byteorder.
Variable ids : dict Z.

Lemma tlv_inv (attr_id : Z) (attr_payload piece : bytes) :
  tlv host attr_id attr_payload = Ok piece ->
  exists hdr,
    struct_pack_HH host (attrib_hdr_len + len attr_payload) attr_id = Ok hdr
    /\ piece = hdr ++ attr_payload
               ++ zeros (align (attrib_hdr_len + len attr_payload)
                         - (attrib_hdr_len + len attr_payload))
    /\ len piece = align (attrib_hdr_len + len attr_payload).
Proof.
  unfold tlv.
  destruct (struct_pack_HH host (attrib_hdr_len + len attr_payload) attr_id)
    as [hdr|] eqn:Hh; [|discriminate].
  cbn [bind]. intros [= <-]. exists hdr. split; [reflexivity|].
  destruct (struct_pack_HH_inv _ _ _ _ Hh) as (Lh & _ & Hr & _).
  assert (E : len (hdr ++ attr_payload) = attrib_hdr_len + len attr_payload).
  { rewrite len_app, Lh. reflexivity. }
  unfold pad. rewrite E, <- app_assoc. split; [reflexivity|].
  pose proof (align_bounds (attrib_hdr_len + len attr_payload) ltac:(lia)) as [Hb _].
  rewrite !len_app, len_zeros, Lh by lia. unfold attrib_hdr_len. lia.
Qed.

Lemma tlv_has_layout (attr_id : Z) (attr_payload piece : bytes) :
  tlv host attr_id attr_payload = Ok piece ->
  tlv_layout host attr_id attr_payload piece.
Proof.
  intros Ht. destruct (tlv_inv _ _ _ Ht) as (hdr & Hh & -> & Hl).
  destruct (struct_pack_HH_inv _ _ _ _ Hh) as (Lh & Hu & Hr & _).
  pose proof (align_bounds (attrib_hdr_len + len attr_payload) ltac:(lia)) as [Hb Hm].
  exists hdr, (align (attrib_hdr_len + len attr_payload) - (attrib_hdr_len + len attr_payload)).
  split; [reflexivity|]. split; [exact Hu|]. split; [lia|].
  rewrite Hl. exact Hm.
Qed.

Lemma set_build_loop_pieces (sb : dict builder) (items : dict value) :
  forall payload b,
    set_build_loop host ids sb items payload = Ok b ->
    exists pieces,
      b = payload ++ List.concat pieces
      /\ Forall2 (fun '(name, val) piece =>
                    exists child attr_payload attr_id,
                      dict_get name sb = Some child
                      /\ child val = Ok attr_payload
                      /\ dict_get name ids = Some attr_id
                      /\ tlv host attr_id attr_payload = Ok piece) items pieces.
Proof.
  induction items as [|[name val] rest IH]; intros payload b H.
  - injection H as <-. exists []. split; [now rewrite app_nil_r | constructor].
  - cbn [set_build_loop] in H. unfold dict_lookup in H.
    destruct (dict_get name sb) as [child|] eqn:Hc; [|discriminate].
    cbn [bind] in H.
    destruct (child val) as [attr_payload|] eqn:Hb; [|discriminate].
    cbn [bind] in H.
    destruct (dict_get name ids) as [attr_id|] eqn:Hi; [|discriminate].
    cbn [bind] in H.
    destruct (tlv host attr_id attr_payload) as [t|] eqn:Ht; [|discriminate].
    cbn [bind] in H.
    destruct (IH _ _ H) as (pieces & -> & HF).
    exists (t :: pieces). split; [cbn [List.concat]; now rewrite <- app_assoc|].
    constructor; [|exact HF].
    exists child, attr_payload, attr_id. auto.
Qed.

Lemma NlAttrSchema_build_positional (sb : dict builder) (required_attrs : list string)
      (name_mapping : dict string) (val : value) (b : bytes) :
  NlAttrSchema_build host ids sb required_attrs name_mapping val [] = Ok b ->
  exists d, val = VDict d /\ d <> []
            /\ some_not_in (dict_keys d) (dict_keys sb) = false
            /\ some_not_in required_attrs (dict_keys d) = false
            /\ set_build_loop host ids sb d [] = Ok b.
Proof.
  unfold NlAttrSchema_build. cbn [truthy].
  destruct (truthy val) eqn:Ht; cbn [Bool.eqb]; [|discriminate].
  destruct val as [| | | | |d]; try discriminate.
  cbn [bind]. intros H. exists d.
  split; [reflexivity|]. split; [intros ->; discriminate|].
  destruct (some_not_in (dict_keys d) (dict_keys sb)); [discriminate|].
  destruct (some_not_in required_attrs (dict_keys d)); [discriminate|].
  auto.
Qed.
End Layout.

Lemma Forall_firstn_keeps {A} (P : A -> Prop) (l : list A) (n : nat) :
  Forall P l -> Forall P (firstn n l).
Proof.
  intros H. revert n. induction H; intros [|n]; cbn [firstn]; constructor; auto.
Qed.

Lemma len_concat_mod4 (pieces : list bytes) :
  Forall (fun piece => len piece mod 4 = 0) pieces ->
  len (List.concat pieces) mod 4 = 0.
Proof.
  induction 1 as [|p ps Hp _ IH]; [reflexivity|].
  cbn [List.concat]. rewrite len_app, Z.add_mod, Hp, IH by lia. reflexivity.
Qed.

Lemma build_positional_layout (host : byteorder) (ids : dict Z)
        (subattr_schemata : dict schema) (required_attrs : list string)
        (name_mapping : dict string) (v : value) (b : bytes) :
  build host ids (NlAttrSchema subattr_schemata required_attrs name_mapping) v = Ok b ->
  exists d pieces,
    v = VDict d
    /\ b = List.concat pieces
    /\ Forall2 (fun '(name, val) piece =>
                  exists child attr_payload attr_id,
                    dict_get name subattr_schemata = Some child
                    /\ build host ids child val = Ok attr_payload
                    /\ dict_get name ids = Some attr_id
                    /\ tlv_layout host attr_id attr_payload piece) d pieces
    /\ (forall n, len (List.concat (firstn n pieces)) mod 4 = 0).
Proof.
  cbn [build]. intros H.
  apply NlAttrSchema_build_positional in H.
  destruct H as (d & -> & _ & _ & _ & H).
  apply set_build_loop_pieces in H. destruct H as (pieces & -> & HF).
  exists d, pieces. split; [reflexivity|]. split; [reflexivity|].
  assert (HF' : Forall2 (fun '(name, val) piece =>
                  exists child attr_payload attr_id,
                    dict_get name subattr_schemata = Some child
                    /\ build host ids child val = Ok attr_payload
                    /\ dict_get name ids = Some attr_id
                    /\ tlv_layout host attr_id attr_payload piece) d pieces).
  { clear -HF. induction HF as [|[name val] piece d' ps Hx _ IH]; constructor; [|exact IH].
    destruct Hx as (child & attr_payload & attr_id & Hc & Hb & Hi & Ht).
    unfold child_builders in Hc. rewrite dict_get_map in Hc.
    destruct (dict_get name subattr_schemata) as [sub|]; [|discriminate].
    injection Hc as <-. exists sub, attr_payload, attr_id.
    repeat split; auto. now apply tlv_has_layout. }
  split; [exact HF'|].
  intros n. apply len_concat_mod4, Forall_firstn_keeps.
  clear -HF'. induction HF' as [|[name val] piece d' ps Hx _ IH]; constructor; [|exact IH].
  destruct Hx as (_ & attr_payload & attr_id & _ & _ & _ & (hdr & k & _ & _ & _ & Hm)).
  exact Hm.
Qed.

(** ** What [from_spec] guarantees *)

Lemma dict_set_Forall {V} (P : string * V -> Prop) (k : string) (v : V) (d : dict V) :
  (forall k', P (k', v)) -> Forall P d -> Forall P (dict_set k v d).
Proof.
  intros Hv. induction 1 as [|[k' v'] rest Hx Hrest IH]; cbn [dict_set].
  - constructor; [apply Hv|constructor].
  - destruct (String.eqb k k'); constructor; auto.
Qed.

Lemma from_spec_loop_children (Q : schema -> Prop) (common_prefix : string)
      (spec : list (pyspec * result schema)) :
  Forall (fun '(_, compiled) => forall c, compiled = Ok c -> Q c) spec ->
  forall subattr name_mapping required_attrs s,
    Forall (fun '(_, sub) => Q sub) subattr ->
    from_spec_loop common_prefix spec subattr name_mapping required_attrs = Ok s ->
    exists subattr' required_attrs' name_mapping',
      s = NlAttrSchema subattr' required_attrs' name_mapping'
      /\ Forall (fun '(_, sub) => Q sub) subattr'.
Proof.
  induction 1 as [|[f compiled] rest Hc _ IH]; intros subattr nm req s Hq H.
  - injection H as <-. eauto.
  - cbn [from_spec_loop] in H.
    destruct compiled as [c|]; [|discriminate]. cbn [bind] in H.
    destruct (field_name f) as [name|]; [|discriminate]. cbn [bind] in H.
    eapply IH; [|exact H].
    apply dict_set_Forall; [|exact Hq]. intros _. now apply Hc.
Qed.

Lemma new_collection_sized (cls : schema_cls) (sub s : schema) :
  arrays_sized sub = true -> new_collection cls sub = Ok s -> arrays_sized s = true.
Proof.
  intros Hs. unfold new_collection. destruct cls.
  1-4: intros [= <-]; exact Hs.
  destruct (size sub) eqn:E; [|discriminate].
  intros [= <-]. cbn [arrays_sized]. now rewrite E, Hs.
Qed.

Lemma from_type_name_sized (type_name : string) (s : schema) :
  from_type_name type_name = Ok s -> arrays_sized s = true.
Proof.
  unfold from_type_name. destruct (schema_classes type_name) as [[]|]; cbn [bind];
    try discriminate; intros [= <-]; reflexivity.
Qed.

Lemma pyspec_nested_ind (P : pyspec -> Prop) :
  (forall s, P (PStr s)) ->
  (forall l, Forall P l -> P (PList l)) ->
  (forall name python_name type subelem_type required,
      (forall t, type = Some t -> P t) ->
      (forall t, subelem_type = Some t -> P t) ->
      P (PDict name python_name type subelem_type required)) ->
  forall spec, P spec.
Proof.
  intros HStr HList HDict.
  fix IH 1. intros [s|l|name python_name type subelem_type required].
  - apply HStr.
  - apply HList. induction l as [|f rest IHl]; constructor; [apply IH|exact IHl].
  - apply HDict.
    + destruct type as [t'|]; intros t Ht; [|discriminate].
      injection Ht as <-. apply IH.
    + destruct subelem_type as [t'|]; intros t Ht; [|discriminate].
      injection Ht as <-. apply IH.
Qed.

Lemma NlAttrSchema_from_spec_sized (from_spec' : pyspec -> result schema)
      (fields : list pyspec) (s : schema) :
  Forall (fun f => forall c, from_spec' f = Ok c -> arrays_sized c = true) fields ->
  NlAttrSchema_from_spec (map (fun f => (f, from_spec' f)) fields) = Ok s ->
  arrays_sized s = true.
Proof.
  intros Hall Hf. unfold NlAttrSchema_from_spec in Hf.
  destruct (field_names _); [|discriminate]. cbn [bind] in Hf.
  eapply (from_spec_loop_children (fun c => arrays_sized c = true)) in Hf.
  - destruct Hf as (sa & req & nm & -> & HF). cbn [arrays_sized].
    apply forallb_forall. rewrite Forall_forall in HF.
    intros [n sub] Hin. exact (HF _ Hin).
  - clear -Hall. induction Hall; cbn [map]; constructor; auto.
  - constructor.
Qed.

Lemma from_spec_arrays_sized (spec : pyspec) :
  forall s, from_spec spec = Ok s -> arrays_sized s = true.
Proof.
  induction spec as [str|fields IH|name python_name type subelem_type required IHt IHs]
    using pyspec_nested_ind; intros s H.
  - discriminate.
  - cbn [from_spec] in H. eapply NlAttrSchema_from_spec_sized; eassumption.
  - cbn [from_spec] in H. destruct type as [[type_name|fields|]|]; try discriminate.
    + destruct (schema_classes type_name) as [cls|]; [|discriminate]. cbn [bind] in H.
      assert (Hcoll : forall cls',
                 match subelem_type with
                 | None => Err (KeyError "subelem_type")
                 | Some (PStr s0) =>
                     do subelem_schema <- from_type_name s0;
                     new_collection cls' subelem_schema
                 | Some subelem_spec =>
                     do subelem_schema <- from_spec subelem_spec;
                     new_collection cls' subelem_schema
                 end = Ok s -> arrays_sized s = true).
      { intros cls' Hc. destruct subelem_type as [sub_spec|]; [|discriminate].
        specialize (IHs _ eq_refl).
        destruct sub_spec as [st|sl|sn sp sty ssub sreq].
        - destruct (from_type_name st) as [sub|] eqn:E; [|discriminate]. cbn [bind] in Hc.
          eapply new_collection_sized; [eapply from_type_name_sized|]; eassumption.
        - destruct (from_spec (PList sl)) as [sub|] eqn:E; [|discriminate].
          cbn [bind] in Hc.
          eapply new_collection_sized; [eapply IHs; reflexivity|]; eassumption.
        - destruct (from_spec (PDict sn sp sty ssub sreq)) as [sub|] eqn:E; [|discriminate].
          cbn [bind] in Hc.
          eapply new_collection_sized; [eapply IHs; reflexivity|]; eassumption. }
      destruct cls; try (injection H as <-; reflexivity); eapply Hcoll; exact H.
    + exact (IHt _ eq_refl s H).
Qed.

(** ** Round trip *)

Lemma skipn_len_app {A} (x rest : list A) (n : Z) :
  n = len x -> skipn (Z.to_nat n) (x ++ rest) = rest.
Proof.
  intros ->. unfold len. rewrite Nat2Z.id, skipn_app, skipn_all, Nat.sub_diag.
  reflexivity.
Qed.

Section RoundTrip.
Variable host : byteorder.
Variable ids : dict Z.

Lemma parse_generic_attributes_tlv (attr_id : Z) (attr_payload piece rest : bytes) :
  tlv host attr_id attr_payload = Ok piece ->
  parse_generic_attributes host (piece ++ rest)
  = do r <- parse_generic_attributes host rest;
    Ok (mkGNLAttribute (attrib_hdr_len + len attr_payload) attr_id attr_payload :: r).
Proof.
  intros Ht. destruct (tlv_inv _ _ _ _ Ht) as (hdr & Hh & Hp & Hl).
  destruct (struct_pack_HH_inv _ _ _ _ Hh) as (Lh & Hu & Hr & _).
  pose proof (len_nonneg attr_payload) as Hn.
  rewrite parse_generic_attributes_unfold.
  destruct (piece ++ rest) as [|b0 data0] eqn:Ed.
  { exfalso. apply (f_equal len) in Ed. rewrite len_app, Hl in Ed.
    pose proof (align_bounds (attrib_hdr_len + len attr_payload) ltac:(lia)).
    pose proof (len_nonneg rest). change (len []) with 0 in Ed.
    unfold attrib_hdr_len in *. lia. }
  rewrite <- Ed. clear Ed b0 data0.
  assert (Hs : slice (piece ++ rest) 0 attrib_hdr_len = hdr).
  { rewrite Hp, <- app_assoc. unfold attrib_hdr_len. rewrite <- Lh. apply slice_all_app. }
  rewrite Hs, Hu. cbn [bind].
  destruct (Z.eqb_spec (attrib_hdr_len + len attr_payload) 0) as [E|_];
    [unfold attrib_hdr_len in E; lia|].
  rewrite skipn_len_app by (symmetry; exact Hl).
  assert (Hsl : forall tail,
             slice (hdr ++ attr_payload ++ tail) attrib_hdr_len
                   (attrib_hdr_len + len attr_payload) = attr_payload).
  { intros tail. unfold attrib_hdr_len. rewrite <- Lh.
    rewrite <- (Z.add_0_r (len hdr)) at 1.
    rewrite slice_app_shift by lia. apply slice_all_app. }
  rewrite Hp, <- !app_assoc, Hsl. reflexivity.
Qed.

(** The splitter on a concatenation of built attributes. *)
Lemma parse_generic_attributes_pieces (attrs : list GNLAttribute) (pieces : list bytes) :
  Forall2 (fun a piece =>
             tlv host (atype a) (adata a) = Ok piece
             /\ alength a = attrib_hdr_len + len (adata a)) attrs pieces ->
  parse_generic_attributes host (List.concat pieces) = Ok attrs.
Proof.
  induction 1 as [|a piece attrs pieces [Ht Hl] _ IH]; [reflexivity|].
  cbn [List.concat]. rewrite (parse_generic_attributes_tlv _ _ _ _ Ht), IH.
  cbn [bind]. destruct a as [l t d]. cbn in *. now subst l.
Qed.

(** *** Leaves *)

Lemma decode_encode_ascii (t : text) (enc rest : bytes) :
  encode_ascii t = Ok enc ->
  utf8_decode (enc ++ rest) = option_map (app t) (utf8_decode rest).
Proof.
  revert enc. induction t as [|c t IH]; intros enc H.
  - injection H as <-. cbn [app]. destruct (utf8_decode rest); reflexivity.
  - cbn [encode_ascii] in H.
    destruct ((0 <=? c) && (c <? 128)) eqn:Hc; [|discriminate].
    destruct (encode_ascii t) as [r|] eqn:Hr; [|discriminate].
    cbn [bind] in H. injection H as <-.
    apply andb_true_iff in Hc. destruct Hc as [H0 H1].
    apply Z.leb_le in H0. apply Z.ltb_lt in H1.
    cbn [app utf8_decode]. rewrite Z_of_byte_of_Z, Z.mod_small by lia.
    destruct (Z.ltb_spec c 128); [|lia].
    rewrite (IH r eq_refl). destruct (utf8_decode rest); reflexivity.
Qed.

Lemma str_roundtrip (v : value) (b : bytes) :
  NlAttrSchemaStr_build v = Ok b -> NlAttrSchemaStr_parse b = ([], Ok v).
Proof.
  unfold NlAttrSchemaStr_build, NlAttrSchemaStr_parse, lift, decode.
  destruct v as [| |t| | |]; try discriminate.
  destruct (encode_ascii t) as [enc|] eqn:He; [|discriminate].
  cbn [bind]. intros [= <-].
  rewrite (decode_encode_ascii _ _ [x00] He). cbn [utf8_decode option_map bind].
  change (Z_of_byte x00 <? 128) with true. cbv iota. cbn [option_map bind].
  change (Z_of_byte x00) with 0.
  rewrite rev_app_distr. cbn [rev app]. cbn [Z.eqb].
  now rewrite removelast_last.
Qed.

Lemma int_roundtrip (fmt : int_fmt) (v : value) (b : bytes) :
  NlAttrSchemaInt_build host fmt v = Ok b ->
  NlAttrSchemaInt_parse host fmt b = ([], Ok v) /\ len b = calcsize fmt.
Proof.
  unfold NlAttrSchemaInt_build, NlAttrSchemaInt_parse, lift.
  destruct v as [|z| | | |]; try discriminate.
  intros H. rewrite (struct_unpack_pack _ _ _ _ H). split; [reflexivity|].
  eapply len_struct_pack; eassumption.
Qed.

(** *** Arrays *)

Lemma array_build_loop_chunks (f : builder) (items : list value) :
  forall acc b,
    array_build_loop f items acc = Ok b ->
    exists chunks,
      b = acc ++ List.concat chunks
      /\ Forall2 (fun v c => f v = Ok c) items chunks.
Proof.
  induction items as [|v rest IH]; intros acc b H.
  - injection H as <-. exists []. split; [now rewrite app_nil_r | constructor].
  - cbn [array_build_loop] in H.
    destruct (f v) as [c|] eqn:Hc; [|discriminate]. cbn [bind] in H.
    destruct (IH _ _ H) as (chunks & -> & HF).
    exists (c :: chunks). split; [cbn [List.concat]; now rewrite <- app_assoc|].
    now constructor.
Qed.

Lemma array_parse_loop_chunks (p : parser) (n : Z) (vals : list value)
      (chunks : list bytes) :
  0 < n ->
  Forall2 (fun v c => p c = ([], Ok v) /\ len c = n) vals chunks ->
  forall fuel ret_,
    (List.length (List.concat chunks) < fuel)%nat ->
    array_parse_loop fuel p n (List.concat chunks) ret_ = ([], Ok (ret_ ++ vals)).
Proof.
  intros Hn HF. induction HF as [|v c vals chunks [Hp Hl] _ IH]; intros fuel ret_ Hf.
  - destruct fuel; [lia|]. cbn. now rewrite app_nil_r.
  - destruct fuel as [|fuel]; [lia|]. cbn [List.concat array_parse_loop].
    destruct (c ++ List.concat chunks) as [|b0 d0] eqn:Ed.
    { apply (f_equal len) in Ed. rewrite len_app, Hl in Ed.
      pose proof (len_nonneg (List.concat chunks)). change (len []) with 0 in Ed. lia. }
    rewrite <- Ed.
    replace (slice (c ++ List.concat chunks) 0 n) with c
      by (rewrite <- Hl; symmetry; apply slice_all_app).
    rewrite Hp, mbind_ret_l.
    rewrite skipn_len_app by (symmetry; exact Hl).
    rewrite IH.
    + now rewrite <- app_assoc.
    + cbn [List.concat] in Hf. rewrite length_app in Hf.
      unfold len in Hl. lia.
Qed.

(** *** Lists *)

Lemma list_build_loop_pieces (f : builder) (items : list value) :
  forall i payload b,
    list_build_loop host f items i payload = Ok b ->
    exists attrs pieces,
      b = payload ++ List.concat pieces
      /\ Forall2 (fun a piece =>
                    tlv host (atype a) (adata a) = Ok piece
                    /\ alength a = attrib_hdr_len + len (adata a)) attrs pieces
      /\ Forall2 (fun v a => f v = Ok (adata a)) items attrs
      /\ numbered_from i attrs.
Proof.
  induction items as [|v rest IH]; intros i payload b H.
  - injection H as <-. exists [], []. rewrite app_nil_r.
    repeat split; constructor.
  - cbn [list_build_loop] in H.
    destruct (f v) as [p|] eqn:Hp; [|discriminate]. cbn [bind] in H.
    destruct (tlv host (i + 1) p) as [t|] eqn:Ht; [|discriminate]. cbn [bind] in H.
    destruct (IH _ _ _ H) as (attrs & pieces & -> & HT & HV & HN).
    exists (mkGNLAttribute (attrib_hdr_len + len p) (i + 1) p :: attrs), (t :: pieces).
    split; [cbn [List.concat]; now rewrite <- app_assoc|].
    split; [constructor; [split; [exact Ht|reflexivity]|exact HT]|].
    split; [constructor; [exact Hp|exact HV]|].
    split; [reflexivity|exact HN].
Qed.

Lemma max_atype_numbered (i : Z) (a : GNLAttribute) (rest : list GNLAttribute) :
  numbered_from i (a :: rest) ->
  max_atype (a :: rest) = i + 1 + len rest.
Proof.
  cbn [max_atype]. revert i a. induction rest as [|a' rest IH]; intros i a [Ha Hr].
  - cbn. change (len []) with 0. lia.
  - cbn [fold_left]. destruct Hr as [Ha' Hr].
    replace (Z.max (atype a) (atype a')) with (atype a') by lia.
    rewrite (IH (i + 1) a' (conj Ha' Hr)), len_cons. lia.
Qed.

Lemma list_setitem_at {A} (done rest : list A) (x v : A) :
  list_setitem (done ++ x :: rest) (len done) v = Ok (done ++ v :: rest).
Proof.
  unfold list_setitem. pose proof (len_nonneg done) as Hd.
  destruct (Z.ltb_spec (len done) 0); [lia|].
  rewrite len_app, len_cons. pose proof (len_nonneg rest).
  destruct (Z.leb_spec 0 (len done)); [|lia].
  destruct (Z.ltb_spec (len done) (len done + (1 + len rest))); [|lia].
  cbn [andb]. unfold len. rewrite Nat2Z.id.
  rewrite firstn_app, firstn_all, Nat.sub_diag. cbn [firstn]. rewrite app_nil_r.
  change (S (List.length done)) with (1 + List.length done)%nat.
  rewrite <- skipn_skipn, skipn_app, skipn_all, Nat.sub_diag. reflexivity.
Qed.

Lemma list_parse_loop_fill (p : parser) (vals : list value) (attrs : list GNLAttribute) :
  Forall2 (fun v a => p (adata a) = ([], Ok v)) vals attrs ->
  forall done,
    numbered_from (len done) attrs ->
    list_parse_loop p attrs (done ++ repeat VNone (List.length vals))
    = ([], Ok (done ++ vals)).
Proof.
  induction 1 as [|v a vals attrs Hp _ IH]; intros done Hn.
  - cbn. reflexivity.
  - destruct Hn as [Ha Hn]. cbn [list_parse_loop List.length repeat].
    rewrite Hp, mbind_ret_l.
    replace (atype a - 1) with (len done) by lia.
    rewrite list_setitem_at. unfold lift. rewrite mbind_ret_l.
    replace (done ++ v :: repeat VNone (List.length vals))
      with ((done ++ [v]) ++ repeat VNone (List.length vals))
      by (now rewrite <- app_assoc).
    rewrite IH.
    + now rewrite <- app_assoc.
    + rewrite len_app. change (len [v]) with 1. exact Hn.
Qed.

(** *** Attribute sets *)

Lemma existsb_eqb_In (k : string) (l : list string) :
  existsb (String.eqb k) l = true <-> In k l.
Proof.
  rewrite existsb_exists. split.
  - intros (x & Hin & He). apply String.eqb_eq in He. now subst.
  - intros Hin. exists k. split; [exact Hin|apply String.eqb_refl].
Qed.

Lemma unique_names_NoDup (l : list string) : unique_names l = true <-> NoDup l.
Proof.
  induction l as [|k l IH]; cbn [unique_names].
  - split; [constructor|reflexivity].
  - rewrite andb_true_iff, negb_true_iff, IH. split.
    + intros [Hn Hd]. constructor; [|exact Hd].
      intros Hin. apply existsb_eqb_In in Hin. congruence.
    + intros Hd. inversion Hd as [|? ? Hn Hd']. subst. split; [|exact Hd'].
      destruct (existsb (String.eqb k) l) eqn:E; [|reflexivity].
      apply existsb_eqb_In in E. contradiction.
Qed.

Lemma dict_get_In {V} (k : string) (d : dict V) (v : V) :
  dict_get k d = Some v -> In (k, v) d.
Proof.
  induction d as [|[k' v'] rest IH]; [discriminate|].
  cbn [dict_get]. destruct (String.eqb_spec k k') as [->|].
  - intros [= ->]. now left.
  - intros H. right. now apply IH.
Qed.

Lemma dict_set_fresh {V} (k : string) (v : V) (d : dict V) :
  ~ In k (dict_keys d) -> dict_set k v d = d ++ [(k, v)].
Proof.
  induction d as [|[k' v'] rest IH]; intros Hn; [reflexivity|].
  cbn [dict_set app]. cbn [dict_keys map fst In] in Hn.
  destruct (String.eqb_spec k k') as [->|]; [exfalso; apply Hn; now left|].
  f_equal. apply IH. intros Hin. apply Hn. now right.
Qed.

Lemma dict_get_child_builders (f : schema -> builder) (k : string) (d : dict schema) :
  dict_get k (child_builders f d) = option_map f (dict_get k d).
Proof. apply dict_get_map. Qed.

Lemma find_attr_found (f : schema -> parser) (subattr : dict schema)
      (name : string) (child : schema) (id : Z) :
  ids_distinct ids (dict_keys subattr) = true ->
  dict_get name subattr = Some child ->
  dict_get name ids = Some id ->
  find_attr ids (child_parsers f subattr) id
  = Ok (Some (name, (class_name child, f child))).
Proof.
  induction subattr as [|[n' c'] rest IH]; intros Hd Hc Hi; [discriminate|].
  cbn [dict_keys map fst ids_distinct] in Hd.
  destruct (dict_get n' ids) as [i'|] eqn:Hi'; [|discriminate].
  apply andb_true_iff in Hd. destruct Hd as [Hall Hd].
  cbn [child_parsers map find_attr]. unfold dict_lookup. rewrite Hi'. cbn [bind].
  cbn [dict_get] in Hc. destruct (String.eqb_spec name n') as [->|Hne].
  - injection Hc as ->. rewrite Hi in Hi'. injection Hi' as ->.
    now rewrite Z.eqb_refl.
  - assert (Hin : In name (dict_keys rest)).
    { apply dict_get_In in Hc. apply (in_map fst) in Hc. exact Hc. }
    rewrite forallb_forall in Hall. specialize (Hall _ Hin).
    rewrite Hi in Hall. apply negb_true_iff in Hall.
    rewrite Z.eqb_sym, Hall. now apply IH.
Qed.

Lemma set_build_loop_attrs (sb : dict builder) (items : dict value) :
  forall payload b,
    set_build_loop host ids sb items payload = Ok b ->
    exists attrs pieces,
      b = payload ++ List.concat pieces
      /\ Forall2 (fun a piece =>
                    tlv host (atype a) (adata a) = Ok piece
                    /\ alength a = attrib_hdr_len + len (adata a)) attrs pieces
      /\ Forall2 (fun '(name, val) a =>
                    exists child,
                      dict_get name sb = Some child
                      /\ child val = Ok (adata a)
                      /\ dict_get name ids = Some (atype a)) items attrs.
Proof.
  induction items as [|[name val] rest IH]; intros payload b H.
  - injection H as <-. exists [], []. rewrite app_nil_r. repeat split; constructor.
  - cbn [set_build_loop] in H. unfold dict_lookup in H.
    destruct (dict_get name sb) as [child|] eqn:Hc; [|discriminate].
    cbn [bind] in H.
    destruct (child val) as [p|] eqn:Hb; [|discriminate].
    cbn [bind] in H.
    destruct (dict_get name ids) as [attr_id|] eqn:Hi; [|discriminate].
    cbn [bind] in H.
    destruct (tlv host attr_id p) as [t|] eqn:Ht; [|discriminate].
    cbn [bind] in H.
    destruct (IH _ _ H) as (attrs & pieces & -> & HT & HV).
    exists (mkGNLAttribute (attrib_hdr_len + len p) attr_id p :: attrs), (t :: pieces).
    split; [cbn [List.concat]; now rewrite <- app_assoc|].
    split; [constructor; [split; [exact Ht|reflexivity]|exact HT]|].
    constructor; [|exact HV]. exists child. auto.
Qed.

Lemma set_parse_loop_fill (sp : dict (string * parser)) (items : dict value)
      (attrs : list GNLAttribute) :
  Forall2 (fun '(name, val) a =>
             exists cls p,
               find_attr ids sp (atype a) = Ok (Some (name, (cls, p)))
               /\ p (adata a) = ([], Ok val)) items attrs ->
  forall done,
    NoDup (dict_keys (done ++ items)) ->
    set_parse_loop ids sp attrs done = ([], Ok (done ++ items)).
Proof.
  induction 1 as [|[name val] a items attrs (cls & p & Hf & Hp) _ IH]; intros done Hd.
  - cbn. now rewrite app_nil_r.
  - cbn [set_parse_loop]. rewrite Hf. unfold lift. rewrite mbind_ret_l.
    rewrite Hp. cbn [annotate]. rewrite mbind_ret_l.
    rewrite dict_set_fresh.
    + rewrite IH; rewrite <- app_assoc; [reflexivity|exact Hd].
    + unfold dict_keys in *. rewrite map_app in Hd. cbn [map fst] in Hd.
      apply NoDup_remove_2 in Hd. intros Hin. apply Hd. apply in_or_app. now left.
Qed.
End RoundTrip.

(** *** Induction on schemas, with the children of an attribute set *)

Lemma schema_nested_ind (P : schema -> Prop) :
  (forall fmt, P (NlAttrSchemaInt fmt)) ->
  P NlAttrSchemaStr ->
  P NlAttrSchemaBytes ->
  (forall sub, P sub -> P (NlAttrSchemaList sub)) ->
  (forall sub, P sub -> P (NlAttrSchemaArray sub)) ->
  (forall subattr_schemata required_attrs name_mapping,
      Forall (fun '(_, sub) => P sub) subattr_schemata ->
      P (NlAttrSchema subattr_schemata required_attrs name_mapping)) ->
  forall s, P s.
Proof.
  intros HInt HStr HBytes HList HArray HSet.
  fix IH 1. intros [fmt| | |sub|sub|subattr req nm].
  - apply HInt.
  - apply HStr.
  - apply HBytes.
  - apply HList, IH.
  - apply HArray, IH.
  - apply HSet. induction subattr as [|[n sub] rest IHl]; constructor.
    + apply IH.
    + exact IHl.
Qed.

Lemma forallb_Forall2_l {A B} (f : A -> bool) (R : A -> B -> Prop) (Q : A -> B -> Prop)
      (l1 : list A) (l2 : list B) :
  forallb f l1 = true ->
  (forall a b, f a = true -> R a b -> Q a b) ->
  Forall2 R l1 l2 -> Forall2 Q l1 l2.
Proof.
  intros Hf HQ HR. induction HR as [|a b l1 l2 Hab _ IH]; constructor.
  - cbn in Hf. apply andb_true_iff in Hf. apply HQ; tauto.
  - apply IH. cbn in Hf. apply andb_true_iff in Hf. tauto.
Qed.

Lemma build_parse_roundtrip (host : byteorder) (ids : dict Z) (s : schema) :
  forall v b,
    scope_ids_ok ids s = true -> arrays_sized s = true -> value_ok s v = true ->
    build host ids s v = Ok b ->
    parse host ids s b = ([], Ok v).
Proof.
  induction s as [fmt| | |sub IH|sub IH|subattr req nm IH] using schema_nested_ind;
    intros v b Hs Hz Hv Hb.
  - cbn [build parse] in *. now apply int_roundtrip.
  - cbn [build parse] in *. now apply str_roundtrip.
  - destruct v; try discriminate. cbn in Hb. injection Hb as <-. reflexivity.
  - (* list *)
    destruct v as [| | | |l|]; try discriminate.
    cbn [scope_ids_ok arrays_sized value_ok build parse] in *.
    unfold NlAttrSchemaList_build in Hb. cbn [py_iter bind] in Hb.
    apply list_build_loop_pieces in Hb.
    destruct Hb as (attrs & pieces & -> & HT & HV & HN).
    unfold NlAttrSchemaList_parse. cbn [app].
    rewrite (parse_generic_attributes_pieces _ _ _ HT). unfold lift.
    rewrite mbind_ret_l.
    assert (HP : Forall2 (fun v a => parse host ids sub (adata a) = ([], Ok v)) l attrs).
    { eapply forallb_Forall2_l; [exact Hv| |exact HV].
      intros v a Hok Hbld. now apply IH. }
    destruct attrs as [|a attrs].
    + inversion HP. reflexivity.
    + pose proof (Forall2_length HP) as Hlen.
      rewrite (max_atype_numbered _ _ _ HN).
      replace (Z.to_nat (0 + 1 + len attrs)) with (List.length l)
        by (rewrite Hlen; unfold len; cbn [List.length]; lia).
      pose proof (list_parse_loop_fill _ _ _ HP [] HN) as E. cbn [app] in E.
      rewrite E, mbind_ret_l. reflexivity.
  - (* array *)
    destruct v as [| | | |l|]; try discriminate.
    cbn [scope_ids_ok arrays_sized value_ok build parse] in *.
    apply andb_true_iff in Hz. destruct Hz as [Hsz Hz].
    destruct sub as [fmt| | | | |]; try discriminate. clear Hsz.
    unfold NlAttrSchemaArray_build in Hb. cbn [py_iter bind] in Hb.
    apply array_build_loop_chunks in Hb. destruct Hb as (chunks & -> & HF).
    cbn [app size]. unfold NlAttrSchemaArray_parse.
    rewrite (array_parse_loop_chunks (parse host ids (NlAttrSchemaInt fmt))
               (calcsize fmt) l chunks).
    + rewrite mbind_ret_l. reflexivity.
    + apply calcsize_pos.
    + clear -HF. induction HF as [|v c l chunks Hc _ IHF]; constructor; [|exact IHF].
      cbn [build parse] in *. now apply int_roundtrip.
    + lia.
  - (* attribute set *)
    cbn [scope_ids_ok arrays_sized build parse] in *.
    apply andb_true_iff in Hs. destruct Hs as [Hids Hsub].
    apply NlAttrSchema_build_positional in Hb.
    destruct Hb as (d & -> & _ & _ & Hreq & Hb).
    cbn [value_ok] in Hv. apply andb_true_iff in Hv. destruct Hv as [Huniq Hvals].
    apply set_build_loop_attrs in Hb.
    destruct Hb as (attrs & pieces & -> & HT & HV).
    unfold NlAttrSchema_parse. cbn [app].
    rewrite (parse_generic_attributes_pieces _ _ _ HT). unfold lift.
    rewrite mbind_ret_l. unfold NlAttrSchema_parse_attrs.
    rewrite (set_parse_loop_fill ids _ d attrs).
    + rewrite mbind_ret_l. cbn [app]. now rewrite Hreq.
    + eapply forallb_Forall2_l; [exact Hvals| |exact HV].
      intros [name val] a Hok (child & Hc & Hbld & Hi).
      rewrite dict_get_child_builders in Hc.
      destruct (dict_get name subattr) as [sub|] eqn:Hsubget; [|discriminate].
      injection Hc as <-.
      exists (class_name sub), (parse host ids sub). split.
      * now apply find_attr_found.
      * rewrite dict_get_map, Hsubget in Hok. cbn [option_map] in Hok.
        apply dict_get_In in Hsubget.
        rewrite Forall_forall in IH. specialize (IH _ Hsubget). cbn in IH.
        rewrite forallb_forall in Hsub. specialize (Hsub _ Hsubget). cbn in Hsub.
        rewrite forallb_forall in Hz. specialize (Hz _ Hsubget). cbn in Hz.
        now apply IH.
    + cbn [app]. now apply unique_names_NoDup.
Qed.

(** ** The layout of nested attributes *)

Lemma list_layout_of_pieces (host : byteorder) (f : value -> result bytes)
      (inner : value -> bytes -> Prop) :
  (forall v b, f v = Ok b -> inner v b) ->
  forall items attrs pieces i,
    Forall2 (fun a piece =>
               tlv host (atype a) (adata a) = Ok piece
               /\ alength a = attrib_hdr_len + len (adata a)) attrs pieces ->
    Forall2 (fun v a => f v = Ok (adata a)) items attrs ->
    numbered_from i attrs ->
    list_layout host f inner i items pieces
    /\ Forall (fun piece => len piece mod 4 = 0) pieces.
Proof.
  intros Hin items attrs pieces i Hp Hv. revert pieces i Hp.
  induction Hv as [|v a items attrs Hva Hv IH]; intros pieces i Hp Hn.
  - inversion Hp; subst. cbn [list_layout]. split; [exact I|constructor].
  - inversion Hp as [|? piece ? ps [Ht _] Hp']; subst.
    destruct Hn as [Ha Hn]. destruct (IH ps (i + 1) Hp' Hn) as [IH1 IH2].
    apply tlv_has_layout in Ht. rewrite Ha in Ht.
    cbn [list_layout]. split.
    + split; [|exact IH1]. exists (adata a). split; [exact Hva|].
      split; [exact Ht|]. apply Hin, Hva.
    + constructor; [|exact IH2]. destruct Ht as (hdr & k & _ & _ & _ & Hm). exact Hm.
Qed.

Lemma build_nested_layout (host : byteorder) (ids : dict Z) (s : schema) :
  forall v b, build host ids s v = Ok b -> nested_layout host ids s v b.
Proof.
  induction s as [fmt| | |sub IH|sub IH|subattr req nm IH] using schema_nested_ind;
    intros v b H; cbn [nested_layout]; try exact I.
  - cbn [build] in H. unfold NlAttrSchemaList_build in H.
    destruct (py_iter v) as [items|] eqn:Hi; [|discriminate]. cbn [bind] in H.
    apply list_build_loop_pieces in H.
    destruct H as (attrs & pieces & -> & Hp & Hv & Hn).
    destruct (list_layout_of_pieces host (build host ids sub) (nested_layout host ids sub)
                IH items attrs pieces 0 Hp Hv Hn) as [Hl Hm].
    exists items, pieces. split; [reflexivity|]. split; [reflexivity|].
    split; [exact Hl|]. intros n. apply len_concat_mod4, Forall_firstn_keeps, Hm.
  - cbn [build] in H. unfold NlAttrSchemaArray_build in H.
    destruct (py_iter v) as [items|] eqn:Hi; [|discriminate]. cbn [bind] in H.
    apply array_build_loop_chunks in H. destruct H as (chunks & -> & HF).
    exists items, chunks. split; [reflexivity|]. split; [reflexivity|].
    clear Hi. induction HF as [|x c items chunks Hx HF IHF]; constructor; [|exact IHF].
    split; [exact Hx|]. apply IH, Hx.
  - cbn [build] in H. apply NlAttrSchema_build_positional in H.
    destruct H as (d & -> & _ & _ & _ & H).
    apply set_build_loop_pieces in H. destruct H as (pieces & -> & HF).
    exists d, pieces. split; [reflexivity|]. split; [reflexivity|].
    assert (HF' : Forall2 (fun '(name, val) piece =>
                      exists child inner attr_payload attr_id,
                        dict_get name
                          (map (fun '(n, sub) => (n, (sub, nested_layout host ids sub)))
                               subattr)
                        = Some (child, inner)
                        /\ build host ids child val = Ok attr_payload
                        /\ dict_get name ids = Some attr_id
                        /\ tlv_layout host attr_id attr_payload piece
                        /\ inner val attr_payload) d pieces).
    { clear -HF IH. induction HF as [|[name val] piece d' ps Hx _ IHF];
        constructor; [|exact IHF].
      destruct Hx as (child & attr_payload & attr_id & Hc & Hb & Hi & Ht).
      unfold child_builders in Hc. rewrite dict_get_map in Hc.
      rewrite dict_get_map.
      destruct (dict_get name subattr) as [sub|] eqn:Hsub; [|discriminate].
      injection Hc as <-. cbn [option_map].
      exists sub, (nested_layout host ids sub), attr_payload, attr_id.
      split; [reflexivity|]. split; [exact Hb|]. split; [exact Hi|].
      split; [now apply tlv_has_layout|].
      apply dict_get_In in Hsub. rewrite Forall_forall in IH.
      exact (IH _ Hsub _ _ Hb). }
    split; [exact HF'|].
    intros n. apply len_concat_mod4, Forall_firstn_keeps.
    clear -HF'. induction HF' as [|[name val] piece d' ps Hx _ IHF]; constructor; [|exact IHF].
    destruct Hx as (_ & _ & attr_payload & attr_id & _ & _ & _ & (hdr & k & _ & _ & _ & Hm) & _).
    exact Hm.
Qed.

(** C6: the bytes [build] returns for an attribute set, called in either
    form, are the concatenation of one piece per entry of the value
    mapping (the positional one, or the one the keywords translate to),
    in order; each piece is the header, the payload its child built and
    fewer than four zero bytes; its length field is the header size plus
    the length of the payload, without the padding; every piece starts at
    a multiple of four; and the attributes inside a payload, those a list
    or a nested attribute set wrote, are laid out in the same way, at
    every depth. *)
Theorem build_tlv_layout (host : byteorder) (ids : dict Z)
        (subattr_schemata : dict schema) (required_attrs : list string)
        (name_mapping : dict string) (_attr_values : value) (kwargs : dict value)
        (b : bytes) :
  build_kwargs host ids (NlAttrSchema subattr_schemata required_attrs name_mapping)
               _attr_values kwargs = Ok b ->
  exists d pieces,
    ((kwargs = [] /\ _attr_values = VDict d)
     \/ (kwargs <> [] /\ truthy _attr_values = false
         /\ translate_kwargs name_mapping kwargs [] = Ok d))
    /\ b = List.concat pieces
    /\ Forall2 (fun '(name, val) piece =>
                  exists child attr_payload attr_id,
                    dict_get name subattr_schemata = Some child
                    /\ build host ids child val = Ok attr_payload
                    /\ dict_get name ids = Some attr_id
                    /\ tlv_layout host attr_id attr_payload piece
                    /\ nested_layout host ids child val attr_payload) d pieces
    /\ (forall n, len (List.concat (firstn n pieces)) mod 4 = 0).
Proof.
  intros H. apply build_kwargs_inv in H. destruct H as (d & Hform & H).
  apply build_positional_layout in H.
  destruct H as (d' & pieces & [= <-] & Hb & HF & Hal).
  exists d, pieces. split; [exact Hform|]. split; [exact Hb|]. split; [|exact Hal].
  clear -HF. induction HF as [|[name val] piece d' ps Hx _ IH]; constructor; [|exact IH].
  destruct Hx as (child & attr_payload & attr_id & Hc & Hbld & Hi & Ht).
  exists child, attr_payload, attr_id. repeat split; try assumption.
  apply build_nested_layout, Hbld.
Qed.

Lemma build_tlv_layout_witness :
  exists b,
    build_kwargs little nested_example_ids
      (NlAttrSchema nested_example_children [] [("x", "ATTR_X"); ("names", "ATTR_NAMES")])
      VNone [("names", VList [VStr [104; 105]; VStr [97]]); ("x", VInt 7)]
    = Ok b
    /\ exists d pieces,
        (([("names", VList [VStr [104; 105]; VStr [97]]); ("x", VInt 7)] = []
          /\ VNone = VDict d)
         \/ ([("names", VList [VStr [104; 105]; VStr [97]]); ("x", VInt 7)] <> []
             /\ truthy VNone = false
             /\ translate_kwargs [("x", "ATTR_X"); ("names", "ATTR_NAMES")]
                                 [("names", VList [VStr [104; 105]; VStr [97]]);
                                  ("x", VInt 7)] []
                = Ok d))
        /\ b = List.concat pieces
        /\ Forall2 (fun '(name, val) piece =>
                      exists child attr_payload attr_id,
                        dict_get name nested_example_children = Some child
                        /\ build little nested_example_ids child val = Ok attr_payload
                        /\ dict_get name nested_example_ids = Some attr_id
                        /\ tlv_layout little attr_id attr_payload piece
                        /\ nested_layout little nested_example_ids child val attr_payload)
                   d pieces
        /\ (forall n, len (List.concat (firstn n pieces)) mod 4 = 0).
Proof.
  eexists. split.
  - vm_compute. reflexivity.
  - apply (build_tlv_layout little nested_example_ids nested_example_children []
             [("x", "ATTR_X"); ("names", "ATTR_NAMES")]
             VNone [("names", VList [VStr [104; 105]; VStr [97]]); ("x", VInt 7)]).
    vm_compute. reflexivity.
Defined.

(** ** The two round trips *)

(** C1, with what it needs: for a schema that [from_spec] compiled, an id
    table that gives the children of every attribute set distinct ids, and
    a value tree of the shape of the schema that [build] accepts, [parse]
    of the bytes [build] returns gives the value tree back, without a
    warning.  With keyword arguments alone the value tree is the mapping
    the keywords translate to. *)
Theorem parse_build_roundtrip (host : byteorder) (ids : dict Z)
        (spec : pyspec) (S : schema) :
  from_spec spec = Ok S ->
  scope_ids_ok ids S = true ->
  (forall v b,
      value_ok S v = true ->
      build host ids S v = Ok b ->
      parse host ids S b = ([], Ok v))
  /\ (forall subattr_schemata required_attrs name_mapping kwargs b,
        S = NlAttrSchema subattr_schemata required_attrs name_mapping ->
        build_kwargs host ids S VNone kwargs = Ok b ->
        exists d,
          translate_kwargs name_mapping kwargs [] = Ok d
          /\ (value_ok S (VDict d) = true ->
              parse host ids S b = ([], Ok (VDict d)))).
Proof.
  intros Hc Hi. pose proof (from_spec_arrays_sized _ _ Hc) as Hz. split.
  - intros v b Hv Hb. now apply build_parse_roundtrip.
  - intros sa req nm kwargs b -> Hb.
    apply build_kwargs_inv in Hb. destruct Hb as (d & [[-> Hd]|(_ & _ & Ht)] & Hb).
    { discriminate. }
    exists d. split; [exact Ht|].
    intros Hv. now apply build_parse_roundtrip.
Qed.

(** C2, for the buffers [build] returns: under the conditions of the value
    round trip, [parse] accepts what [build] returned, and [build] of the
    parsed value gives the same bytes again. *)
Theorem build_parse_build_roundtrip (host : byteorder) (ids : dict Z)
        (spec : pyspec) (S : schema) (v : value) (b : bytes) :
  from_spec spec = Ok S ->
  scope_ids_ok ids S = true ->
  value_ok S v = true ->
  build host ids S v = Ok b ->
  exists v',
    parse host ids S b = ([], Ok v')
    /\ build host ids S v' = Ok b.
Proof.
  intros Hc Hi Hv Hb. exists v. split; [|exact Hb].
  apply build_parse_roundtrip; try assumption.
  eapply from_spec_arrays_sized; eassumption.
Qed.

Lemma parse_build_roundtrip_witness :
  parse little example_ids example_schema example_bytes = ([], Ok example_value)
  /\ exists d,
      translate_kwargs [("x", "ATTR_X"); ("name", "ATTR_NAME"); ("rates", "ATTR_RATES")]
                       [("rates", VList [VInt 5; VInt 6; VInt 7]);
                        ("x", VInt 3735928559); ("name", VStr [104; 105])] []
      = Ok d
      /\ (value_ok example_schema (VDict d) = true ->
          parse little example_ids example_schema example_bytes = ([], Ok (VDict d))).
Proof.
  split.
  - apply (proj1 (parse_build_roundtrip little example_ids
             (PList [PDict (Some "ATTR_X") None (Some (PStr "u32")) None true;
                     field "ATTR_NAME" "str";
                     PDict (Some "ATTR_RATES") None (Some (PStr "array"))
                           (Some (PStr "u8")) false])
             example_schema eq_refl eq_refl) example_value example_bytes);
      reflexivity.
  - apply (proj2 (parse_build_roundtrip little example_ids
             (PList [PDict (Some "ATTR_X") None (Some (PStr "u32")) None true;
                     field "ATTR_NAME" "str";
                     PDict (Some "ATTR_RATES") None (Some (PStr "array"))
                           (Some (PStr "u8")) false])
             example_schema eq_refl eq_refl)
             [("ATTR_X", NlAttrSchemaInt fmt_I); ("ATTR_NAME", NlAttrSchemaStr);
              ("ATTR_RATES", NlAttrSchemaArray (NlAttrSchemaInt fmt_B))]
             ["ATTR_X"]
             [("x", "ATTR_X"); ("name", "ATTR_NAME"); ("rates", "ATTR_RATES")]
             [("rates", VList [VInt 5; VInt 6; VInt 7]);
              ("x", VInt 3735928559); ("name", VStr [104; 105])]
             example_bytes);
      reflexivity.
Defined.

Lemma build_parse_build_roundtrip_witness :
  exists v',
    parse little example_ids example_schema example_bytes = ([], Ok v')
    /\ build little example_ids example_schema v' = Ok example_bytes.
Proof.
  apply (build_parse_build_roundtrip little example_ids
           (PList [PDict (Some "ATTR_X") None (Some (PStr "u32")) None true;
                   field "ATTR_NAME" "str";
                   PDict (Some "ATTR_RATES") None (Some (PStr "array"))
                         (Some (PStr "u8")) false])
           example_schema example_value example_bytes).
  - reflexivity.
  - reflexivity.
  - reflexivity.
  - reflexivity.
Defined.

(** C1 as stated fails.  When the table gives two children of a scope the
    same id, the value built under the second name comes back under the
    first; and [bytes(3)], three zero bytes, is accepted for a "bytes"
    field and comes back as those bytes, not as 3. *)
Lemma roundtrip_fails_on_shared_id_and_on_coercion :
  (from_spec (PList [field "ATTR_A" "u8"; field "ATTR_B" "u8"])
   = Ok (NlAttrSchema [("ATTR_A", NlAttrSchemaInt fmt_B); ("ATTR_B", NlAttrSchemaInt fmt_B)]
                      [] [("a", "ATTR_A"); ("b", "ATTR_B")])
   /\ build little [("ATTR_A", 1); ("ATTR_B", 1)]
        (NlAttrSchema [("ATTR_A", NlAttrSchemaInt fmt_B); ("ATTR_B", NlAttrSchemaInt fmt_B)]
                      [] [("a", "ATTR_A"); ("b", "ATTR_B")])
        (VDict [("ATTR_B", VInt 5)])
      = Ok [x05; x00; x01; x00; x05; x00; x00; x00]
   /\ parse little [("ATTR_A", 1); ("ATTR_B", 1)]
        (NlAttrSchema [("ATTR_A", NlAttrSchemaInt fmt_B); ("ATTR_B", NlAttrSchemaInt fmt_B)]
                      [] [("a", "ATTR_A"); ("b", "ATTR_B")])
        [x05; x00; x01; x00; x05; x00; x00; x00]
      = ([], Ok (VDict [("ATTR_A", VInt 5)]))
   /\ VDict [("ATTR_A", VInt 5)] <> VDict [("ATTR_B", VInt 5)])
  /\ (from_spec (PList [field "ATTR_BLOB" "bytes"; field "ATTR_X" "u8"])
      = Ok (NlAttrSchema [("ATTR_BLOB", NlAttrSchemaBytes); ("ATTR_X", NlAttrSchemaInt fmt_B)]
                         [] [("blob", "ATTR_BLOB"); ("x", "ATTR_X")])
      /\ build little [("ATTR_BLOB", 1); ("ATTR_X", 2)]
           (NlAttrSchema [("ATTR_BLOB", NlAttrSchemaBytes); ("ATTR_X", NlAttrSchemaInt fmt_B)]
                         [] [("blob", "ATTR_BLOB"); ("x", "ATTR_X")])
           (VDict [("ATTR_BLOB", VInt 3)])
         = Ok [x07; x00; x01; x00; x00; x00; x00; x00]
      /\ parse little [("ATTR_BLOB", 1); ("ATTR_X", 2)]
           (NlAttrSchema [("ATTR_BLOB", NlAttrSchemaBytes); ("ATTR_X", NlAttrSchemaInt fmt_B)]
                         [] [("blob", "ATTR_BLOB"); ("x", "ATTR_X")])
           [x07; x00; x01; x00; x00; x00; x00; x00]
         = ([], Ok (VDict [("ATTR_BLOB", VBytes [x00; x00; x00])]))
      /\ VDict [("ATTR_BLOB", VBytes [x00; x00; x00])] <> VDict [("ATTR_BLOB", VInt 3)]).
Proof.
  repeat split; discriminate.
Qed.

(** C2 as stated fails.  [parse] does not look at the padding, so a buffer
    whose padding is not zero is accepted and rebuilt with zero padding;
    and the empty buffer is accepted and parses to the empty mapping,
    which [build] refuses. *)
Lemma byte_roundtrip_fails_on_padding_and_on_empty_buffer :
  (parse little [("ATTR_A", 1); ("ATTR_B", 2)]
     (NlAttrSchema [("ATTR_A", NlAttrSchemaInt fmt_B); ("ATTR_B", NlAttrSchemaInt fmt_B)]
                   [] [("a", "ATTR_A"); ("b", "ATTR_B")])
     [x05; x00; x01; x00; x05; xff; xff; xff]
   = ([], Ok (VDict [("ATTR_A", VInt 5)]))
   /\ build little [("ATTR_A", 1); ("ATTR_B", 2)]
        (NlAttrSchema [("ATTR_A", NlAttrSchemaInt fmt_B); ("ATTR_B", NlAttrSchemaInt fmt_B)]
                      [] [("a", "ATTR_A"); ("b", "ATTR_B")])
        (VDict [("ATTR_A", VInt 5)])
      = Ok [x05; x00; x01; x00; x05; x00; x00; x00]
   /\ [x05; x00; x01; x00; x05; x00; x00; x00] <> [x05; x00; x01; x00; x05; xff; xff; xff])
  /\ (parse little [("ATTR_A", 1); ("ATTR_B", 2)]
        (NlAttrSchema [("ATTR_A", NlAttrSchemaInt fmt_B); ("ATTR_B", NlAttrSchemaInt fmt_B)]
                      [] [("a", "ATTR_A"); ("b", "ATTR_B")])
        []
      = ([], Ok (VDict []))
      /\ build little [("ATTR_A", 1); ("ATTR_B", 2)]
           (NlAttrSchema [("ATTR_A", NlAttrSchemaInt fmt_B); ("ATTR_B", NlAttrSchemaInt fmt_B)]
                         [] [("a", "ATTR_A"); ("b", "ATTR_B")])
           (VDict [])
         = Err (ValueError ExactlyOne)).
Proof.
  repeat split; discriminate.
Qed.

(** ** The loop budgets are never used up *)

Lemma parse_loop_total (host : byteorder) (fuel : nat) (data : bytes) :
  forall i acc,
    Z.max 0 (len data - i) < Z.of_nat fuel ->
    parse_loop host fuel data i acc <> Err OutOfFuel.
Proof.
  induction fuel as [|fuel IH]; intros i acc Hf; [lia|].
  cbn [parse_loop]. destruct (Z.ltb_spec i (len data)) as [Hlt|]; [|discriminate].
  destruct (struct_unpack_HH host (slice data i (i + attrib_hdr_len)))
    as [[nla_len nla_type]|e] eqn:Hu.
  - cbn [bind]. destruct (Z.eqb_spec nla_len 0) as [|Hnz]; [discriminate|].
    apply struct_unpack_HH_range in Hu. destruct Hu as [Hr _].
    pose proof (align_bounds nla_len) as Hb.
    apply IH. lia.
  - cbn [bind]. unfold struct_unpack_HH, struct_unpack in Hu.
    repeat match type of Hu with
           | context [if ?c then _ else _] => destruct c; cbn [bind] in Hu
           end; congruence.
Qed.

Lemma parse_generic_attributes_total (host : byteorder) (data : bytes) :
  parse_generic_attributes host data <> Err OutOfFuel.
Proof.
  apply parse_loop_total. unfold len. lia.
Qed.

Lemma snd_lift {A} (r : result A) : snd (lift r) = r.
Proof. reflexivity. Qed.

Lemma array_parse_loop_total (p : parser) (n : Z) :
  0 < n ->
  (forall data, snd (p data) <> Err OutOfFuel) ->
  forall fuel data ret_,
    (List.length data < fuel)%nat ->
    snd (array_parse_loop fuel p n data ret_) <> Err OutOfFuel.
Proof.
  intros Hn Hp. induction fuel as [|fuel IH]; intros data ret_ Hf; [lia|].
  cbn [array_parse_loop]. destruct data as [|b0 d0] eqn:Ed; [discriminate|].
  rewrite snd_mbind. specialize (Hp (slice (b0 :: d0) 0 n)).
  destruct (snd (p (slice (b0 :: d0) 0 n))) as [v|e]; [|congruence].
  apply IH. rewrite length_skipn. cbn [List.length] in *. lia.
Qed.

Lemma list_parse_loop_total (p : parser) :
  (forall data, snd (p data) <> Err OutOfFuel) ->
  forall attrs ret_, snd (list_parse_loop p attrs ret_) <> Err OutOfFuel.
Proof.
  intros Hp. induction attrs as [|a rest IH]; intros ret_; [discriminate|].
  cbn [list_parse_loop]. rewrite snd_mbind. specialize (Hp (adata a)).
  destruct (snd (p (adata a))) as [v|e]; [|congruence].
  rewrite snd_mbind, snd_lift. unfold list_setitem.
  destruct (_ && _); [apply IH|discriminate].
Qed.

Lemma find_attr_total (ids : dict Z) {T} (subattr : dict T) (t : Z) :
  find_attr ids subattr t <> Err OutOfFuel.
Proof.
  induction subattr as [|[n c] rest IH]; [discriminate|].
  cbn [find_attr]. unfold dict_lookup. destruct (dict_get n ids); cbn [bind]; [|discriminate].
  destruct (t =? z); [discriminate|exact IH].
Qed.

Lemma snd_annotate_total (attr_name cls : string) (m : M value) :
  snd m <> Err OutOfFuel -> snd (annotate attr_name cls m) <> Err OutOfFuel.
Proof.
  destruct m as [w [v|[]]]; cbn [annotate snd]; intros H; try discriminate; exact H.
Qed.

Lemma set_parse_loop_total (ids : dict Z) (sp : dict (string * parser)) :
  Forall (fun '(_, (_, p)) => forall data, snd (p data) <> Err OutOfFuel) sp ->
  forall attrs acc, snd (set_parse_loop ids sp attrs acc) <> Err OutOfFuel.
Proof.
  intros Hsp. induction attrs as [|a rest IH]; intros acc; [discriminate|].
  cbn [set_parse_loop]. rewrite snd_mbind, snd_lift.
  destruct (find_attr ids sp (atype a)) as [[[name [cls p]]|]|e] eqn:Hf.
  - rewrite snd_mbind.
    assert (Hp : forall data, snd (p data) <> Err OutOfFuel).
    { clear -Hsp Hf. induction sp as [|[n [c q]] sp IHs]; [discriminate|].
      inversion Hsp as [|? ? Hq Hrest]. subst. cbn [find_attr] in Hf.
      destruct (dict_lookup n ids); cbn [bind] in Hf; [|discriminate].
      destruct (atype a =? a0).
      - injection Hf as -> -> ->. exact Hq.
      - now apply IHs. }
    pose proof (snd_annotate_total name cls _ (Hp (adata a))) as Ha.
    destruct (snd (annotate name cls (p (adata a)))); [apply IH|congruence].
  - rewrite snd_mbind. cbn [warn snd]. apply IH.
  - intros E. apply (find_attr_total ids sp (atype a)). congruence.
Qed.

(** [parse] never returns the budget error: the loops of the model end as
    the loops of the code do. *)
Lemma parse_total (host : byteorder) (ids : dict Z) (s : schema) :
  arrays_sized s = true ->
  forall data, snd (parse host ids s data) <> Err OutOfFuel.
Proof.
  induction s as [fmt| | |sub IH|sub IH|subattr req nm IH] using schema_nested_ind;
    intros Hz data; cbn [parse arrays_sized] in *.
  - unfold NlAttrSchemaInt_parse, struct_unpack. rewrite snd_lift.
    destruct (_ =? _); discriminate.
  - unfold NlAttrSchemaStr_parse, decode. rewrite snd_lift.
    destruct (utf8_decode data) as [t|]; cbn [bind]; [|discriminate].
    destruct (rev t); [discriminate|]. destruct (_ =? _); discriminate.
  - discriminate.
  - unfold NlAttrSchemaList_parse. rewrite snd_mbind, snd_lift.
    pose proof (parse_generic_attributes_total host data) as Ht.
    destruct (parse_generic_attributes host data) as [[|a attrs]|e];
      [discriminate| |congruence].
    rewrite snd_mbind.
    pose proof (list_parse_loop_total (parse host ids sub) (IH Hz) (a :: attrs)
                  (repeat VNone (Z.to_nat (max_atype (a :: attrs))))) as Hl.
    destruct (snd (list_parse_loop _ _ _)); [discriminate|congruence].
  - apply andb_true_iff in Hz. destruct Hz as [Hsz Hz].
    destruct sub as [fmt| | | | |]; try discriminate.
    cbn [size]. unfold NlAttrSchemaArray_parse. rewrite snd_mbind.
    pose proof (array_parse_loop_total (parse host ids (NlAttrSchemaInt fmt))
                  (calcsize fmt) (calcsize_pos fmt) (IH Hz)
                  (S (List.length data)) data [] ltac:(lia)) as Ha.
    destruct (snd (array_parse_loop _ _ _ _ _)); [discriminate|congruence].
  - unfold NlAttrSchema_parse. rewrite snd_mbind, snd_lift.
    pose proof (parse_generic_attributes_total host data) as Ht.
    destruct (parse_generic_attributes host data) as [attrs|e]; [|congruence].
    unfold NlAttrSchema_parse_attrs. rewrite snd_mbind.
    assert (Hsp : Forall (fun '(_, (_, p)) => forall data, snd (p data) <> Err OutOfFuel)
                         (child_parsers (parse host ids) subattr)).
    { rewrite forallb_forall in Hz. clear -IH Hz.
      induction IH as [|[n sub] rest Hsub _ IHr]; cbn [child_parsers map]; constructor.
      - apply Hsub. apply (Hz (n, sub)). now left.
      - apply IHr. intros x Hin. apply Hz. now right. }
    pose proof (set_parse_loop_total ids _ Hsp attrs []) as Hl.
    destruct (snd (set_parse_loop _ _ _ _)) as [d|e]; [|congruence].
    destruct (some_not_in req (dict_keys d)); discriminate.
Qed.

(** * Further properties *)

(** ** Alignment and padding *)

Lemma align_of_multiple (m : Z) :
  0 <= m < 2 ^ 64 - 3 -> m mod 4 = 0 -> align m = m.
Proof.
  intros Hm H4. rewrite align_spec by exact Hm.
  pose proof (Z.div_mod m 4 ltac:(lia)) as Hd. rewrite H4 in Hd.
  replace (m + 3) with (3 + (m / 4) * 4) by lia.
  rewrite Z.div_add by lia. change (3 / 4) with 0. lia.
Qed.

(** X1: [align] rounds a size up to the next multiple of four: for a size
    below 2^64 - 3 (where the 64-bit mask of the code starts to cut) the
    result is the least multiple of four that is not below the size, it is
    less than four above it, and [align] leaves a multiple of four, its own
    results among them, as it is. *)
Theorem align_rounds_up (n : Z) :
  0 <= n < 2 ^ 64 - 3 ->
  n <= align n < n + 4
  /\ align n mod 4 = 0
  /\ (forall m, n <= m -> m mod 4 = 0 -> align n <= m)
  /\ align (align n) = align n
  /\ (n mod 4 = 0 -> align n = n).
Proof.
  intros Hn. destruct (align_bounds n Hn) as [Hb Hm].
  split; [exact Hb|]. split; [exact Hm|]. split; [|split].
  - intros m Hle Hm4.
    pose proof (Z.div_mod m 4 ltac:(lia)) as Hd1.
    pose proof (Z.div_mod (align n) 4 ltac:(lia)) as Hd2.
    rewrite Hm4 in Hd1. rewrite Hm in Hd2. lia.
  - apply align_of_multiple; [|exact Hm].
    pose proof (Z.div_mod (align n) 4 ltac:(lia)) as Hd. rewrite Hm in Hd.
    change (2 ^ 64) with 18446744073709551616 in *. lia.
  - intros H4. now apply align_of_multiple.
Qed.

Lemma align_rounds_up_witness :
  5 <= align 5 < 5 + 4
  /\ align 5 mod 4 = 0
  /\ (forall m, 5 <= m -> m mod 4 = 0 -> align 5 <= m)
  /\ align (align 5) = align 5
  /\ (5 mod 4 = 0 -> align 5 = 5).
Proof.
  apply (align_rounds_up 5). vm_compute. split; [discriminate|reflexivity].
Defined.

(** X2: [pad] appends fewer than four zero bytes and nothing else: the
    result has the aligned length, a multiple of four, starts with the data,
    and padding a second time, or padding data whose length is a multiple
    of four, changes nothing. *)
Theorem pad_to_multiple_of_four (data : bytes) :
  len data < 2 ^ 64 - 3 ->
  (exists k, 0 <= k < 4 /\ pad data = data ++ zeros k)
  /\ len (pad data) = align (len data)
  /\ len (pad data) mod 4 = 0
  /\ pad (pad data) = pad data
  /\ (len data mod 4 = 0 -> pad data = data).
Proof.
  intros Hl. pose proof (len_nonneg data) as H0.
  destruct (align_bounds (len data) ltac:(lia)) as [Hb Hm].
  assert (Hlen : len (pad data) = align (len data)).
  { unfold pad. rewrite len_app, len_zeros by lia. lia. }
  assert (Hid : forall d : bytes, len d < 2 ^ 64 - 3 -> len d mod 4 = 0 -> pad d = d).
  { intros d Hd H4. unfold pad. pose proof (len_nonneg d).
    rewrite align_of_multiple by (try exact H4; lia).
    rewrite Z.sub_diag. apply app_nil_r. }
  split; [|split; [|split; [|split]]].
  - exists (align (len data) - len data). split; [lia|reflexivity].
  - exact Hlen.
  - rewrite Hlen. exact Hm.
  - apply Hid; rewrite Hlen; [|exact Hm].
    pose proof (Z.div_mod (align (len data)) 4 ltac:(lia)) as Hd. rewrite Hm in Hd.
    change (2 ^ 64) with 18446744073709551616 in *. lia.
  - intros H4. now apply Hid.
Qed.

Lemma pad_to_multiple_of_four_witness :
  (exists k, 0 <= k < 4 /\ pad [x68; x69; x00] = [x68; x69; x00] ++ zeros k)
  /\ len (pad [x68; x69; x00]) = align (len [x68; x69; x00])
  /\ len (pad [x68; x69; x00]) mod 4 = 0
  /\ pad (pad [x68; x69; x00]) = pad [x68; x69; x00]
  /\ (len [x68; x69; x00] mod 4 = 0 -> pad [x68; x69; x00] = [x68; x69; x00]).
Proof.
  apply (pad_to_multiple_of_four [x68; x69; x00]). vm_compute. reflexivity.
Defined.

(** ** The splitter *)

Lemma len_slice_le {A} (data : list A) (a b : Z) :
  len (slice data a b) <= Z.max 0 (b - a).
Proof.
  unfold slice, len. rewrite length_firstn. lia.
Qed.

(** X3: What [parse_generic_attributes] returns: every attribute has a
    length field between 1 and 65535 and a type between 0 and 65535, its
    payload has at most length - 4 bytes (none when the length field is
    below the header size), and since every attribute takes at least four
    bytes of the buffer, there are at most (len data + 3) / 4 of them. *)
Theorem splitter_attribute_bounds (host : byteorder) (data : bytes)
        (attrs : list GNLAttribute) :
  parse_generic_attributes host data = Ok attrs ->
  Forall (fun a => 1 <= alength a <= 65535
                   /\ 0 <= atype a <= 65535
                   /\ len (adata a) <= Z.max 0 (alength a - attrib_hdr_len)) attrs
  /\ 4 * len attrs <= len data + 3.
Proof.
  remember (List.length data) as n eqn:Hn. revert data attrs Hn.
  induction n as [n IH] using lt_wf_ind. intros data attrs Hn Hp.
  rewrite parse_generic_attributes_unfold in Hp.
  destruct data as [|b0 d0] eqn:Ed.
  { injection Hp as <-. split; [constructor|]. cbn. lia. }
  rewrite <- Ed in *. 
  destruct (struct_unpack_HH host (slice data 0 attrib_hdr_len)) as [[nla_len nla_type]|]
    eqn:Hu; [|discriminate].
  cbn [bind] in Hp. destruct (Z.eqb_spec nla_len 0) as [|Hnz]; [discriminate|].
  destruct (parse_generic_attributes host (skipn (Z.to_nat (align nla_len)) data))
    as [rest|] eqn:Hr; [|discriminate].
  cbn [bind] in Hp. injection Hp as <-.
  apply struct_unpack_HH_range in Hu. destruct Hu as [Hl Ht].
  destruct (align_bounds nla_len ltac:(lia)) as [Hb Hm4].
  pose proof (Z.div_mod (align nla_len) 4 ltac:(lia)) as Hdm. rewrite Hm4 in Hdm.
  assert (Hdl : (0 < List.length data)%nat) by (rewrite Ed; cbn; lia).
  destruct (IH (List.length (skipn (Z.to_nat (align nla_len)) data))
               ltac:(rewrite length_skipn; lia) _ _ eq_refl Hr) as [HF Hc].
  split.
  - constructor; [|exact HF]. cbn [alength atype adata].
    split; [lia|]. split; [lia|]. apply len_slice_le.
  - rewrite len_cons. unfold len in *. rewrite length_skipn in Hc. lia.
Qed.

Lemma splitter_attribute_bounds_witness :
  Forall (fun a => 1 <= alength a <= 65535
                   /\ 0 <= atype a <= 65535
                   /\ len (adata a) <= Z.max 0 (alength a - attrib_hdr_len))
         [mkGNLAttribute 7 5 [x05; x06; x07];
          mkGNLAttribute 8 1 [xef; xbe; xad; xde];
          mkGNLAttribute 7 2 [x68; x69; x00]]
  /\ 4 * len [mkGNLAttribute 7 5 [x05; x06; x07];
              mkGNLAttribute 8 1 [xef; xbe; xad; xde];
              mkGNLAttribute 7 2 [x68; x69; x00]]
     <= len example_bytes + 3.
Proof.
  apply (splitter_attribute_bounds little example_bytes). reflexivity.
Defined.


(** ** Messages *)

Lemma len_slice {A} (data : list A) (a b : Z) :
  0 <= a <= b -> b <= len data -> len (slice data a b) = b - a.
Proof.
  intros Ha Hb. unfold slice, len in *. rewrite length_firstn, length_skipn. lia.
Qed.

Lemma slice_mid {A} (pre x rest : list A) (i j : Z) :
  i = len pre -> j = len pre + len x -> slice (pre ++ x ++ rest) i j = x.
Proof.
  intros -> ->. rewrite <- (Z.add_0_r (len pre)) at 1.
  rewrite slice_app_shift by lia. apply slice_all_app.
Qed.

Lemma slice_head {A} (x rest : list A) (j : Z) :
  j = len x -> slice (x ++ rest) 0 j = x.
Proof. intros ->. apply slice_all_app. Qed.

Lemma struct_unpack_IHHII_pack (host : byteorder) (h : NLMessageHeader) (b : bytes) :
  struct_pack_IHHII host h = Ok b ->
  len b = NL_HEADER_LEN /\ struct_unpack_IHHII host b = Ok h.
Proof.
  unfold struct_pack_IHHII.
  destruct (struct_pack host fmt_I (nl_length h)) as [x1|] eqn:H1; [|discriminate].
  destruct (struct_pack host fmt_H (mtype h)) as [x2|] eqn:H2; [|discriminate].
  destruct (struct_pack host fmt_H (flags h)) as [x3|] eqn:H3; [|discriminate].
  destruct (struct_pack host fmt_I (seq h)) as [x4|] eqn:H4; [|discriminate].
  destruct (struct_pack host fmt_I (port h)) as [x5|] eqn:H5; [|discriminate].
  cbn [bind]. intros [= <-].
  pose proof (len_struct_pack _ _ _ _ H1) as L1.
  pose proof (len_struct_pack _ _ _ _ H2) as L2.
  pose proof (len_struct_pack _ _ _ _ H3) as L3.
  pose proof (len_struct_pack _ _ _ _ H4) as L4.
  pose proof (len_struct_pack _ _ _ _ H5) as L5.
  cbn [calcsize] in *.
  assert (Hlen : len (x1 ++ x2 ++ x3 ++ x4 ++ x5) = NL_HEADER_LEN).
  { rewrite !len_app. unfold NL_HEADER_LEN. lia. }
  split; [exact Hlen|].
  unfold struct_unpack_IHHII. rewrite Hlen, Z.eqb_refl.
  rewrite (slice_head x1 _ 4) by lia.
  rewrite (slice_mid x1 x2 _ 4 6) by lia.
  replace (x1 ++ x2 ++ x3 ++ x4 ++ x5) with ((x1 ++ x2) ++ x3 ++ x4 ++ x5)
    by (now rewrite <- app_assoc).
  rewrite (slice_mid (x1 ++ x2) x3 _ 6 8) by (rewrite ?len_app; lia).
  replace ((x1 ++ x2) ++ x3 ++ x4 ++ x5) with ((x1 ++ x2 ++ x3) ++ x4 ++ x5)
    by (now rewrite <- !app_assoc).
  rewrite (slice_mid (x1 ++ x2 ++ x3) x4 _ 8 12) by (rewrite ?len_app; lia).
  replace ((x1 ++ x2 ++ x3) ++ x4 ++ x5) with ((x1 ++ x2 ++ x3 ++ x4) ++ x5 ++ [])
    by (now rewrite <- !app_assoc, app_nil_r).
  rewrite (slice_mid (x1 ++ x2 ++ x3 ++ x4) x5 _ 12 16) by (rewrite ?len_app; lia).
  rewrite (struct_unpack_pack _ _ _ _ H1), (struct_unpack_pack _ _ _ _ H2),
    (struct_unpack_pack _ _ _ _ H3), (struct_unpack_pack _ _ _ _ H4),
    (struct_unpack_pack _ _ _ _ H5).
  cbn [bind]. destruct h; reflexivity.
Qed.

Lemma struct_unpack_BBH_pack (host : byteorder) (h : GNLMessageHeader) (b : bytes) :
  struct_pack_BBH host h = Ok b ->
  len b = GNL_HEADER_LEN /\ struct_unpack_BBH host b = Ok h.
Proof.
  unfold struct_pack_BBH.
  destruct (struct_pack host fmt_B (cmd h)) as [x1|] eqn:H1; [|discriminate].
  destruct (struct_pack host fmt_B (version h)) as [x2|] eqn:H2; [|discriminate].
  destruct (struct_pack host fmt_H (reserved h)) as [x3|] eqn:H3; [|discriminate].
  cbn [bind]. intros [= <-].
  pose proof (len_struct_pack _ _ _ _ H1) as L1.
  pose proof (len_struct_pack _ _ _ _ H2) as L2.
  pose proof (len_struct_pack _ _ _ _ H3) as L3.
  cbn [calcsize] in *.
  assert (Hlen : len (x1 ++ x2 ++ x3) = GNL_HEADER_LEN).
  { rewrite !len_app. unfold GNL_HEADER_LEN. lia. }
  split; [exact Hlen|].
  unfold struct_unpack_BBH. rewrite Hlen, Z.eqb_refl.
  rewrite (slice_head x1 _ 1) by lia.
  rewrite (slice_mid x1 x2 _ 1 2) by lia.
  replace (x1 ++ x2 ++ x3) with ((x1 ++ x2) ++ x3 ++ [])
    by (now rewrite <- app_assoc, app_nil_r).
  rewrite (slice_mid (x1 ++ x2) x3 _ 2 4) by (rewrite ?len_app; lia).
  rewrite (struct_unpack_pack _ _ _ _ H1), (struct_unpack_pack _ _ _ _ H2),
    (struct_unpack_pack _ _ _ _ H3).
  cbn [bind]. destruct h; reflexivity.
Qed.

Lemma get_genl_message_parses (host : byteorder) (now pid : Z) (payload : bytes)
      (mtype cmd version flags : Z) (seq port : option Z) (msg : bytes) :
  len payload < 2 ^ 63 ->
  get_genl_message host now pid (Some payload) mtype cmd version flags seq port = Ok msg ->
  exists k,
    0 <= k < 4
    /\ len msg = NL_HEADER_LEN + GNL_HEADER_LEN + len payload + k
    /\ len msg mod 4 = 0
    /\ parse_genl_message host msg
       = Ok (mkNLMessageHeader (len msg) mtype flags (or_else seq now) (or_else port pid),
             mkGNLMessageHeader cmd version 0,
             payload ++ zeros k).
Proof.
  intros Hsz. unfold get_genl_message.
  set (length := NL_HEADER_LEN + GNL_HEADER_LEN + len payload).
  destruct (struct_pack_IHHII host _) as [h1|] eqn:H1; [|discriminate].
  destruct (struct_pack_BBH host _) as [h2|] eqn:H2; [|discriminate].
  cbn [bind]. intros [= <-].
  destruct (struct_unpack_IHHII_pack _ _ _ H1) as [L1 U1].
  destruct (struct_unpack_BBH_pack _ _ _ H2) as [L2 U2].
  pose proof (len_nonneg payload) as Hp.
  assert (Hl : 0 <= length < 2 ^ 64 - 3).
  { unfold length, NL_HEADER_LEN, GNL_HEADER_LEN.
    change (2 ^ 63) with 9223372036854775808 in Hsz.
    change (2 ^ 64) with 18446744073709551616. lia. }
  destruct (align_bounds length Hl) as [Hb Hm].
  exists (align length - length).
  assert (Hlen : len (h1 ++ h2 ++ payload ++ zeros (align length - length)) = align length).
  { rewrite !len_app, len_zeros, L1, L2 by lia. unfold length. lia. }
  split; [lia|]. split; [rewrite Hlen; unfold length; lia|].
  split; [rewrite Hlen; exact Hm|].
  unfold parse_genl_message, parse_nl_message.
  rewrite <- L1 at 1. rewrite slice_all_app, U1. cbn [bind].
  change (align NL_HEADER_LEN) with NL_HEADER_LEN.
  rewrite skipn_len_app by (symmetry; exact L1).
  rewrite <- L2 at 1. rewrite slice_all_app, U2. cbn [bind].
  change (align GNL_HEADER_LEN) with GNL_HEADER_LEN.
  rewrite skipn_len_app by (symmetry; exact L2).
  rewrite Hlen. reflexivity.
Qed.

(** X4: [parse_genl_message] reads back what [get_genl_message] wrote: the
    message is the two headers, the payload and fewer than four zero bytes
    (none for a payload of aligned length); the length field is the length
    of the whole message; the type, flags, command and version are those
    given, the reserved field is 0; a sequence number or port that is
    [None] or 0 is replaced by the time and the process id; and the body is
    the payload with its padding. *)
Theorem genl_message_roundtrip (host : byteorder) (now pid : Z) (payload : bytes)
        (mtype cmd version flags : Z) (seq port : option Z) (msg : bytes) :
  len payload < 2 ^ 63 ->
  get_genl_message host now pid (Some payload) mtype cmd version flags seq port = Ok msg ->
  exists k,
    0 <= k < 4
    /\ (len payload mod 4 = 0 -> k = 0)
    /\ len msg = NL_HEADER_LEN + GNL_HEADER_LEN + len payload + k
    /\ len msg mod 4 = 0
    /\ parse_genl_message host msg
       = Ok (mkNLMessageHeader (len msg) mtype flags (or_else seq now) (or_else port pid),
             mkGNLMessageHeader cmd version 0,
             payload ++ zeros k).
Proof.
  intros Hsz Hm.
  destruct (get_genl_message_parses _ _ _ _ _ _ _ _ _ _ _ Hsz Hm) as (k & Hk & Hl & H4 & Hp).
  exists k. split; [exact Hk|]. split; [|now repeat split].
  intros Hp4. rewrite Hl in H4. unfold NL_HEADER_LEN, GNL_HEADER_LEN in H4.
  pose proof (Z.div_mod (len payload) 4 ltac:(lia)) as Hd. rewrite Hp4 in Hd.
  replace (16 + 4 + len payload + k) with (k + (5 + len payload / 4) * 4) in H4 by lia.
  rewrite Z.mod_add, Z.mod_small in H4 by lia. exact H4.
Qed.

Lemma genl_message_roundtrip_witness :
  exists k,
    0 <= k < 4
    /\ (len [x01] mod 4 = 0 -> k = 0)
    /\ len example_message = NL_HEADER_LEN + GNL_HEADER_LEN + len [x01] + k
    /\ len example_message mod 4 = 0
    /\ parse_genl_message little example_message
       = Ok (mkNLMessageHeader (len example_message) 16 1
                               (or_else None 1) (or_else (Some 0) 2),
             mkGNLMessageHeader 3 1 0,
             [x01] ++ zeros k).
Proof.
  apply (genl_message_roundtrip little 1 2 [x01] 16 3 1 1 None (Some 0) example_message).
  - reflexivity.
  - reflexivity.
Defined.

Lemma struct_pack_ok_iff (host : byteorder) (fmt : int_fmt) (val : Z) :
  (exists b, struct_pack host fmt val = Ok b) <-> fmt_min fmt <= val <= fmt_max fmt.
Proof.
  rewrite <- in_range_iff. unfold struct_pack. destruct (in_range fmt val).
  - split; [reflexivity|eauto].
  - split; [intros [b H]; discriminate|discriminate].
Qed.

Ltac in_range_cases :=
  repeat match goal with
         | |- context [in_range ?f ?v] =>
             let E := fresh "E" in
             destruct (in_range f v) eqn:E;
             [apply in_range_iff in E
             |assert (~ (fmt_min f <= v <= fmt_max f))
                by (rewrite <- in_range_iff; congruence); clear E];
             cbn [bind]
         end;
  cbv [fmt_min fmt_max fmt_signed fmt_bits calcsize] in *;
  change (2 ^ (8 * 4)) with 4294967296 in *;
  change (2 ^ (8 * 2)) with 65536 in *;
  change (2 ^ (8 * 1)) with 256 in *;
  (split; [intros [? ?]; try discriminate; lia
          |intros ?; try (exfalso; lia); eauto]).

Lemma struct_pack_IHHII_ok (host : byteorder) (a b c d e : Z) :
  (exists x, struct_pack_IHHII host (mkNLMessageHeader a b c d e) = Ok x)
  <-> (0 <= a <= 4294967295 /\ 0 <= b <= 65535 /\ 0 <= c <= 65535
       /\ 0 <= d <= 4294967295 /\ 0 <= e <= 4294967295).
Proof.
  unfold struct_pack_IHHII, struct_pack. cbn [nl_length mtype flags seq port].
  in_range_cases.
Qed.

Lemma struct_pack_BBH_ok (host : byteorder) (a b c : Z) :
  (exists x, struct_pack_BBH host (mkGNLMessageHeader a b c) = Ok x)
  <-> (0 <= a <= 255 /\ 0 <= b <= 255 /\ 0 <= c <= 65535).
Proof.
  unfold struct_pack_BBH, struct_pack. cbn [cmd version reserved].
  in_range_cases.
Qed.

(** X5: [get_genl_message] returns a message exactly when every field fits
    its place in the headers: type and flags in 16 bits, command and
    version in 8 bits, the sequence number and the port (after their
    defaults) in 32 bits, and a payload of at most 4294967272 bytes, so
    that the padded length fits 32 bits; otherwise [struct.pack] raises. *)
Theorem get_genl_message_accepts (host : byteorder) (now pid : Z) (payload : bytes)
        (mtype cmd version flags : Z) (seq port : option Z) :
  len payload < 2 ^ 63 ->
  ((exists msg,
       get_genl_message host now pid (Some payload) mtype cmd version flags seq port = Ok msg)
   <-> (len payload <= 4294967272
        /\ 0 <= mtype <= 65535 /\ 0 <= flags <= 65535
        /\ 0 <= or_else seq now <= 4294967295
        /\ 0 <= or_else port pid <= 4294967295
        /\ 0 <= cmd <= 255 /\ 0 <= version <= 255)).
Proof.
  intros Hsz. pose proof (len_nonneg payload) as Hp.
  assert (Hl : 0 <= NL_HEADER_LEN + GNL_HEADER_LEN + len payload < 2 ^ 64 - 3).
  { unfold NL_HEADER_LEN, GNL_HEADER_LEN.
    change (2 ^ 63) with 9223372036854775808 in Hsz.
    change (2 ^ 64) with 18446744073709551616. lia. }
  destruct (align_bounds _ Hl) as [Hb Hm].
  pose proof (Z.div_mod (align (NL_HEADER_LEN + GNL_HEADER_LEN + len payload)) 4 ltac:(lia))
    as Hdm. rewrite Hm in Hdm.
  unfold get_genl_message.
  set (L := align (NL_HEADER_LEN + GNL_HEADER_LEN + len payload)) in *.
  unfold NL_HEADER_LEN, GNL_HEADER_LEN in *.
  pose proof (struct_pack_IHHII_ok host L mtype flags (or_else seq now) (or_else port pid))
    as H1.
  pose proof (struct_pack_BBH_ok host cmd version 0) as H2.
  destruct (struct_pack_IHHII host _) as [h1|]; cbn [bind].
  - destruct (struct_pack_BBH host _) as [h2|]; cbn [bind].
    + apply proj1 in H1, H2.
      specialize (H1 (ex_intro _ _ eq_refl)). specialize (H2 (ex_intro _ _ eq_refl)).
      split; [intros _; lia|intros _; eauto].
    + split; [intros [msg Hmsg]; discriminate|].
      intros H'. destruct (proj2 H2 ltac:(lia)) as [x Hx]. discriminate.
  - split; [intros [msg Hmsg]; discriminate|].
    intros H'. destruct (proj2 H1 ltac:(lia)) as [x Hx]. discriminate.
Qed.

Lemma get_genl_message_accepts_witness :
  (exists msg, get_genl_message little 1 2 (Some [x01]) 16 256 1 1 None None = Ok msg)
  <-> (len [x01] <= 4294967272
       /\ 0 <= 16 <= 65535 /\ 0 <= 1 <= 65535
       /\ 0 <= or_else None 1 <= 4294967295
       /\ 0 <= or_else None 2 <= 4294967295
       /\ 0 <= 256 <= 255 /\ 0 <= 1 <= 255).
Proof.
  apply (get_genl_message_accepts little 1 2 [x01] 16 256 1 1 None None). reflexivity.
Defined.

Lemma parse_genl_message_long (host : byteorder) (data : bytes) :
  NL_HEADER_LEN + GNL_HEADER_LEN <= len data ->
  exists nl_header genl_header,
    struct_unpack_IHHII host (firstn 16 data) = Ok nl_header
    /\ struct_unpack_BBH host (firstn 4 (skipn 16 data)) = Ok genl_header
    /\ parse_genl_message host data = Ok (nl_header, genl_header, skipn 20 data).
Proof.
  unfold NL_HEADER_LEN, GNL_HEADER_LEN.
  assert (Hs1 : slice data 0 16 = firstn 16 data) by reflexivity.
  assert (Hs2 : forall body : bytes, slice body 0 4 = firstn 4 body) by reflexivity.
  assert (HI : forall d : bytes, len d = 16 -> exists h, struct_unpack_IHHII host d = Ok h).
  { intros d Hd. unfold struct_unpack_IHHII, struct_unpack, NL_HEADER_LEN.
    rewrite Hd. cbn [Z.eqb Pos.eqb]. rewrite !len_slice by lia. cbn. eauto. }
  assert (HB : forall d : bytes, len d = 4 -> exists h, struct_unpack_BBH host d = Ok h).
  { intros d Hd. unfold struct_unpack_BBH, struct_unpack, GNL_HEADER_LEN.
    rewrite Hd. cbn [Z.eqb Pos.eqb]. rewrite !len_slice by lia. cbn. eauto. }
  unfold parse_genl_message, parse_nl_message.
  change (align NL_HEADER_LEN) with 16. change (align GNL_HEADER_LEN) with 4.
  unfold NL_HEADER_LEN, GNL_HEADER_LEN. rewrite Hs1.
  intros Hge.
  destruct (HI (firstn 16 data)) as [h Hh].
  { unfold len in *. rewrite length_firstn. lia. }
  destruct (HB (firstn 4 (skipn 16 data))) as [g Hg].
  { unfold len in *. rewrite length_firstn, length_skipn. lia. }
  exists h, g. split; [exact Hh|]. split; [exact Hg|].
  rewrite Hh. cbn [bind]. rewrite Hs2.
  change (Z.to_nat 16) with 16%nat. change (Z.to_nat 4) with 4%nat.
  rewrite Hg. cbn [bind].
  rewrite skipn_skipn. reflexivity.
Qed.

(** X6: [parse_genl_message] needs the two headers and nothing more: on a
    buffer of fewer than 20 bytes it raises [struct.error]; on any longer
    buffer it returns the headers unpacked from the first 16 and the next 4
    bytes and, as body, everything after the first 20 bytes.  The length
    field is not compared with the buffer. *)
Theorem parse_genl_message_needs_twenty_bytes (host : byteorder) (data : bytes) :
  (len data < NL_HEADER_LEN + GNL_HEADER_LEN ->
   parse_genl_message host data = Err StructError)
  /\ (NL_HEADER_LEN + GNL_HEADER_LEN <= len data ->
      exists nl_header genl_header,
        struct_unpack_IHHII host (firstn 16 data) = Ok nl_header
        /\ struct_unpack_BBH host (firstn 4 (skipn 16 data)) = Ok genl_header
        /\ parse_genl_message host data
           = Ok (nl_header, genl_header, skipn 20 data)).
Proof.
  split; [|apply parse_genl_message_long].
  unfold NL_HEADER_LEN, GNL_HEADER_LEN. intros Hlt.
  unfold parse_genl_message, parse_nl_message.
  change (align NL_HEADER_LEN) with 16. change (align GNL_HEADER_LEN) with 4.
  unfold NL_HEADER_LEN, GNL_HEADER_LEN.
  change (slice data 0 16) with (firstn 16 data).
  destruct (Z.lt_ge_cases (len data) 16) as [H16|H16].
  - unfold struct_unpack_IHHII at 1. unfold NL_HEADER_LEN.
    replace (len (firstn 16 data) =? 16) with false; [reflexivity|].
    symmetry. apply Z.eqb_neq. unfold len in *. rewrite length_firstn. lia.
  - destruct (struct_unpack_IHHII host (firstn 16 data)) as [h|] eqn:Hh.
    2:{ cbn [bind]. f_equal. unfold struct_unpack_IHHII in Hh.
        destruct (len (firstn 16 data) =? NL_HEADER_LEN); [|congruence].
        unfold struct_unpack in Hh.
        repeat match type of Hh with
               | context [if ?c then _ else _] => destruct c; cbn [bind] in Hh
               end; congruence. }
    cbn [bind]. change (Z.to_nat 16) with 16%nat.
    change (slice (skipn 16 data) 0 4) with (firstn 4 (skipn 16 data)).
    unfold struct_unpack_BBH. unfold GNL_HEADER_LEN.
    replace (len (firstn 4 (skipn 16 data)) =? 4) with false; [reflexivity|].
    symmetry. apply Z.eqb_neq. unfold len in *.
    rewrite length_firstn, length_skipn. lia.
Qed.

Lemma parse_genl_message_needs_twenty_bytes_witness :
  parse_genl_message big (firstn 19 example_message) = Err StructError
  /\ exists nl_header genl_header,
      struct_unpack_IHHII little (firstn 16 example_message) = Ok nl_header
      /\ struct_unpack_BBH little (firstn 4 (skipn 16 example_message)) = Ok genl_header
      /\ parse_genl_message little example_message
         = Ok (nl_header, genl_header, skipn 20 example_message).
Proof.
  split.
  - apply (proj1 (parse_genl_message_needs_twenty_bytes big (firstn 19 example_message))).
    reflexivity.
  - apply (proj2 (parse_genl_message_needs_twenty_bytes little example_message)).
    vm_compute. discriminate.
Defined.

Lemma slice_slice_head {A} (data : list A) (n a b : Z) :
  0 <= a -> b <= n -> slice (slice data 0 n) a b = slice data a b.
Proof.
  intros Ha Hb. unfold slice. rewrite Z.sub_0_r. change (Z.to_nat 0) with 0%nat.
  cbn [skipn].
  destruct (Z.le_gt_cases b a) as [Hba|Hba].
  - replace (Z.to_nat (b - a)) with 0%nat by lia. reflexivity.
  - rewrite skipn_firstn_comm, firstn_firstn. f_equal. lia.
Qed.

Lemma le_value_zero (l : bytes) : le_value l = 0 <-> l = zeros (len l).
Proof.
  unfold zeros, len. rewrite Nat2Z.id. induction l as [|b r IH]; cbn [le_value List.length repeat].
  - tauto.
  - pose proof (Z_of_byte_range b) as Hb. pose proof (le_value_bound r) as Hr.
    split.
    + intros H. assert (Z_of_byte b = 0 /\ le_value r = 0) as [H0 Hr0] by lia.
      f_equal.
      * rewrite <- (byte_of_Z_of_byte b), H0. reflexivity.
      * apply IH, Hr0.
    + intros [= Hb0 Hr0]. apply IH in Hr0. rewrite Hr0, Hb0. reflexivity.
Qed.

Lemma in_host_order_zeros (host : byteorder) (l : bytes) :
  in_host_order host l = zeros (len l) <-> l = zeros (len l).
Proof.
  destruct host; cbn [in_host_order]; [tauto|].
  unfold zeros. generalize (Z.to_nat (len l)). intros n. split; intros H.
  - rewrite <- (rev_involutive l), H, rev_repeat. reflexivity.
  - rewrite H. apply rev_repeat.
Qed.

Lemma struct_unpack_i_zero (host : byteorder) (data : bytes) (e : Z) :
  struct_unpack_i host data = Ok e -> (Z.abs e = 0 <-> data = zeros 4).
Proof.
  unfold struct_unpack_i. destruct (Z.eqb_spec (len data) 4) as [E|E]; [|discriminate].
  intros [= <-].
  pose proof (le_value_bound (in_host_order host data)) as Hb.
  rewrite len_in_host_order, E in Hb. change (256 ^ 4) with 4294967296 in Hb.
  change (Z.pow_pos 2 31) with 2147483648. change (Z.pow_pos 2 32) with 4294967296.
  replace (zeros 4) with (zeros (len data)) by (rewrite E; reflexivity).
  rewrite <- in_host_order_zeros.
  rewrite <- (len_in_host_order host data), <- le_value_zero.
  destruct (Z.leb_spec 2147483648 (le_value (in_host_order host data))); lia.
Qed.

(** X7: [wait_for_ack] returns normally exactly for a message of at least
    20 bytes whose type is [NLMSG_ERROR] and whose error code, the four
    bytes after the header, is zero; and a message of another type raises
    the "Invalid response" [NetlinkError] with that type, whatever follows
    the header. *)
Theorem wait_for_ack_returns_on_zero_error_only (host : byteorder)
        (errorcode : Z -> option string) (data : bytes) :
  (wait_for_ack host errorcode data = None
   <-> (NL_HEADER_LEN + 4 <= len data
        /\ struct_unpack host fmt_H (slice data 4 6) = Ok NLMSG_ERROR
        /\ slice data 16 20 = zeros 4))
  /\ (forall m, NL_HEADER_LEN <= len data ->
                struct_unpack host fmt_H (slice data 4 6) = Ok m -> m <> NLMSG_ERROR ->
                wait_for_ack host errorcode data = Some (AckInvalidResponse m)).
Proof.
  unfold NL_HEADER_LEN.
  assert (Hhdr : NL_HEADER_LEN <= len data ->
                 exists h, struct_unpack_IHHII host (slice data 0 16) = Ok h
                           /\ struct_unpack host fmt_H (slice data 4 6) = Ok (mtype h)).
  { unfold NL_HEADER_LEN. intros Hge. unfold struct_unpack_IHHII, NL_HEADER_LEN.
    rewrite len_slice by lia. cbn [Z.sub Z.eqb Z.pos_sub Pos.eqb Z.opp].
    rewrite !slice_slice_head by lia.
    unfold struct_unpack. rewrite !len_slice by lia. cbn. eauto. }
  assert (Hshort : len data < NL_HEADER_LEN ->
                   struct_unpack_IHHII host (slice data 0 16) = Err StructError).
  { unfold NL_HEADER_LEN. intros Hlt. unfold struct_unpack_IHHII, NL_HEADER_LEN.
    replace (len (slice data 0 16) =? 16) with false; [reflexivity|].
    symmetry. apply Z.eqb_neq. unfold slice, len in *.
    rewrite length_firstn, length_skipn. lia. }
  assert (Hbody : slice (skipn 16 data) 0 4 = slice data 16 20) by reflexivity.
  unfold wait_for_ack, parse_nl_message, parse_nl_error.
  change (align NL_HEADER_LEN) with 16. change (Z.to_nat 16) with 16%nat.
  unfold NL_HEADER_LEN in *.
  split.
  - destruct (Z.lt_ge_cases (len data) 16) as [H16|H16].
    { rewrite (Hshort H16). cbn [bind]. split; [discriminate|intros [H _]; lia]. }
    destruct (Hhdr H16) as [h [Hh Hm]]. rewrite Hh, Hm. cbn [bind]. rewrite Hbody.
    destruct (Z.eqb_spec (mtype h) NLMSG_ERROR) as [E|E]; cbn [negb].
    2:{ split; [discriminate|]. intros [_ [[= H] _]]. contradiction. }
    destruct (struct_unpack_i host (slice data 16 20)) as [e|] eqn:He.
    + pose proof (struct_unpack_i_zero _ _ _ He) as Hz.
      destruct (Z.eqb_spec (Z.abs e) 0) as [E0|E0]; cbn [negb].
      * split; [intros _|reflexivity].
        split; [|split; [congruence|tauto]].
        unfold struct_unpack_i in He.
        destruct (Z.eqb_spec (len (slice data 16 20)) 4) as [E4|E4]; [|discriminate].
        unfold slice, len in *. rewrite length_firstn, length_skipn in E4. lia.
      * split.
        -- destruct (2 ^ 31 - 1 <? Z.abs e); [discriminate|].
           destruct (errorcode (Z.abs e)); discriminate.
        -- intros [_ [_ H]]. tauto.
    + split; [discriminate|]. intros [H20 _].
      unfold struct_unpack_i in He. rewrite len_slice in He by lia. discriminate.
  - intros m H16 Hm Hne. destruct (Hhdr H16) as [h [Hh Hm']]. rewrite Hh. cbn [bind].
    assert (mtype h = m) as -> by congruence.
    destruct (Z.eqb_spec m NLMSG_ERROR) as [E|E]; [contradiction|reflexivity].
Qed.

Lemma wait_for_ack_returns_on_zero_error_only_witness :
  wait_for_ack little (fun _ => None) example_ack = None
  /\ wait_for_ack little (fun _ => None) example_message
     = Some (AckInvalidResponse 16).
Proof.
  split.
  - apply (proj1 (wait_for_ack_returns_on_zero_error_only little (fun _ => None) example_ack)).
    split; [vm_compute; discriminate|]. split; reflexivity.
  - apply (proj2 (wait_for_ack_returns_on_zero_error_only little (fun _ => None)
                    example_message) 16).
    + vm_compute. discriminate.
    + reflexivity.
    + discriminate.
Defined.

(** ** What [parse] of an attribute set returns *)

Lemma dict_keys_dict_set {V} (k : string) (v : V) (d : dict V) (k' : string) :
  In k' (dict_keys (dict_set k v d)) <-> k' = k \/ In k' (dict_keys d).
Proof.
  unfold dict_keys. induction d as [|[k0 v0] rest IH]; cbn [dict_set map In fst].
  - intuition congruence.
  - destruct (String.eqb_spec k k0) as [->|Hne]; cbn [map In fst].
    + intuition congruence.
    + rewrite IH. intuition congruence.
Qed.

Lemma NoDup_dict_set {V} (k : string) (v : V) (d : dict V) :
  NoDup (dict_keys d) -> NoDup (dict_keys (dict_set k v d)).
Proof.
  unfold dict_keys. induction d as [|[k0 v0] rest IH]; cbn [dict_set map fst]; intros H.
  - constructor; [intros []|constructor].
  - inversion H as [|? ? Hnin Hnd]; subst.
    destruct (String.eqb_spec k k0) as [->|Hne]; cbn [map fst].
    + constructor; assumption.
    + constructor; [|apply IH, Hnd].
      intros Hin. apply (dict_keys_dict_set k v rest k0) in Hin.
      destruct Hin as [->|Hin]; [congruence|contradiction].
Qed.

Lemma dict_get_dict_set_same {V} (k : string) (v : V) (d : dict V) :
  dict_get k (dict_set k v d) = Some v.
Proof.
  induction d as [|[k0 v0] rest IH]; cbn [dict_set dict_get].
  - now rewrite String.eqb_refl.
  - destruct (String.eqb_spec k k0) as [->|Hne]; cbn [dict_get].
    + now rewrite String.eqb_refl.
    + destruct (String.eqb_spec k k0); [contradiction|exact IH].
Qed.

Lemma dict_get_dict_set_other {V} (k k' : string) (v : V) (d : dict V) :
  k' <> k -> dict_get k' (dict_set k v d) = dict_get k' d.
Proof.
  intros Hne. induction d as [|[k0 v0] rest IH]; cbn [dict_set dict_get].
  - destruct (String.eqb_spec k' k); [contradiction|reflexivity].
  - destruct (String.eqb_spec k k0) as [->|Hne0]; cbn [dict_get].
    + destruct (String.eqb_spec k' k0); [contradiction|reflexivity].
    + now rewrite IH.
Qed.

Lemma dict_get_Some_In_keys {V} (k : string) (d : dict V) (v : V) :
  dict_get k d = Some v -> In k (dict_keys d).
Proof.
  unfold dict_keys. induction d as [|[k0 v0] rest IH]; cbn [dict_get map fst In]; [discriminate|].
  destruct (String.eqb_spec k k0) as [->|Hne]; [now left|]. intros H. right. now apply IH.
Qed.

Lemma some_not_in_false (a b : list string) :
  some_not_in a b = false <-> incl a b.
Proof.
  unfold some_not_in, incl. induction a as [|x a IH]; cbn [existsb In].
  - split; [intros _ ? []|reflexivity].
  - rewrite orb_false_iff, IH, negb_false_iff. split.
    + intros [Hx Ha] y [<-|Hy]; [|now apply Ha].
      apply existsb_exists in Hx. destruct Hx as [z [Hz Hxz]].
      apply String.eqb_eq in Hxz. now subst.
    + intros H. split; [|intros y Hy; apply H; now right].
      apply existsb_exists. exists x. split; [apply H; now left|apply String.eqb_refl].
Qed.

Lemma dict_keys_child_parsers (f : schema -> parser) (subattr : dict schema) :
  dict_keys (child_parsers f subattr) = dict_keys subattr.
Proof.
  unfold dict_keys, child_parsers. rewrite map_map. apply map_ext. now intros [n s].
Qed.

Lemma dict_keys_child_builders (f : schema -> value -> result bytes) (subattr : dict schema) :
  dict_keys (child_builders f subattr) = dict_keys subattr.
Proof.
  unfold dict_keys, child_builders. rewrite map_map. apply map_ext. now intros [n s].
Qed.

Section SetParse.
Variable host : byteorder.
Variable ids : dict Z.

Lemma find_attr_In {T} (sp : dict T) (t : Z) (n : string) (x : T) :
  find_attr ids sp t = Ok (Some (n, x)) ->
  In (n, x) sp /\ dict_get n ids = Some t.
Proof.
  induction sp as [|[k y] rest IH]; cbn [find_attr]; [discriminate|].
  unfold dict_lookup. destruct (dict_get k ids) as [i|] eqn:Hi; [|discriminate].
  cbn [bind]. destruct (Z.eqb_spec t i) as [->|Hne].
  - intros [= <- <-]. split; [now left|exact Hi].
  - intros H. destruct (IH H) as [H1 H2]. split; [now right|exact H2].
Qed.

Lemma find_attr_errors {T} (sp : dict T) (t : Z) (e : error) :
  find_attr ids sp t = Err e ->
  exists k, In k (dict_keys sp) /\ dict_get k ids = None /\ e = KeyError k.
Proof.
  induction sp as [|[k y] rest IH]; cbn [find_attr]; [discriminate|].
  unfold dict_lookup. destruct (dict_get k ids) as [i|] eqn:Hi; cbn [bind].
  - destruct (t =? i); [discriminate|]. intros H.
    destruct (IH H) as [k' [H1 [H2 H3]]]. exists k'. split; [now right|]. now split.
  - intros [= <-]. exists k. split; [now left|]. now split.
Qed.

(** The loop of [NlAttrSchema.parse]: what it leaves in [attr_values]. *)
Lemma set_parse_loop_keys (sp : dict (string * parser)) (attrs : list GNLAttribute) :
  forall acc w d,
    set_parse_loop ids sp attrs acc = (w, Ok d) ->
    (NoDup (dict_keys acc) -> NoDup (dict_keys d))
    /\ (forall k, In k (dict_keys d) ->
                  In k (dict_keys acc)
                  \/ (In k (dict_keys sp)
                      /\ exists a, In a attrs /\ dict_get k ids = Some (atype a)))
    /\ (forall a, In a attrs ->
                  (exists k, In k (dict_keys d) /\ dict_get k ids = Some (atype a))
                  \/ In (mkWarning (atype a) (id_candidates ids (atype a))) w)
    /\ (forall k, In k (dict_keys acc) -> In k (dict_keys d)).
Proof.
  induction attrs as [|a rest IH]; intros acc w d Hp.
  - cbn [set_parse_loop] in Hp. unfold ret in Hp.
    apply pair_equal_spec in Hp. destruct Hp as [<- [= <-]].
    repeat split; try tauto.
  - cbn [set_parse_loop] in Hp.
    destruct (find_attr ids sp (atype a)) as [[[name [cls p]]|]|e] eqn:Hf;
      cbn [lift mbind] in Hp; [| |discriminate].
    + destruct (annotate name cls (p (adata a))) as [w1 [v|e]] eqn:Ha;
        cbn [mbind] in Hp; [|discriminate].
      destruct (set_parse_loop ids sp rest (dict_set name v acc)) as [w2 r] eqn:Hl.
      apply pair_equal_spec in Hp. destruct Hp as [<- ->].
      destruct (IH _ _ _ Hl) as (I1 & I2 & I3 & I4).
      destruct (find_attr_In _ _ _ _ Hf) as [Hin Hid].
      assert (Hname : In name (dict_keys d)).
      { apply I4, dict_keys_dict_set. now left. }
      split; [intros Hnd; apply I1, NoDup_dict_set, Hnd|].
      split; [|split].
      * intros k Hk. destruct (I2 k Hk) as [Hacc|[Hsp [a' [Ha' Hid']]]].
        -- apply dict_keys_dict_set in Hacc. destruct Hacc as [->|Hacc]; [|now left].
           right. split; [apply (in_map fst) in Hin; exact Hin|].
           exists a. split; [now left|exact Hid].
        -- right. split; [exact Hsp|]. exists a'. split; [now right|exact Hid'].
      * intros a' [<-|Ha'].
        -- left. exists name. now split.
        -- destruct (I3 a' Ha') as [H|H]; [now left|].
           right. cbn [app]. apply in_or_app. now right.
      * intros k Hk. apply I4, dict_keys_dict_set. now right.
    + cbn [warn mbind] in Hp.
      destruct (set_parse_loop ids sp rest acc) as [w2 r] eqn:Hl.
      apply pair_equal_spec in Hp. destruct Hp as [<- ->].
      destruct (IH _ _ _ Hl) as (I1 & I2 & I3 & I4).
      split; [exact I1|]. split; [|split; [|exact I4]].
      * intros k Hk. destruct (I2 k Hk) as [Hacc|[Hsp [a' [Ha' Hid']]]]; [now left|].
        right. split; [exact Hsp|]. exists a'. split; [now right|exact Hid'].
      * intros a' [<-|Ha'].
        -- right. now left.
        -- destruct (I3 a' Ha') as [H|H]; [now left|]. right. now right.
Qed.
End SetParse.

(** X8: What [parse] of an attribute set returns, when it returns: a
    mapping without repeated keys; every key is the name of a child whose
    id is the type of an attribute of the buffer; every attribute of the
    buffer either gave a key or a warning, so none is dropped silently; and
    every required name is a key. *)
Theorem parsed_attribute_set_keys (host : byteorder) (ids : dict Z)
        (subattr_schemata : dict schema) (required_attrs : list string)
        (name_mapping : dict string) (data : bytes) (w : list warning) (v : value) :
  parse host ids (NlAttrSchema subattr_schemata required_attrs name_mapping) data
  = (w, Ok v) ->
  exists d attrs,
    v = VDict d
    /\ parse_generic_attributes host data = Ok attrs
    /\ NoDup (dict_keys d)
    /\ (forall k, In k (dict_keys d) ->
                  In k (dict_keys subattr_schemata)
                  /\ exists a, In a attrs /\ dict_get k ids = Some (atype a))
    /\ (forall a, In a attrs ->
                  (exists k, In k (dict_keys d) /\ dict_get k ids = Some (atype a))
                  \/ In (mkWarning (atype a) (id_candidates ids (atype a))) w)
    /\ (forall r, In r required_attrs -> In r (dict_keys d)).
Proof.
  cbn [parse]. unfold NlAttrSchema_parse, NlAttrSchema_parse_attrs.
  destruct (parse_generic_attributes host data) as [attrs|e] eqn:Hs;
    cbn [lift mbind]; [|discriminate].
  destruct (set_parse_loop ids (child_parsers (parse host ids) subattr_schemata) attrs [])
    as [w1 [d|e]] eqn:Hl; cbn [mbind]; [|rewrite app_nil_l; discriminate].
  destruct (some_not_in required_attrs (dict_keys d)) eqn:Hreq;
    cbn [lift ret]; rewrite ?app_nil_l, ?app_nil_r; [discriminate|].
  intros H. apply pair_equal_spec in H. destruct H as [<- [= <-]].
  destruct (set_parse_loop_keys ids _ _ _ _ _ Hl) as (I1 & I2 & I3 & _).
  exists d, attrs. split; [reflexivity|]. split; [reflexivity|].
  split; [apply I1; constructor|].
  split; [|split; [exact I3|]].
  - intros k Hk. destruct (I2 k Hk) as [[]|[Hsp Ha]].
    rewrite dict_keys_child_parsers in Hsp. now split.
  - apply some_not_in_false in Hreq. exact Hreq.
Qed.

Lemma parsed_attribute_set_keys_witness :
  exists d attrs,
    example_value = VDict d
    /\ parse_generic_attributes little example_bytes = Ok attrs
    /\ NoDup (dict_keys d)
    /\ (forall k, In k (dict_keys d) ->
                  In k (dict_keys example_children)
                  /\ exists a, In a attrs /\ dict_get k example_ids = Some (atype a))
    /\ (forall a, In a attrs ->
                  (exists k, In k (dict_keys d) /\ dict_get k example_ids = Some (atype a))
                  \/ In (mkWarning (atype a) (id_candidates example_ids (atype a))) [])
    /\ (forall r, In r ["ATTR_X"] -> In r (dict_keys d)).
Proof.
  apply (parsed_attribute_set_keys little example_ids example_children ["ATTR_X"]
           example_name_mapping example_bytes [] example_value).
  reflexivity.
Defined.


Section SetParseMore.
Variable host : byteorder.
Variable ids : dict Z.

Lemma set_parse_loop_keeps (sp : dict (string * parser)) (k : string) (t : Z)
      (attrs : list GNLAttribute) :
  dict_get k ids = Some t ->
  (forall a, In a attrs -> atype a <> t) ->
  forall acc w d,
    set_parse_loop ids sp attrs acc = (w, Ok d) ->
    dict_get k d = dict_get k acc.
Proof.
  intros Hk. induction attrs as [|a rest IH]; intros Hne acc w d Hp.
  - cbn [set_parse_loop] in Hp. unfold ret in Hp.
    apply pair_equal_spec in Hp. destruct Hp as [_ [= <-]]. reflexivity.
  - assert (Hrest : forall a', In a' rest -> atype a' <> t) by (intros; apply Hne; now right).
    cbn [set_parse_loop] in Hp.
    destruct (find_attr ids sp (atype a)) as [[[name [cls p]]|]|e] eqn:Hf;
      cbn [lift mbind] in Hp; [| |discriminate].
    + destruct (annotate name cls (p (adata a))) as [w1 [v|e]] eqn:Ha;
        cbn [mbind] in Hp; [|discriminate].
      destruct (set_parse_loop ids sp rest (dict_set name v acc)) as [w2 r] eqn:Hl.
      apply pair_equal_spec in Hp. destruct Hp as [_ ->].
      rewrite (IH Hrest _ _ _ Hl).
      apply dict_get_dict_set_other. intros ->.
      destruct (find_attr_In ids _ _ _ _ Hf) as [_ Hid].
      apply (Hne a (or_introl eq_refl)). congruence.
    + cbn [warn mbind] in Hp.
      destruct (set_parse_loop ids sp rest acc) as [w2 r] eqn:Hl.
      apply pair_equal_spec in Hp. destruct Hp as [_ ->].
      apply (IH Hrest _ _ _ Hl).
Qed.
End SetParseMore.

Lemma annotate_Ok (attr_name cls : string) (m : M value) (w : list warning) (v : value) :
  annotate attr_name cls m = (w, Ok v) -> m = (w, Ok v).
Proof.
  destruct m as [w' [v'|[]]]; cbn [annotate]; intros H;
    apply pair_equal_spec in H; destruct H as [-> H]; try discriminate; now rewrite H.
Qed.

(** ** Recognized and unknown attributes *)

Section Recognized.
Variable host : byteorder.
Variable ids : dict Z.

Lemma find_attr_child (f : schema -> parser) (subattr : dict schema) (t : Z) :
  children_have_ids ids subattr = true ->
  find_attr ids (child_parsers f subattr) t
  = Ok (option_map (fun '(n, s) => (n, (class_name s, f s))) (child_of_type ids subattr t)).
Proof.
  induction subattr as [|[name sub] rest IH]; intros H; [reflexivity|].
  cbn [children_have_ids forallb] in H. apply andb_true_iff in H. destruct H as [H1 H2].
  cbn [child_parsers map find_attr child_of_type]. unfold dict_lookup.
  destruct (dict_get name ids) as [i|]; [|discriminate]. cbn [bind].
  rewrite (Z.eqb_sym t i). destruct (i =? t); [reflexivity|]. apply IH, H2.
Qed.

Lemma find_attr_keyerror (f : schema -> parser) (subattr : dict schema) (t : Z) :
  children_have_ids ids subattr = false ->
  child_of_type ids subattr t = None ->
  exists k, In k (dict_keys subattr) /\ dict_get k ids = None
            /\ find_attr ids (child_parsers f subattr) t = Err (KeyError k).
Proof.
  induction subattr as [|[name sub] rest IH]; intros H Hc; [discriminate|].
  cbn [children_have_ids forallb] in H. cbn [child_of_type] in Hc.
  cbn [child_parsers map find_attr dict_keys fst]. unfold dict_lookup.
  destruct (dict_get name ids) as [i|] eqn:Hi; cbn [bind].
  - cbn [andb] in H. rewrite (Z.eqb_sym t i).
    destruct (i =? t); [discriminate|].
    destruct (IH H Hc) as (k & Hk & Hn & Hf).
    exists k. split; [now right|]. split; [exact Hn|exact Hf].
  - exists name. split; [now left|]. split; [exact Hi|reflexivity].
Qed.

Lemma id_candidates_spec (t : Z) (n : string) :
  In n (id_candidates ids t) <-> In (n, t) ids.
Proof.
  unfold id_candidates. rewrite in_map_iff. split.
  - intros ([n' i] & <- & Hin). apply filter_In in Hin. destruct Hin as [Hin He].
    apply Z.eqb_eq in He. cbn [fst]. now subst.
  - intros Hin. exists (n, t). split; [reflexivity|].
    apply filter_In. split; [exact Hin|apply Z.eqb_refl].
Qed.

Lemma fst_annotate (attr_name cls : string) (m : M value) :
  fst (annotate attr_name cls m) = fst m.
Proof. destruct m as [w [v|[]]]; reflexivity. Qed.

(** The keys the loop of [parse] leaves, and where its warnings come
    from. *)
Lemma set_parse_loop_exact (sp : dict (string * parser)) (attrs : list GNLAttribute) :
  forall acc w d,
    set_parse_loop ids sp attrs acc = (w, Ok d) ->
    (forall k, In k (dict_keys d) <->
               In k (dict_keys acc)
               \/ exists a cls p, In a attrs
                                  /\ find_attr ids sp (atype a) = Ok (Some (k, (cls, p))))
    /\ (forall x, In x w ->
                  (exists a, In a attrs /\ find_attr ids sp (atype a) = Ok None
                             /\ x = mkWarning (atype a) (id_candidates ids (atype a)))
                  \/ (exists a name cls p,
                         In a attrs
                         /\ find_attr ids sp (atype a) = Ok (Some (name, (cls, p)))
                         /\ In x (fst (p (adata a))))).
Proof.
  induction attrs as [|a rest IH]; intros acc w d Hp.
  - cbn [set_parse_loop] in Hp. unfold ret in Hp.
    apply pair_equal_spec in Hp. destruct Hp as [<- [= <-]]. split.
    + intros k. split; [tauto|]. intros [H|(a & _ & _ & [] & _)]. exact H.
    + intros x [].
  - cbn [set_parse_loop] in Hp.
    destruct (find_attr ids sp (atype a)) as [[[name [cls p]]|]|e] eqn:Hf;
      cbn [lift mbind] in Hp; [| |discriminate].
    + destruct (annotate name cls (p (adata a))) as [w1 [v|e]] eqn:Ha;
        cbn [mbind] in Hp; [|discriminate].
      destruct (set_parse_loop ids sp rest (dict_set name v acc)) as [w2 r] eqn:Hl.
      apply pair_equal_spec in Hp. destruct Hp as [<- ->].
      destruct (IH _ _ _ Hl) as [I1 I2]. split.
      * intros k. rewrite I1, dict_keys_dict_set. split.
        -- intros [[->|H]|(a' & c' & p' & Hin & Hf')].
           ++ right. exists a, cls, p. split; [now left|exact Hf].
           ++ now left.
           ++ right. exists a', c', p'. split; [now right|exact Hf'].
        -- intros [H|(a' & c' & p' & [<-|Hin] & Hf')].
           ++ left. now right.
           ++ left. left. congruence.
           ++ right. exists a', c', p'. now split.
      * intros x Hx. cbn [app] in Hx. apply in_app_or in Hx. destruct Hx as [Hx|Hx].
        -- right. exists a, name, cls, p. split; [now left|]. split; [exact Hf|].
           rewrite <- (fst_annotate name cls), Ha. exact Hx.
        -- destruct (I2 x Hx) as [(a' & Hin & Hf' & ->)|(a' & n' & c' & p' & Hin & Hf' & Hx')].
           ++ left. exists a'. split; [now right|]. now split.
           ++ right. exists a', n', c', p'. split; [now right|]. now split.
    + cbn [warn mbind] in Hp.
      destruct (set_parse_loop ids sp rest acc) as [w2 r] eqn:Hl.
      apply pair_equal_spec in Hp. destruct Hp as [<- ->].
      destruct (IH _ _ _ Hl) as [I1 I2]. split.
      * intros k. rewrite I1. split.
        -- intros [H|(a' & c' & p' & Hin & Hf')]; [now left|].
           right. exists a', c', p'. split; [now right|exact Hf'].
        -- intros [H|(a' & c' & p' & [<-|Hin] & Hf')]; [now left|congruence|].
           right. exists a', c', p'. now split.
      * intros x [<-|Hx].
        -- left. exists a. split; [now left|]. now split.
        -- destruct (I2 x Hx) as [(a' & Hin & Hf' & ->)|(a' & n' & c' & p' & Hin & Hf' & Hx')].
           ++ left. exists a'. split; [now right|]. now split.
           ++ right. exists a', n', c', p'. split; [now right|]. now split.
Qed.

(** The value of the last attribute of a type is the one that stays. *)
Lemma set_parse_loop_last (sp : dict (string * parser)) (pre post : list GNLAttribute)
      (a : GNLAttribute) (name cls : string) (p : parser) (w : list warning)
      (d : dict value) :
  find_attr ids sp (atype a) = Ok (Some (name, (cls, p))) ->
  (forall a', In a' post -> atype a' <> atype a) ->
  set_parse_loop ids sp (pre ++ a :: post) [] = (w, Ok d) ->
  exists x, snd (p (adata a)) = Ok x /\ dict_get name d = Some x.
Proof.
  intros Hf Hpost. rewrite set_parse_loop_app.
  destruct (set_parse_loop ids sp pre []) as [w0 [d0|e0]]; cbn [mbind]; [|discriminate].
  cbn [set_parse_loop]. rewrite Hf. cbn [lift mbind].
  destruct (annotate name cls (p (adata a))) as [w1 [x|e1]] eqn:Ha; cbn [mbind];
    [|rewrite ?app_nil_l; discriminate].
  apply annotate_Ok in Ha.
  destruct (set_parse_loop ids sp post (dict_set name x d0)) as [w2 [d'|e2]] eqn:Hl;
    [|rewrite ?app_nil_l; discriminate].
  rewrite ?app_nil_l. intros H. apply pair_equal_spec in H. destruct H as [_ [= <-]].
  exists x. split; [now rewrite Ha|].
  destruct (find_attr_In ids _ _ _ _ Hf) as [_ Hid].
  rewrite (set_parse_loop_keeps ids _ name (atype a) post Hid Hpost _ _ _ Hl).
  apply dict_get_dict_set_same.
Qed.
End Recognized.

Section FirstChild.
Variable ids : dict Z.

Lemma find_attr_Ok_child (f : schema -> parser) (subattr : dict schema) (t : Z)
      (r : option (string * (string * parser))) :
  find_attr ids (child_parsers f subattr) t = Ok r ->
  r = option_map (fun '(n, s) => (n, (class_name s, f s))) (child_of_type ids subattr t).
Proof.
  induction subattr as [|[name sub] rest IH]; cbn [child_parsers map find_attr child_of_type].
  - intros [= <-]. reflexivity.
  - unfold dict_lookup. destruct (dict_get name ids) as [i|]; [|discriminate]. cbn [bind].
    rewrite (Z.eqb_sym t i). destruct (i =? t); [intros [= <-]; reflexivity|exact IH].
Qed.

Lemma set_parse_loop_reaches (sp : dict (string * parser)) (pre post : list GNLAttribute)
      (a : GNLAttribute) (w : list warning) (d : dict value) :
  set_parse_loop ids sp (pre ++ a :: post) [] = (w, Ok d) ->
  exists r, find_attr ids sp (atype a) = Ok r.
Proof.
  rewrite set_parse_loop_app.
  destruct (set_parse_loop ids sp pre []) as [w0 [d0|e0]]; cbn [mbind]; [|discriminate].
  cbn [set_parse_loop].
  destruct (find_attr ids sp (atype a)) as [r|e]; [eauto|].
  cbn [lift mbind]. rewrite ?app_nil_r. discriminate.
Qed.
End FirstChild.

(** X9: When the type of an attribute occurs more than once in the
    buffer, [parse] returns the value of the last occurrence, under the
    name of the child the type belongs to: the first child of the scope
    with that id, which is the only one when the ids of the scope are
    distinct. *)
Theorem repeated_attribute_last_wins (host : byteorder) (ids : dict Z)
        (subattr_schemata : dict schema) (required_attrs : list string)
        (name_mapping : dict string) (data : bytes)
        (pre post : list GNLAttribute) (a : GNLAttribute)
        (name : string) (child : schema) (w : list warning) (v : value) :
  child_of_type ids subattr_schemata (atype a) = Some (name, child) ->
  parse_generic_attributes host data = Ok (pre ++ a :: post) ->
  (forall a', In a' post -> atype a' <> atype a) ->
  parse host ids (NlAttrSchema subattr_schemata required_attrs name_mapping) data
  = (w, Ok v) ->
  exists d x,
    v = VDict d
    /\ snd (parse host ids child (adata a)) = Ok x
    /\ dict_get name d = Some x.
Proof.
  intros Hchild Hs Hpost.
  cbn [parse]. unfold NlAttrSchema_parse, NlAttrSchema_parse_attrs.
  rewrite Hs. cbn [lift mbind].
  set (sp := child_parsers (parse host ids) subattr_schemata).
  destruct (set_parse_loop ids sp (pre ++ a :: post) []) as [w1 [d|e]] eqn:El;
    cbn [mbind]; [|discriminate].
  destruct (some_not_in required_attrs (dict_keys d));
    cbn [lift ret]; rewrite ?app_nil_l, ?app_nil_r; [discriminate|].
  intros H. apply pair_equal_spec in H. destruct H as [_ [= <-]].
  destruct (set_parse_loop_reaches ids sp pre post a _ _ El) as [r Hf].
  pose proof (find_attr_Ok_child ids _ _ _ _ Hf) as Hr. rewrite Hchild in Hr.
  cbn [option_map] in Hr. subst r.
  destruct (set_parse_loop_last ids sp pre post a _ _ _ _ _ Hf Hpost El) as (x & Hx & Hd).
  exists d, x. now repeat split.
Qed.

Lemma repeated_attribute_last_wins_witness :
  exists d x,
    VDict [("ATTR_A", VInt 2)] = VDict d
    /\ snd (parse little [("ATTR_A", 1); ("ATTR_B", 1)] (NlAttrSchemaInt fmt_B) [x02]) = Ok x
    /\ dict_get "ATTR_A" d = Some x.
Proof.
  apply (repeated_attribute_last_wins little [("ATTR_A", 1); ("ATTR_B", 1)]
           [("ATTR_A", NlAttrSchemaInt fmt_B); ("ATTR_B", NlAttrSchemaInt fmt_B)] []
           [("a", "ATTR_A"); ("b", "ATTR_B")]
           [x05; x00; x01; x00; x01; x00; x00; x00; x05; x00; x01; x00; x02; x00; x00; x00]
           [mkGNLAttribute 5 1 [x01]] []
           (mkGNLAttribute 5 1 [x02])
           "ATTR_A" (NlAttrSchemaInt fmt_B) [] (VDict [("ATTR_A", VInt 2)])).
  - reflexivity.
  - reflexivity.
  - intros a' [].
  - reflexivity.
Defined.

(** C7, for a scope whose children all have an id in the table: in
    [parse] of an attribute set, an attribute whose type matches no child
    is skipped.  The outcome of [parse], value or error, is the outcome on
    the recognized attributes alone, so such an attribute never makes
    [parse] fail.  It is warned about: the warning is among those of every
    [parse] that returns, and of every [parse] that did not fail at an
    attribute before it; a [parse] that returns has no other warnings than
    these and those from inside the payloads of recognized attributes; and
    the names in a warning are exactly the names to which the id table
    gives the type.  The value tree holds exactly the recognized
    attributes: its keys are the names of the children to which an
    attribute of the buffer belongs, each with the value of the last
    attribute of its type.  Without the condition the search for the child
    itself fails: when some child has no id, an attribute that matches no
    child makes [parse] raise [KeyError] for a child without id, unless
    [parse] failed at an attribute before it. *)
Theorem unknown_attributes_are_skipped (host : byteorder) (ids : dict Z)
        (subattr_schemata : dict schema) (required_attrs : list string)
        (name_mapping : dict string) (data : bytes) (attrs : list GNLAttribute) :
  parse_generic_attributes host data = Ok attrs ->
  let S := NlAttrSchema subattr_schemata required_attrs name_mapping in
  let known := recognized ids subattr_schemata in
  (children_have_ids ids subattr_schemata = true ->
   snd (parse host ids S data)
   = snd (NlAttrSchema_parse_attrs ids
            (child_parsers (parse host ids) subattr_schemata) required_attrs
            (filter known attrs))
   /\ (forall pre a post,
         attrs = pre ++ a :: post -> known a = false ->
         In (mkWarning (atype a) (id_candidates ids (atype a)))
            (fst (parse host ids S data))
         \/ exists e,
             snd (set_parse_loop ids (child_parsers (parse host ids) subattr_schemata)
                                 pre []) = Err e)
   /\ (forall w v,
         parse host ids S data = (w, Ok v) ->
         (forall a, In a attrs -> known a = false ->
                    In (mkWarning (atype a) (id_candidates ids (atype a))) w)
         /\ (forall x, In x w ->
                       (exists a, In a attrs /\ known a = false
                                  /\ x = mkWarning (atype a) (id_candidates ids (atype a)))
                       \/ (exists a name child,
                              In a attrs
                              /\ child_of_type ids subattr_schemata (atype a)
                                 = Some (name, child)
                              /\ In x (fst (parse host ids child (adata a)))))
         /\ exists d,
             v = VDict d
             /\ (forall k, In k (dict_keys d) <->
                           exists a child,
                             In a attrs
                             /\ child_of_type ids subattr_schemata (atype a)
                                = Some (k, child))
             /\ (forall pre a post k child,
                    attrs = pre ++ a :: post ->
                    child_of_type ids subattr_schemata (atype a) = Some (k, child) ->
                    (forall a', In a' post -> atype a' <> atype a) ->
                    exists x, snd (parse host ids child (adata a)) = Ok x
                              /\ dict_get k d = Some x)))
  /\ (forall t n, In n (id_candidates ids t) <-> In (n, t) ids)
  /\ (children_have_ids ids subattr_schemata = false ->
      forall pre a post,
        attrs = pre ++ a :: post -> known a = false ->
        (exists k, In k (dict_keys subattr_schemata) /\ dict_get k ids = None
                   /\ snd (parse host ids S data) = Err (KeyError k))
        \/ exists e,
            snd (set_parse_loop ids (child_parsers (parse host ids) subattr_schemata)
                                pre []) = Err e).
Proof.
  intros Hs S known. subst S known. cbn [parse].
  unfold NlAttrSchema_parse. rewrite Hs. cbn [lift mbind].
  set (sp := child_parsers (parse host ids) subattr_schemata).
  assert (Hparse : forall (m : M value), (let (w', r) := m in ([] ++ w', r)) = m).
  { intros [w' r]. reflexivity. }
  rewrite Hparse.
  split; [|split].
  - intros Hids.
    assert (Hfa : forall t, find_attr ids sp t
                            = Ok (option_map (fun '(n, s) => (n, (class_name s, parse host ids s)))
                                             (child_of_type ids subattr_schemata t))).
    { intros t. apply find_attr_child, Hids. }
    assert (Hf : forall a, recognized ids subattr_schemata a = false ->
                           find_attr ids sp (atype a) = Ok None).
    { intros a Hk. rewrite Hfa. unfold recognized in Hk.
      destruct (child_of_type ids subattr_schemata (atype a)); [discriminate|reflexivity]. }
    assert (Hfk : forall a k cls p,
               find_attr ids sp (atype a) = Ok (Some (k, (cls, p))) ->
               exists child, child_of_type ids subattr_schemata (atype a) = Some (k, child)
                             /\ p = parse host ids child).
    { intros a k cls p E. rewrite Hfa in E.
      destruct (child_of_type ids subattr_schemata (atype a)) as [[n s]|]; [|discriminate].
      cbn [option_map] in E. injection E as -> _ <-. eauto. }
    split; [|split].
    + unfold NlAttrSchema_parse_attrs. rewrite !snd_mbind.
      rewrite <- set_parse_loop_skips; [reflexivity|].
      intros a _ Hk. apply Hf, Hk.
    + intros pre a post -> Hu.
      destruct (set_parse_loop_warns_when_reached ids sp pre post a (Hf a Hu)) as [Hin|He];
        [left|right; exact He].
      unfold NlAttrSchema_parse_attrs. now apply in_fst_mbind.
    + intros w v Hp. unfold NlAttrSchema_parse_attrs in Hp.
      destruct (set_parse_loop ids sp attrs []) as [w1 [d|e]] eqn:El; cbn [mbind] in Hp;
        [|apply pair_equal_spec in Hp; destruct Hp as [_ Hp]; discriminate].
      destruct (some_not_in required_attrs (dict_keys d)); cbn [lift ret] in Hp;
        apply pair_equal_spec in Hp; destruct Hp as [<- Hp]; [discriminate|].
      injection Hp as <-. rewrite app_nil_r.
      destruct (set_parse_loop_exact ids sp attrs _ _ _ El) as [I1 I2].
      split; [|split].
      * intros a Hin Hu. eapply set_parse_loop_warns; [exact El|exact Hin|apply Hf, Hu].
      * intros x Hx. destruct (I2 x Hx) as [(a & Hin & Hfn & ->)|(a & n & c & p & Hin & Hfs & Hxp)].
        -- left. exists a. split; [exact Hin|]. split; [|reflexivity].
           unfold recognized. rewrite Hfa in Hfn.
           destruct (child_of_type ids subattr_schemata (atype a)) as [[? ?]|];
             [discriminate|reflexivity].
        -- right. destruct (Hfk _ _ _ _ Hfs) as (child & Hc & ->).
           exists a, n, child. now repeat split.
      * exists d. split; [reflexivity|]. split.
        -- intros k. rewrite I1. split.
           ++ intros [[]|(a & c & p & Hin & Hfs)].
              destruct (Hfk _ _ _ _ Hfs) as (child & Hc & _). exists a, child. now split.
           ++ intros (a & child & Hin & Hc). right.
              exists a, (class_name child), (parse host ids child). split; [exact Hin|].
              rewrite Hfa, Hc. reflexivity.
        -- intros pre a post k child -> Hc Hpost.
           eapply (set_parse_loop_last ids sp pre post a k (class_name child)
                     (parse host ids child)); [|exact Hpost|exact El].
           rewrite Hfa, Hc. reflexivity.
  - intros t n. apply id_candidates_spec.
  - intros Hids pre a post -> Hk.
    assert (Hc : child_of_type ids subattr_schemata (atype a) = None).
    { unfold recognized in Hk.
      destruct (child_of_type ids subattr_schemata (atype a)); [discriminate|reflexivity]. }
    destruct (find_attr_keyerror ids (parse host ids) _ _ Hids Hc) as (k & Hin & Hn & Hf).
    fold sp in Hf.
    destruct (snd (set_parse_loop ids sp pre [])) as [d0|e0] eqn:Hpre;
      [left|right; eauto].
    exists k. split; [exact Hin|]. split; [exact Hn|].
    unfold NlAttrSchema_parse_attrs. rewrite snd_mbind, set_parse_loop_app, snd_mbind.
    rewrite Hpre. cbn [set_parse_loop]. rewrite snd_mbind, snd_lift, Hf. reflexivity.
Qed.

Lemma unknown_attributes_are_skipped_witness :
  (children_have_ids unknown_example_ids unknown_example_children = true ->
   snd (parse little unknown_example_ids
          (NlAttrSchema unknown_example_children [] [("a", "ATTR_A")])
          unknown_example_bytes)
   = snd (NlAttrSchema_parse_attrs unknown_example_ids
            (child_parsers (parse little unknown_example_ids) unknown_example_children) []
            (filter (recognized unknown_example_ids unknown_example_children)
                    unknown_example_attrs))
   /\ (forall pre a post,
         unknown_example_attrs = pre ++ a :: post ->
         recognized unknown_example_ids unknown_example_children a = false ->
         In (mkWarning (atype a) (id_candidates unknown_example_ids (atype a)))
            (fst (parse little unknown_example_ids
                    (NlAttrSchema unknown_example_children [] [("a", "ATTR_A")])
                    unknown_example_bytes))
         \/ exists e,
             snd (set_parse_loop unknown_example_ids
                    (child_parsers (parse little unknown_example_ids)
                                   unknown_example_children)
                    pre []) = Err e)
   /\ (forall w v,
         parse little unknown_example_ids
               (NlAttrSchema unknown_example_children [] [("a", "ATTR_A")])
               unknown_example_bytes = (w, Ok v) ->
         (forall a, In a unknown_example_attrs ->
                    recognized unknown_example_ids unknown_example_children a = false ->
                    In (mkWarning (atype a) (id_candidates unknown_example_ids (atype a))) w)
         /\ (forall x, In x w ->
                       (exists a, In a unknown_example_attrs
                                  /\ recognized unknown_example_ids
                                                unknown_example_children a = false
                                  /\ x = mkWarning (atype a)
                                                   (id_candidates unknown_example_ids
                                                                  (atype a)))
                       \/ (exists a name child,
                              In a unknown_example_attrs
                              /\ child_of_type unknown_example_ids unknown_example_children
                                               (atype a)
                                 = Some (name, child)
                              /\ In x (fst (parse little unknown_example_ids child
                                                  (adata a)))))
         /\ exists d,
             v = VDict d
             /\ (forall k, In k (dict_keys d) <->
                           exists a child,
                             In a unknown_example_attrs
                             /\ child_of_type unknown_example_ids unknown_example_children
                                              (atype a)
                                = Some (k, child))
             /\ (forall pre a post k child,
                    unknown_example_attrs = pre ++ a :: post ->
                    child_of_type unknown_example_ids unknown_example_children (atype a)
                    = Some (k, child) ->
                    (forall a', In a' post -> atype a' <> atype a) ->
                    exists x, snd (parse little unknown_example_ids child (adata a)) = Ok x
                              /\ dict_get k d = Some x)))
  /\ (forall t n, In n (id_candidates unknown_example_ids t)
                  <-> In (n, t) unknown_example_ids)
  /\ (children_have_ids unknown_example_ids unknown_example_children = false ->
      forall pre a post,
        unknown_example_attrs = pre ++ a :: post ->
        recognized unknown_example_ids unknown_example_children a = false ->
        (exists k, In k (dict_keys unknown_example_children)
                   /\ dict_get k unknown_example_ids = None
                   /\ snd (parse little unknown_example_ids
                             (NlAttrSchema unknown_example_children [] [("a", "ATTR_A")])
                             unknown_example_bytes) = Err (KeyError k))
        \/ exists e,
            snd (set_parse_loop unknown_example_ids
                   (child_parsers (parse little unknown_example_ids)
                                  unknown_example_children)
                   pre []) = Err e).
Proof.
  apply (unknown_attributes_are_skipped little unknown_example_ids
           unknown_example_children [] [("a", "ATTR_A")]
           unknown_example_bytes unknown_example_attrs).
  reflexivity.
Defined.

(** C7 as stated fails where a child of the scope has no id in the
    table, which [from_spec] does not check: the schema compiles, and an
    attribute of a type that matches no child is not skipped but makes
    [parse] raise [KeyError] for that child. *)
Lemma unknown_attribute_raises_when_a_child_has_no_id :
  from_spec (PList [field "ATTR_A" "u8"; field "ATTR_B" "u8"])
  = Ok (NlAttrSchema [("ATTR_A", NlAttrSchemaInt fmt_B); ("ATTR_B", NlAttrSchemaInt fmt_B)]
                     [] [("a", "ATTR_A"); ("b", "ATTR_B")])
  /\ parse_generic_attributes little [x05; x00; x63; x00; x07; x00; x00; x00]
     = Ok [mkGNLAttribute 5 99 [x07]]
  /\ child_of_type [("ATTR_A", 1)]
                   [("ATTR_A", NlAttrSchemaInt fmt_B); ("ATTR_B", NlAttrSchemaInt fmt_B)] 99
     = None
  /\ parse little [("ATTR_A", 1)]
           (NlAttrSchema [("ATTR_A", NlAttrSchemaInt fmt_B); ("ATTR_B", NlAttrSchemaInt fmt_B)]
                         [] [("a", "ATTR_A"); ("b", "ATTR_B")])
           [x05; x00; x63; x00; x07; x00; x00; x00]
     = ([], Err (KeyError "ATTR_B")).
Proof.
  repeat split.
Qed.

(** ** The exceptions of [parse] *)

Lemma parse_generic_attributes_errors (host : byteorder) (data : bytes) (e : error) :
  parse_generic_attributes host data = Err e -> e = StructError \/ e = AssertionError.
Proof.
  assert (H : forall fuel i acc,
             parse_loop host fuel data i acc = Err e ->
             e = StructError \/ e = AssertionError \/ e = OutOfFuel).
  { induction fuel as [|fuel IH]; intros i acc; cbn [parse_loop].
    - intros [= <-]. tauto.
    - destruct (i <? len data); [|discriminate].
      destruct (struct_unpack_HH host (slice data i (i + attrib_hdr_len)))
        as [[nla_len nla_type]|e0] eqn:Hu; cbn [bind].
      + destruct (nla_len =? 0); [intros [= <-]; tauto|apply IH].
      + intros [= <-]. unfold struct_unpack_HH, struct_unpack in Hu.
        repeat match type of Hu with
               | context [if ?c then _ else _] => destruct c; cbn [bind] in Hu
               end; try discriminate; injection Hu as <-; tauto. }
  intros He. pose proof (parse_generic_attributes_total host data) as Ht.
  unfold parse_generic_attributes in *.
  destruct (H _ _ _ He) as [?|[?|?]]; [tauto|tauto|].
  subst e. contradiction.
Qed.

Lemma list_parse_loop_errors (p : parser) (Q : error -> Prop) :
  Q IndexError ->
  (forall data e, snd (p data) = Err e -> Q e) ->
  forall attrs ret_ e, snd (list_parse_loop p attrs ret_) = Err e -> Q e.
Proof.
  intros Hi Hp. induction attrs as [|a rest IH]; intros ret_ e; [discriminate|].
  cbn [list_parse_loop]. rewrite snd_mbind.
  destruct (snd (p (adata a))) as [v|e0] eqn:Hv.
  - rewrite snd_mbind, snd_lift. unfold list_setitem.
    destruct (_ && _); [apply IH|intros [= <-]; exact Hi].
  - intros [= <-]. eapply Hp, Hv.
Qed.

Lemma array_parse_loop_errors (p : parser) (n : Z) (Q : error -> Prop) :
  0 < n ->
  (forall data e, snd (p data) = Err e -> Q e) ->
  forall fuel data ret_ e,
    (List.length data < fuel)%nat ->
    snd (array_parse_loop fuel p n data ret_) = Err e -> Q e.
Proof.
  intros Hn Hp. induction fuel as [|fuel IH]; intros data ret_ e Hf; [lia|].
  cbn [array_parse_loop]. destruct data as [|b0 d0] eqn:Ed; [discriminate|].
  rewrite snd_mbind.
  destruct (snd (p (slice (b0 :: d0) 0 n))) as [v|e0] eqn:Hv.
  - apply IH. rewrite length_skipn. cbn [List.length] in *. lia.
  - intros [= <-]. eapply Hp, Hv.
Qed.

Lemma annotate_errors (attr_name cls : string) (m : M value) (e : error) :
  (forall e0, snd m = Err e0 -> good_error e0) ->
  snd (annotate attr_name cls m) = Err e ->
  e = NetlinkMissing
  \/ exists e' n c, e = NetlinkWhileParsing e' n c /\ is_NetlinkError e' = false.
Proof.
  destruct m as [w [v|e0]]; cbn [snd]; intros Hg; [discriminate|].
  destruct (Hg e0 eq_refl) as [Hfuel Hshape].
  destruct e0; cbn [annotate snd]; intros [= <-];
    try (right; do 3 eexists; split; [reflexivity|reflexivity]).
  - now left.
  - right. do 3 eexists. split; [reflexivity|]. eapply Hshape. reflexivity.
  - contradiction.
Qed.

Lemma set_parse_loop_errors (ids : dict Z) (sp : dict (string * parser)) :
  Forall (fun '(_, (_, p)) => forall data e, snd (p data) = Err e -> good_error e) sp ->
  forall attrs acc e,
    snd (set_parse_loop ids sp attrs acc) = Err e ->
    (exists k, In k (dict_keys sp) /\ dict_get k ids = None /\ e = KeyError k)
    \/ e = NetlinkMissing
    \/ exists e' n c, e = NetlinkWhileParsing e' n c /\ is_NetlinkError e' = false.
Proof.
  intros Hsp. induction attrs as [|a rest IH]; intros acc e; [discriminate|].
  cbn [set_parse_loop]. rewrite snd_mbind, snd_lift.
  destruct (find_attr ids sp (atype a)) as [[[name [cls p]]|]|e0] eqn:Hf.
  - rewrite snd_mbind.
    destruct (find_attr_In ids _ _ _ _ Hf) as [Hin _].
    rewrite Forall_forall in Hsp. specialize (Hsp _ Hin). cbn beta iota in Hsp.
    destruct (snd (annotate name cls (p (adata a)))) as [v|e1] eqn:Ha; [apply IH|].
    intros [= <-]. right. eapply annotate_errors; [|exact Ha].
    intros e0 He0. eapply Hsp, He0.
  - rewrite snd_mbind. cbn [warn snd]. apply IH.
  - intros [= <-]. left. eapply find_attr_errors, Hf.
Qed.

Lemma parse_errors_good (host : byteorder) (ids : dict Z) (s : schema) :
  forall data e, snd (parse host ids s data) = Err e -> good_error e.
Proof.
  assert (Hsplit : forall data e, parse_generic_attributes host data = Err e -> good_error e).
  { intros data e He. apply parse_generic_attributes_errors in He.
    destruct He as [->| ->]; (split; [discriminate|intros; discriminate]). }
  induction s as [fmt| | |sub IH|sub IH|subattr req nm IH] using schema_nested_ind;
    intros data e; cbn [parse].
  - unfold NlAttrSchemaInt_parse, struct_unpack. rewrite snd_lift.
    destruct (_ =? _); cbn [bind]; intros [= <-]. split; [discriminate|intros; discriminate].
  - unfold NlAttrSchemaStr_parse, decode. rewrite snd_lift.
    destruct (utf8_decode data) as [t|]; cbn [bind].
    + destruct (rev t); [|destruct (_ =? _); discriminate].
      intros [= <-]. split; [discriminate|intros; discriminate].
    + intros [= <-]. split; [discriminate|intros; discriminate].
  - discriminate.
  - unfold NlAttrSchemaList_parse. rewrite snd_mbind, snd_lift.
    destruct (parse_generic_attributes host data) as [[|a attrs]|e0] eqn:Hs.
    + discriminate.
    + rewrite snd_mbind.
      destruct (snd (list_parse_loop (parse host ids sub) (a :: attrs) _)) as [l|e1] eqn:Hl;
        [discriminate|].
      intros [= <-].
      eapply (list_parse_loop_errors _ good_error); [|exact IH|exact Hl].
      split; [discriminate|intros; discriminate].
    + intros [= <-]. eapply Hsplit, Hs.
  - unfold NlAttrSchemaArray_parse. destruct (size sub) as [n|] eqn:Hsz.
    + destruct sub as [fmt| | | | |]; try discriminate.
      cbn [size] in Hsz. injection Hsz as <-. rewrite snd_mbind.
      destruct (snd (array_parse_loop (S (List.length data)) _ _ data [])) as [l|e1] eqn:Hl;
        [discriminate|].
      intros [= <-].
      eapply (array_parse_loop_errors _ _ good_error (calcsize_pos fmt) IH);
        [|exact Hl]. lia.
    + rewrite snd_lift. intros [= <-]. split; [discriminate|intros; discriminate].
  - unfold NlAttrSchema_parse. rewrite snd_mbind, snd_lift.
    destruct (parse_generic_attributes host data) as [attrs|e0] eqn:Hs;
      [|intros [= <-]; eapply Hsplit, Hs].
    unfold NlAttrSchema_parse_attrs. rewrite snd_mbind.
    assert (Hsp : Forall (fun '(_, (_, p)) =>
                            forall data e, snd (p data) = Err e -> good_error e)
                         (child_parsers (parse host ids) subattr)).
    { clear -IH. induction IH as [|[n sub] rest Hsub _ IHr];
        cbn [child_parsers map]; constructor; [exact Hsub|exact IHr]. }
    destruct (snd (set_parse_loop ids _ attrs [])) as [d|e1] eqn:Hl.
    + destruct (some_not_in req (dict_keys d)); [|discriminate].
      rewrite snd_lift. intros [= <-]. split; [discriminate|intros; discriminate].
    + intros [= <-].
      destruct (set_parse_loop_errors ids _ Hsp _ _ _ Hl)
        as [(k & _ & _ & ->)|[->|(e' & n & c & -> & Hn)]].
      * split; [discriminate|intros; discriminate].
      * split; [discriminate|intros; discriminate].
      * split; [discriminate|]. intros e'' n' c' [= <- _ _]. exact Hn.
Qed.

(** X10: The exceptions of [parse] of an attribute set: a [struct.error] or
    an [AssertionError] of the splitter on the buffer itself; a [KeyError]
    for a child whose name has no id in the table; and otherwise only
    [NetlinkError]s, the one for missing required attributes or one that
    wraps an exception of a child that was not itself a [NetlinkError].  No
    other exception of a child comes through. *)
Theorem attribute_set_parse_exceptions (host : byteorder) (ids : dict Z)
        (subattr_schemata : dict schema) (required_attrs : list string)
        (name_mapping : dict string) (data : bytes) (e : error) :
  snd (parse host ids (NlAttrSchema subattr_schemata required_attrs name_mapping) data)
  = Err e ->
  (parse_generic_attributes host data = Err e /\ (e = StructError \/ e = AssertionError))
  \/ (exists k, In k (dict_keys subattr_schemata) /\ dict_get k ids = None
                /\ e = KeyError k)
  \/ e = NetlinkMissing
  \/ (exists e' n c, e = NetlinkWhileParsing e' n c /\ is_NetlinkError e' = false).
Proof.
  cbn [parse]. unfold NlAttrSchema_parse. rewrite snd_mbind, snd_lift.
  destruct (parse_generic_attributes host data) as [attrs|e0] eqn:Hs.
  2:{ intros [= <-]. left. split; [reflexivity|].
      eapply parse_generic_attributes_errors, Hs. }
  unfold NlAttrSchema_parse_attrs. rewrite snd_mbind.
  assert (Hsp : Forall (fun '(_, (_, p)) =>
                          forall data e, snd (p data) = Err e -> good_error e)
                       (child_parsers (parse host ids) subattr_schemata)).
  { induction subattr_schemata as [|[n sub] rest IHr];
      cbn [child_parsers map]; constructor; [apply parse_errors_good|exact IHr]. }
  destruct (snd (set_parse_loop ids _ attrs [])) as [d|e1] eqn:Hl.
  - destruct (some_not_in required_attrs (dict_keys d)); [|discriminate].
    rewrite snd_lift. intros [= <-]. right. right. now left.
  - intros [= <-]. right.
    destruct (set_parse_loop_errors ids _ Hsp _ _ _ Hl) as [(k & Hk & Hn & ->)|[->|H]].
    + left. exists k. rewrite dict_keys_child_parsers in Hk. now repeat split.
    + right. now left.
    + right. now right.
Qed.

Lemma attribute_set_parse_exceptions_witness :
  (parse_generic_attributes little [x05; x00; x02; x00; xff; x00; x00; x00]
   = Err (NetlinkWhileParsing UnicodeError "ATTR_NAME" "NlAttrSchemaStr")
   /\ (NetlinkWhileParsing UnicodeError "ATTR_NAME" "NlAttrSchemaStr" = StructError
       \/ NetlinkWhileParsing UnicodeError "ATTR_NAME" "NlAttrSchemaStr" = AssertionError))
  \/ (exists k, In k (dict_keys example_children) /\ dict_get k example_ids = None
                /\ NetlinkWhileParsing UnicodeError "ATTR_NAME" "NlAttrSchemaStr"
                   = KeyError k)
  \/ NetlinkWhileParsing UnicodeError "ATTR_NAME" "NlAttrSchemaStr" = NetlinkMissing
  \/ (exists e' n c,
         NetlinkWhileParsing UnicodeError "ATTR_NAME" "NlAttrSchemaStr"
         = NetlinkWhileParsing e' n c
         /\ is_NetlinkError e' = false).
Proof.
  apply (attribute_set_parse_exceptions little example_ids example_children ["ATTR_X"]
           example_name_mapping [x05; x00; x02; x00; xff; x00; x00; x00]).
  reflexivity.
Defined.

(** ** Compiled schemas *)

Lemma dict_values_dict_set {V} (k : string) (v : V) (d : dict V) (x : V) :
  In x (map snd (dict_set k v d)) -> x = v \/ In x (map snd d).
Proof.
  induction d as [|[k0 v0] rest IH]; cbn [dict_set map In snd].
  - intuition congruence.
  - destruct (String.eqb k k0); cbn [map In snd]; [intuition congruence|].
    intros [H|H]; [tauto|]. destruct (IH H); tauto.
Qed.

Lemma from_spec_loop_names (common_prefix : string) (spec : list (pyspec * result schema)) :
  forall subattr name_mapping required_attrs s,
    NoDup (dict_keys subattr) -> NoDup (dict_keys name_mapping) ->
    incl required_attrs (dict_keys subattr) ->
    incl (map snd name_mapping) (dict_keys subattr) ->
    from_spec_loop common_prefix spec subattr name_mapping required_attrs = Ok s ->
    exists subattr' required_attrs' name_mapping',
      s = NlAttrSchema subattr' required_attrs' name_mapping'
      /\ NoDup (dict_keys subattr') /\ NoDup (dict_keys name_mapping')
      /\ incl required_attrs' (dict_keys subattr')
      /\ incl (map snd name_mapping') (dict_keys subattr')
      /\ (forall n, In n (dict_keys subattr') <->
                    In n (dict_keys subattr)
                    \/ exists f, In f (map fst spec) /\ field_name f = Ok n)
      /\ (forall r, In r required_attrs' <->
                    In r required_attrs
                    \/ exists f, In f (map fst spec) /\ field_name f = Ok r
                                 /\ field_required f = true).
Proof.
  induction spec as [|[f compiled] rest IH]; intros sa nm req s H1 H2 H3 H4 H.
  - injection H as <-. do 3 eexists. split; [reflexivity|].
    repeat split; try assumption; try tauto.
    + intros [?|[f [[] _]]]. assumption.
    + intros [?|[f [[] _]]]. assumption.
  - cbn [from_spec_loop] in H.
    destruct compiled as [c|]; [|discriminate]. cbn [bind] in H.
    destruct (field_name f) as [name|] eqn:Hn; [|discriminate]. cbn [bind] in H.
    apply IH in H.
    + destruct H as (sa' & req' & nm' & -> & I1 & I2 & I3 & I4 & I5 & I6).
      do 3 eexists. split; [reflexivity|].
      split; [exact I1|]. split; [exact I2|]. split; [exact I3|]. split; [exact I4|].
      split.
      * intros n. rewrite I5, dict_keys_dict_set. cbn [map fst In]. split.
        -- intros [[->|Hin]|[f' [Hf' Hn']]]; [right; exists f; tauto|tauto|].
           right. exists f'. tauto.
        -- intros [Hin|[f' [[<-|Hf'] Hn']]]; [tauto| |right; exists f'; tauto].
           left. left. congruence.
      * intros r. rewrite I6. cbn [map fst In]. split.
        -- intros [Hin|[f' [Hf' Hn']]]; [|right; exists f'; tauto].
           destruct f as [| |? ? ? ? []]; cbn [field_required] in *; try tauto.
           apply in_app_or in Hin. destruct Hin as [Hin|[<-|[]]]; [tauto|].
           right. eexists. split; [left; reflexivity|]. split; [exact Hn|reflexivity].
        -- intros [Hin|[f' [[<-|Hf'] [Hn' Hr']]]];
             [|left|right; exists f'; tauto].
           ++ left. destruct f as [| |? ? ? ? []]; try assumption.
              apply in_or_app. now left.
           ++ destruct f as [| |? ? ? ? []]; cbn [field_required] in Hr';
                try discriminate.
              apply in_or_app. right. left. congruence.
    + now apply NoDup_dict_set.
    + now apply NoDup_dict_set.
    + intros r Hr. apply dict_keys_dict_set.
      assert (Hr' : In r (req ++ [name])).
      { destruct f as [| |? ? ? ? []]; try (apply in_or_app; left; exact Hr). exact Hr. }
      apply in_app_or in Hr'. destruct Hr' as [Hr'|[<-|[]]]; [right; now apply H3|now left].
    + intros x Hx. apply dict_keys_dict_set. apply dict_values_dict_set in Hx.
      destruct Hx as [->|Hx]; [now left|right; now apply H4].
Qed.

Lemma NlAttrSchema_from_spec_names (from_spec' : pyspec -> result schema)
      (fields : list pyspec) (s : schema) :
  Forall (fun f => forall c, from_spec' f = Ok c -> names_resolve c = true) fields ->
  NlAttrSchema_from_spec (map (fun f => (f, from_spec' f)) fields) = Ok s ->
  names_resolve s = true.
Proof.
  intros Hall Hf. unfold NlAttrSchema_from_spec in Hf.
  destruct (field_names _); [|discriminate]. cbn [bind] in Hf.
  pose proof Hf as Hf'.
  eapply (from_spec_loop_children (fun c => names_resolve c = true)) in Hf.
  - destruct Hf as (sa & req & nm & -> & HF).
    apply from_spec_loop_names in Hf';
      [|constructor|constructor|intros ? []|intros ? []].
    destruct Hf' as (sa' & req' & nm' & [= <- <- <-] & I1 & I2 & I3 & I4 & _).
    cbn [names_resolve].
    apply some_not_in_false in I3, I4.
    rewrite I3, I4. cbn [negb andb].
    apply forallb_forall. rewrite Forall_forall in HF.
    intros [n sub] Hin. exact (HF _ Hin).
  - clear -Hall. induction Hall; cbn [map]; constructor; auto.
  - constructor.
Qed.

Lemma new_collection_names (cls : schema_cls) (sub s : schema) :
  names_resolve sub = true -> new_collection cls sub = Ok s ->
  names_resolve s = true.
Proof.
  intros Hs. unfold new_collection. destruct cls.
  1-4: intros [= <-]; exact Hs.
  destruct (size sub) eqn:E; [|discriminate].
  intros [= <-]. exact Hs.
Qed.

Lemma from_type_name_names (type_name : string) (s : schema) :
  from_type_name type_name = Ok s -> names_resolve s = true.
Proof.
  unfold from_type_name. destruct (schema_classes type_name) as [[]|]; cbn [bind];
    try discriminate; intros [= <-]; reflexivity.
Qed.

Lemma from_spec_names_resolve (spec : pyspec) :
  forall s, from_spec spec = Ok s -> names_resolve s = true.
Proof.
  induction spec as [str|fields IH|name python_name type subelem_type required IHt IHs]
    using pyspec_nested_ind; intros s H.
  - discriminate.
  - cbn [from_spec] in H. eapply NlAttrSchema_from_spec_names; eassumption.
  - cbn [from_spec] in H. destruct type as [[type_name|fields|]|]; try discriminate.
    + destruct (schema_classes type_name) as [cls|]; [|discriminate]. cbn [bind] in H.
      assert (Hcoll : forall cls',
                 match subelem_type with
                 | None => Err (KeyError "subelem_type")
                 | Some (PStr s0) =>
                     do subelem_schema <- from_type_name s0;
                     new_collection cls' subelem_schema
                 | Some subelem_spec =>
                     do subelem_schema <- from_spec subelem_spec;
                     new_collection cls' subelem_schema
                 end = Ok s -> names_resolve s = true).
      { intros cls' Hc. destruct subelem_type as [sub_spec|]; [|discriminate].
        specialize (IHs _ eq_refl).
        destruct sub_spec as [st|sl|sn sp sty ssub sreq].
        - destruct (from_type_name st) as [sub|] eqn:E; [|discriminate]. cbn [bind] in Hc.
          eapply new_collection_names; [eapply from_type_name_names|]; eassumption.
        - destruct (from_spec (PList sl)) as [sub|] eqn:E; [|discriminate].
          cbn [bind] in Hc.
          eapply new_collection_names; [eapply IHs; reflexivity|]; eassumption.
        - destruct (from_spec (PDict sn sp sty ssub sreq)) as [sub|] eqn:E; [|discriminate].
          cbn [bind] in Hc.
          eapply new_collection_names; [eapply IHs; reflexivity|]; eassumption. }
      destruct cls; try (injection H as <-; reflexivity); eapply Hcoll; exact H.
    + exact (IHt _ eq_refl s H).
Qed.

(** X11: In a schema that [from_spec] compiled, the names resolve: in
    every attribute set every required name and every target of the name
    mapping is the name of a child; and every array is over elements of a
    fixed size. *)
Theorem from_spec_well_formed (spec : pyspec) (s : schema) :
  from_spec spec = Ok s -> names_resolve s = true /\ arrays_sized s = true.
Proof.
  intros H. split.
  - eapply from_spec_names_resolve, H.
  - eapply from_spec_arrays_sized, H.
Qed.

Lemma from_spec_well_formed_witness :
  exists s,
    getfamily_schema = Ok s
    /\ names_resolve s = true /\ arrays_sized s = true.
Proof.
  eexists. split.
  - vm_compute. reflexivity.
  - apply (from_spec_well_formed getfamily_spec). vm_compute. reflexivity.
Defined.

(** X12: [from_spec] of a list of fields, when it returns: the children of
    the attribute set are exactly the names of the fields, the required
    attributes are exactly the names of the fields marked required, and
    every field has a name and compiled. *)
Theorem from_spec_children_are_the_fields (fields : list pyspec) (s : schema) :
  from_spec (PList fields) = Ok s ->
  exists subattr_schemata required_attrs name_mapping,
    s = NlAttrSchema subattr_schemata required_attrs name_mapping
    /\ (forall n, In n (dict_keys subattr_schemata) <->
                  exists f, In f fields /\ field_name f = Ok n)
    /\ (forall r, In r required_attrs <->
                  exists f, In f fields /\ field_name f = Ok r
                            /\ field_required f = true)
    /\ (forall f, In f fields -> exists n c, field_name f = Ok n /\ from_spec f = Ok c).
Proof.
  cbn [from_spec]. unfold NlAttrSchema_from_spec.
  destruct (field_names _) as [names|]; [|discriminate]. cbn [bind].
  intros H. pose proof H as H'.
  apply from_spec_loop_names in H; [|constructor|constructor|intros ? []|intros ? []].
  destruct H as (sa & req & nm & -> & _ & _ & _ & _ & I5 & I6).
  exists sa, req, nm. split; [reflexivity|].
  rewrite map_map in I5, I6. cbn [fst] in I5, I6. rewrite map_id in I5, I6.
  split; [|split].
  - intros n. rewrite I5. cbn [dict_keys map In]. tauto.
  - intros r. rewrite I6. cbn [In]. tauto.
  - clear I5 I6. revert H'. generalize (@nil (string * schema)) (@nil (string * string))
      (@nil string) (commonprefix names).
    intros sa0 nm0 req0 cp0.
    generalize (if endswith_underscore cp0 then cp0 else (cp0 ++ "_")%string).
    intros cp. revert sa0 nm0 req0.
    induction fields as [|f rest IH]; intros sa0 nm0 req0 H f' Hin; [destruct Hin|].
    cbn [map from_spec_loop] in H.
    destruct (from_spec f) as [c|] eqn:Hc; [|discriminate]. cbn [bind] in H.
    destruct (field_name f) as [n|] eqn:Hn; [|discriminate]. cbn [bind] in H.
    destruct Hin as [<-|Hin]; [eauto|].
    eapply IH; eassumption.
Qed.

Lemma from_spec_children_are_the_fields_witness :
  exists s,
    from_spec (PList [field "ATTR_X" "u32"; field "ATTR_NAME" "str"]) = Ok s
    /\ exists subattr_schemata required_attrs name_mapping,
        s = NlAttrSchema subattr_schemata required_attrs name_mapping
        /\ (forall n, In n (dict_keys subattr_schemata) <->
                      exists f, In f [field "ATTR_X" "u32"; field "ATTR_NAME" "str"]
                                /\ field_name f = Ok n)
        /\ (forall r, In r required_attrs <->
                      exists f, In f [field "ATTR_X" "u32"; field "ATTR_NAME" "str"]
                                /\ field_name f = Ok r
                                /\ field_required f = true)
        /\ (forall f, In f [field "ATTR_X" "u32"; field "ATTR_NAME" "str"] ->
                      exists n c, field_name f = Ok n /\ from_spec f = Ok c).
Proof.
  eexists. split.
  - vm_compute. reflexivity.
  - apply (from_spec_children_are_the_fields [field "ATTR_X" "u32"; field "ATTR_NAME" "str"]).
    vm_compute. reflexivity.
Defined.

(** ** Lists *)

Lemma numbered_from_bound (host : byteorder) (attrs : list GNLAttribute) :
  forall i pieces,
    numbered_from i attrs ->
    Forall2 (fun a piece =>
               tlv host (atype a) (adata a) = Ok piece
               /\ alength a = attrib_hdr_len + len (adata a)) attrs pieces ->
    attrs <> [] -> i + len attrs <= 65535.
Proof.
  induction attrs as [|a rest IH]; intros i pieces Hn HF Hne; [contradiction|].
  inversion HF as [|? p ? ps [Ht _] HF']; subst.
  destruct Hn as [Ha Hn]. rewrite len_cons.
  destruct rest as [|a' rest'].
  - apply tlv_inv in Ht. destruct Ht as (hdr & Hp & _).
    apply struct_pack_HH_inv in Hp. change (len (@nil GNLAttribute)) with 0. lia.
  - specialize (IH (i + 1) ps Hn HF' ltac:(discriminate)). lia.
Qed.

Lemma Forall2_len {A B} (R : A -> B -> Prop) (l1 : list A) (l2 : list B) :
  Forall2 R l1 l2 -> len l1 = len l2.
Proof. intros H. unfold len. now rewrite (Forall2_length H). Qed.

(** X13: [build] of a list writes one attribute per element, in order, with
    the types 1, 2, ... and the element's payload, its length field the
    header size plus the payload length; the splitter returns exactly these
    attributes; and no list of more than 65535 elements is built. *)
Theorem list_build_numbers_from_one (host : byteorder) (ids : dict Z)
        (sub : schema) (attr_values : value) (b : bytes) :
  build host ids (NlAttrSchemaList sub) attr_values = Ok b ->
  exists items attrs,
    py_iter attr_values = Ok items
    /\ parse_generic_attributes host b = Ok attrs
    /\ numbered_from 0 attrs
    /\ Forall2 (fun v a => build host ids sub v = Ok (adata a)
                           /\ alength a = attrib_hdr_len + len (adata a)) items attrs
    /\ len items <= 65535.
Proof.
  cbn [build]. unfold NlAttrSchemaList_build.
  destruct (py_iter attr_values) as [items|] eqn:Hi; [|discriminate]. cbn [bind].
  intros H. apply list_build_loop_pieces in H.
  destruct H as (attrs & pieces & -> & Hp & Hv & Hn).
  exists items, attrs. split; [reflexivity|].
  split; [apply parse_generic_attributes_pieces, Hp|].
  split; [exact Hn|]. split.
  - clear Hn Hi. revert pieces Hp. induction Hv as [|v a items attrs Hva Hv IH];
      intros pieces Hp; [constructor|].
    inversion Hp as [|? p ? ps [_ Hl] Hp']; subst.
    constructor; [now split|]. exact (IH _ Hp').
  - rewrite (Forall2_len _ _ _ Hv).
    destruct attrs as [|a rest]; [cbn; lia|].
    pose proof (numbered_from_bound host _ 0 pieces Hn Hp ltac:(discriminate)). lia.
Qed.

Lemma list_build_numbers_from_one_witness :
  exists b,
    build little [] (NlAttrSchemaList (NlAttrSchemaInt fmt_B)) (VList [VInt 7; VInt 9]) = Ok b
    /\ exists items attrs,
        py_iter (VList [VInt 7; VInt 9]) = Ok items
        /\ parse_generic_attributes little b = Ok attrs
        /\ numbered_from 0 attrs
        /\ Forall2 (fun v a => build little [] (NlAttrSchemaInt fmt_B) v = Ok (adata a)
                               /\ alength a = attrib_hdr_len + len (adata a)) items attrs
        /\ len items <= 65535.
Proof.
  eexists. split.
  - vm_compute. reflexivity.
  - apply (list_build_numbers_from_one little [] (NlAttrSchemaInt fmt_B)
             (VList [VInt 7; VInt 9])).
    vm_compute. reflexivity.
Defined.

Lemma list_setitem_spec {A} (ret_ : list A) (t : Z) (v : A) (ret' : list A) :
  list_setitem ret_ (t - 1) v = Ok ret' ->
  0 <= list_slot (len ret_) t < len ret_
  /\ List.length ret' = List.length ret_
  /\ nth_error ret' (Z.to_nat (list_slot (len ret_) t)) = Some v
  /\ forall i, Z.of_nat i <> list_slot (len ret_) t -> nth_error ret' i = nth_error ret_ i.
Proof.
  unfold list_setitem, list_slot.
  set (j := if t - 1 <? 0 then t - 1 + len ret_ else t - 1).
  destruct (Z.leb_spec 0 j) as [H0|]; [|discriminate].
  destruct (Z.ltb_spec j (len ret_)) as [H1|]; [|discriminate].
  cbn [andb]. intros H.
  assert (E : ret' = firstn (Z.to_nat j) ret_ ++ v :: skipn (S (Z.to_nat j)) ret_)
    by congruence.
  clear H. subst ret'. unfold len in *.
  assert (Hf : List.length (firstn (Z.to_nat j) ret_) = Z.to_nat j).
  { rewrite length_firstn. lia. }
  split; [lia|]. split; [|split].
  - rewrite length_app, Hf. cbn [List.length]. rewrite length_skipn. lia.
  - rewrite nth_error_app2 by lia. rewrite Hf, Nat.sub_diag. reflexivity.
  - intros i Hi. destruct (Nat.lt_ge_cases i (Z.to_nat j)) as [Hlt|Hge].
    + rewrite nth_error_app1 by lia. rewrite nth_error_firstn.
      destruct (Nat.ltb_spec i (Z.to_nat j)); [reflexivity|lia].
    + rewrite nth_error_app2 by lia. rewrite Hf.
      destruct (i - Z.to_nat j)%nat as [|m] eqn:Em; [lia|].
      cbn [nth_error]. rewrite nth_error_skipn. f_equal. lia.
Qed.

Lemma list_parse_loop_slots (p : parser) (attrs : list GNLAttribute) :
  forall ret_ w l,
    list_parse_loop p attrs ret_ = (w, Ok l) ->
    List.length l = List.length ret_
    /\ forall i x,
        nth_error l i = Some x ->
        (nth_error ret_ i = Some x
         /\ forall a, In a attrs -> list_slot (len ret_) (atype a) <> Z.of_nat i)
        \/ exists pre a post,
            attrs = pre ++ a :: post
            /\ list_slot (len ret_) (atype a) = Z.of_nat i
            /\ (forall a', In a' post -> list_slot (len ret_) (atype a') <> Z.of_nat i)
            /\ snd (p (adata a)) = Ok x.
Proof.
  induction attrs as [|a rest IH]; intros ret_ w l H.
  - cbn [list_parse_loop] in H. unfold ret in H.
    apply pair_equal_spec in H. destruct H as [_ [= <-]].
    split; [reflexivity|]. intros i x Hx. left. split; [exact Hx|intros a []].
  - cbn [list_parse_loop] in H.
    destruct (p (adata a)) as [w1 [v|e]] eqn:Hv; cbn [mbind] in H; [|discriminate].
    destruct (list_setitem ret_ (atype a - 1) v) as [ret'|e] eqn:Hs;
      cbn [lift mbind] in H; [|discriminate].
    destruct (list_parse_loop p rest ret') as [w2 r] eqn:Hl.
    rewrite app_nil_l in H.
    apply pair_equal_spec in H. destruct H as [_ ->].
    destruct (IH _ _ _ Hl) as [Hlen Hslots].
    destruct (list_setitem_spec _ _ _ _ Hs) as (Hr & Hlen' & Hset & Hoth).
    assert (Hlr : len ret' = len ret_) by (unfold len; now rewrite Hlen').
    split; [congruence|].
    intros i x Hx. specialize (Hslots i x Hx). rewrite Hlr in Hslots.
    destruct Hslots as [[Hi Hnone]|(pre & a0 & post & -> & Hsl & Hpost & Hp)].
    + destruct (Z.eq_dec (list_slot (len ret_) (atype a)) (Z.of_nat i)) as [E|E].
      * right. exists [], a, rest. split; [reflexivity|]. split; [exact E|].
        split; [exact Hnone|]. rewrite Hv. cbn [snd]. f_equal.
        rewrite E, Nat2Z.id in Hset. congruence.
      * left. split.
        -- rewrite <- Hoth; [exact Hi|]. congruence.
        -- intros a' [<-|Ha']; [exact E|now apply Hnone].
    + right. exists (a :: pre), a0, post. now repeat split.
Qed.

Lemma max_atype_ge_first (a : GNLAttribute) (rest : list GNLAttribute) :
  atype a <= max_atype (a :: rest).
Proof.
  cbn [max_atype]. generalize (atype a). induction rest as [|b rest IH]; intros m.
  - cbn. lia.
  - cbn [fold_left]. specialize (IH (Z.max m (atype b))). lia.
Qed.

Lemma first_atype_nonneg (host : byteorder) (data : bytes) (a : GNLAttribute)
      (rest : list GNLAttribute) :
  parse_generic_attributes host data = Ok (a :: rest) -> 0 <= atype a.
Proof.
  rewrite parse_generic_attributes_unfold. destruct data as [|b0 d0]; [discriminate|].
  destruct (struct_unpack_HH host _) as [[nla_len nla_type]|] eqn:Hu; [|discriminate].
  cbn [bind]. destruct (nla_len =? 0); [discriminate|].
  destruct (parse_generic_attributes host _); [|discriminate].
  cbn [bind]. intros [= <- _]. cbn [atype].
  apply struct_unpack_HH_range in Hu. lia.
Qed.

Lemma nth_error_repeat_Some {A} (x y : A) (n i : nat) :
  nth_error (repeat x n) i = Some y -> y = x.
Proof.
  intros H. apply nth_error_In, repeat_spec in H. exact H.
Qed.

(** X14: [parse] of a list, when it returns: the list has as many slots as
    the greatest attribute type; a slot no attribute addresses holds
    [None]; any other slot holds the parsed payload of the last attribute
    that addresses it.  Type [t] addresses slot [t - 1], and type 0 the
    last slot. *)
Theorem list_parse_is_sparse (host : byteorder) (ids : dict Z) (sub : schema)
        (data : bytes) (w : list warning) (v : value) :
  parse host ids (NlAttrSchemaList sub) data = (w, Ok v) ->
  exists attrs l,
    parse_generic_attributes host data = Ok attrs
    /\ v = VList l
    /\ len l = max_atype attrs
    /\ forall i x,
        nth_error l i = Some x ->
        (x = VNone
         /\ forall a, In a attrs -> list_slot (len l) (atype a) <> Z.of_nat i)
        \/ exists pre a post,
            attrs = pre ++ a :: post
            /\ list_slot (len l) (atype a) = Z.of_nat i
            /\ (forall a', In a' post -> list_slot (len l) (atype a') <> Z.of_nat i)
            /\ snd (parse host ids sub (adata a)) = Ok x.
Proof.
  cbn [parse]. unfold NlAttrSchemaList_parse.
  destruct (parse_generic_attributes host data) as [attrs|e] eqn:Hs;
    cbn [lift mbind]; [|discriminate].
  destruct attrs as [|a0 rest].
  - unfold ret. intros H. apply pair_equal_spec in H. destruct H as [_ [= <-]].
    exists [], []. repeat split. intros [|i] x; discriminate.
  - set (attrs := a0 :: rest) in *.
    destruct (list_parse_loop (parse host ids sub) attrs
                (repeat VNone (Z.to_nat (max_atype attrs)))) as [w1 [l|e]] eqn:Hl;
      cbn [mbind ret]; [|discriminate].
    intros H. apply pair_equal_spec in H. destruct H as [_ [= <-]].
    destruct (list_parse_loop_slots _ _ _ _ _ Hl) as [Hlen Hslots].
    rewrite repeat_length in Hlen.
    assert (Hmax : 0 <= max_atype attrs).
    { pose proof (max_atype_ge_first a0 rest).
      pose proof (first_atype_nonneg _ _ _ _ Hs). subst attrs. lia. }
    assert (Hll : len l = max_atype attrs) by (unfold len; lia).
    assert (Hlr : len (repeat VNone (Z.to_nat (max_atype attrs))) = len l).
    { unfold len. rewrite repeat_length. lia. }
    exists attrs, l. split; [reflexivity|]. split; [reflexivity|]. split; [exact Hll|].
    intros i x Hx. specialize (Hslots i x Hx). rewrite Hlr in Hslots.
    destruct Hslots as [[Hi Hnone]|H]; [left|right; exact H].
    split; [|exact Hnone]. eapply nth_error_repeat_Some, Hi.
Qed.

Lemma list_parse_is_sparse_witness :
  exists attrs l,
    parse_generic_attributes little [x05; x00; x02; x00; x09; x00; x00; x00] = Ok attrs
    /\ VList [VNone; VInt 9] = VList l
    /\ len l = max_atype attrs
    /\ forall i x,
        nth_error l i = Some x ->
        (x = VNone
         /\ forall a, In a attrs -> list_slot (len l) (atype a) <> Z.of_nat i)
        \/ exists pre a post,
            attrs = pre ++ a :: post
            /\ list_slot (len l) (atype a) = Z.of_nat i
            /\ (forall a', In a' post -> list_slot (len l) (atype a') <> Z.of_nat i)
            /\ snd (parse little [] (NlAttrSchemaInt fmt_B) (adata a)) = Ok x.
Proof.
  apply (list_parse_is_sparse little [] (NlAttrSchemaInt fmt_B)
           [x05; x00; x02; x00; x09; x00; x00; x00] [] (VList [VNone; VInt 9])).
  reflexivity.
Defined.

(** ** Integers, from the bytes *)

Lemma struct_pack_unpack (host : byteorder) (fmt : int_fmt) (data : bytes) (z : Z) :
  struct_unpack host fmt data = Ok z ->
  fmt_min fmt <= z <= fmt_max fmt /\ struct_pack host fmt z = Ok data.
Proof.
  unfold struct_unpack. destruct (Z.eqb_spec (len data) (calcsize fmt)) as [E|]; [|discriminate].
  intros [= <-].
  pose proof (le_value_bound (in_host_order host data)) as Hb.
  rewrite len_in_host_order, E in Hb.
  set (u := le_value (in_host_order host data)) in *.
  assert (Hbits : 256 ^ calcsize fmt = 2 ^ fmt_bits fmt).
  { unfold fmt_bits. destruct fmt; reflexivity. }
  rewrite Hbits in Hb.
  assert (Hhalf : 2 ^ fmt_bits fmt = 2 * 2 ^ (fmt_bits fmt - 1)).
  { destruct fmt; reflexivity. }
  assert (Hr : fmt_min fmt
               <= (if fmt_signed fmt && (2 ^ (fmt_bits fmt - 1) <=? u)
                   then u - 2 ^ fmt_bits fmt else u)
               <= fmt_max fmt).
  { unfold fmt_min, fmt_max. destruct (fmt_signed fmt); cbn [andb].
    - destruct (Z.leb_spec (2 ^ (fmt_bits fmt - 1)) u); lia.
    - lia. }
  split; [exact Hr|].
  unfold struct_pack. apply in_range_iff in Hr. rewrite Hr. f_equal.
  assert (Hm : (if fmt_signed fmt && (2 ^ (fmt_bits fmt - 1) <=? u)
                then u - 2 ^ fmt_bits fmt else u) mod 2 ^ fmt_bits fmt = u).
  { destruct (fmt_signed fmt && (2 ^ (fmt_bits fmt - 1) <=? u)).
    - replace (u - 2 ^ fmt_bits fmt) with (u + (-1) * 2 ^ fmt_bits fmt) by lia.
      rewrite Z.mod_add by lia. apply Z.mod_small. lia.
    - apply Z.mod_small. lia. }
  rewrite Hm.
  assert (Hn : Z.to_nat (calcsize fmt) = List.length (in_host_order host data)).
  { pose proof (len_in_host_order host data) as Hl. unfold len in *. lia. }
  rewrite Hn. unfold u. rewrite le_bytes_le_value. apply in_host_order_involutive.
Qed.

(** X15: [parse] of an integer accepts exactly the payloads of the size of
    the format; the integer it returns is in the range of the format, and
    [build] of it gives the payload back.  A payload of another size raises
    [struct.error]. *)
Theorem int_parse_then_build (host : byteorder) (ids : dict Z) (fmt : int_fmt)
        (data : bytes) :
  (len data = calcsize fmt ->
   exists z,
     parse host ids (NlAttrSchemaInt fmt) data = ([], Ok (VInt z))
     /\ fmt_min fmt <= z <= fmt_max fmt
     /\ build host ids (NlAttrSchemaInt fmt) (VInt z) = Ok data)
  /\ (len data <> calcsize fmt ->
      parse host ids (NlAttrSchemaInt fmt) data = ([], Err StructError)).
Proof.
  cbn [parse build]. unfold NlAttrSchemaInt_parse, NlAttrSchemaInt_build, lift.
  split; intros Hl.
  - destruct (struct_unpack host fmt data) as [z|] eqn:Hu.
    + exists z. split; [reflexivity|]. now apply struct_pack_unpack.
    + unfold struct_unpack in Hu. rewrite Hl, Z.eqb_refl in Hu. discriminate.
  - unfold struct_unpack. destruct (Z.eqb_spec (len data) (calcsize fmt)); [contradiction|].
    reflexivity.
Qed.

Lemma int_parse_then_build_witness :
  (exists z,
      parse big [] (NlAttrSchemaInt fmt_h) [xff; xfe] = ([], Ok (VInt z))
      /\ fmt_min fmt_h <= z <= fmt_max fmt_h
      /\ build big [] (NlAttrSchemaInt fmt_h) (VInt z) = Ok [xff; xfe])
  /\ parse little [] (NlAttrSchemaInt fmt_I) [x01; x00] = ([], Err StructError).
Proof.
  split.
  - apply (proj1 (int_parse_then_build big [] fmt_h [xff; xfe])). reflexivity.
  - apply (proj2 (int_parse_then_build little [] fmt_I [x01; x00])). discriminate.
Defined.

(** ** Arrays *)

Lemma slice_skipn {A} (data : list A) (k a b : Z) :
  0 <= k -> 0 <= a -> slice (skipn (Z.to_nat k) data) a b = slice data (a + k) (b + k).
Proof.
  intros Hk Ha. unfold slice. rewrite skipn_skipn. f_equal; [f_equal; lia|f_equal; lia].
Qed.

Lemma array_parse_loop_int (host : byteorder) (fmt : int_fmt) (n : nat) :
  forall (data : bytes) (fuel : nat) (ret_ : list value),
    List.length data = n -> (n < fuel)%nat ->
    (len data mod calcsize fmt = 0 ->
     exists l,
       array_parse_loop fuel (NlAttrSchemaInt_parse host fmt) (calcsize fmt) data ret_
       = ([], Ok (ret_ ++ l))
       /\ len l = len data / calcsize fmt
       /\ forall i, 0 <= i < len l ->
                    exists z,
                      nth_error l (Z.to_nat i) = Some (VInt z)
                      /\ struct_unpack host fmt
                           (slice data (i * calcsize fmt) (i * calcsize fmt + calcsize fmt))
                         = Ok z)
    /\ (len data mod calcsize fmt <> 0 ->
        array_parse_loop fuel (NlAttrSchemaInt_parse host fmt) (calcsize fmt) data ret_
        = ([], Err StructError)).
Proof.
  pose proof (calcsize_pos fmt) as Hc. set (c := calcsize fmt) in *.
  induction n as [n IH] using lt_wf_ind. intros data fuel ret_ Hn Hf.
  destruct fuel as [|fuel]; [lia|]. cbn [array_parse_loop].
  destruct data as [|b0 d0] eqn:Ed.
  { split; [|intros H; exfalso; apply H; apply Z.mod_0_l; lia].
    intros _. exists []. rewrite app_nil_r. split; [reflexivity|].
    split; [change (0 = 0 / c); symmetry; apply Z.div_0_l; lia|].
    intros i Hi. change (len (@nil value)) with 0 in Hi. lia. }
  rewrite <- Ed in *. assert (Hpos : 0 < len data) by (rewrite Ed, len_cons; pose proof (len_nonneg d0); lia).
  unfold NlAttrSchemaInt_parse at 1 3. unfold lift.
  destruct (Z.lt_ge_cases (len data) c) as [Hshort|Hlong].
  - assert (Hs : struct_unpack host fmt (slice data 0 c) = Err StructError).
    { unfold struct_unpack. fold c.
      replace (len (slice data 0 c) =? c) with false; [reflexivity|].
      symmetry. apply Z.eqb_neq. unfold slice, len in *.
      rewrite length_firstn, length_skipn. lia. }
    rewrite Hs. cbn [bind mbind].
    split; [|reflexivity]. intros Hm. rewrite Z.mod_small in Hm by lia. lia.
  - assert (Hsl : len (slice data 0 c) = c) by (rewrite len_slice by lia; lia).
    destruct (struct_unpack host fmt (slice data 0 c)) as [z|] eqn:Hu.
    2:{ unfold struct_unpack in Hu. fold c in Hu. rewrite Hsl, Z.eqb_refl in Hu. discriminate. }
    cbn [bind mbind].
    set (rest := skipn (Z.to_nat c) data).
    assert (Hrl : len rest = len data - c).
    { unfold rest, len in *. rewrite length_skipn. lia. }
    assert (Hmod : len rest mod c = len data mod c).
    { rewrite Hrl. replace (len data - c) with (len data + (-1) * c) by lia.
      apply Z.mod_add. lia. }
    destruct (IH (List.length rest) ltac:(unfold len in *; lia) rest fuel (ret_ ++ [VInt z])
                 eq_refl ltac:(unfold len in *; lia)) as [Hok Hbad].
    split.
    + intros Hm. rewrite <- Hmod in Hm. destruct (Hok Hm) as (l & -> & Hll & Hnth).
      exists (VInt z :: l). rewrite app_nil_l, <- app_assoc. split; [reflexivity|].
      split.
      * rewrite len_cons, Hll, Hrl.
        replace (len data) with ((len data - c) + 1 * c) at 2 by lia.
        rewrite Z.div_add by lia. lia.
      * intros i Hi. rewrite len_cons in Hi.
        destruct (Z.eq_dec i 0) as [->|Hi0].
        -- exists z. split; [reflexivity|]. rewrite Z.mul_0_l, Z.add_0_l. exact Hu.
        -- destruct (Hnth (i - 1) ltac:(lia)) as (z' & Hz1 & Hz2).
           exists z'. split.
           ++ replace (Z.to_nat i) with (S (Z.to_nat (i - 1))) by lia. exact Hz1.
           ++ unfold rest in Hz2. rewrite slice_skipn in Hz2 by nia.
              rewrite <- Hz2. f_equal. f_equal; lia.
    + intros Hm. rewrite <- Hmod in Hm. rewrite (Hbad Hm). reflexivity.
Qed.

(** X16: [parse] of an array of integers: a payload whose length is a
    multiple of the element size gives one integer per chunk of that size,
    in order; any other payload raises [struct.error]; and what [build]
    returns for an array has the element size times the number of elements
    as its length, so it always parses. *)
Theorem array_parse_splits_in_elements (host : byteorder) (ids : dict Z) (fmt : int_fmt)
        (data : bytes) :
  (len data mod calcsize fmt = 0 ->
   exists l,
     parse host ids (NlAttrSchemaArray (NlAttrSchemaInt fmt)) data = ([], Ok (VList l))
     /\ len l = len data / calcsize fmt
     /\ forall i, 0 <= i < len l ->
                  exists z,
                    nth_error l (Z.to_nat i) = Some (VInt z)
                    /\ struct_unpack host fmt
                         (slice data (i * calcsize fmt) (i * calcsize fmt + calcsize fmt))
                       = Ok z)
  /\ (len data mod calcsize fmt <> 0 ->
      parse host ids (NlAttrSchemaArray (NlAttrSchemaInt fmt)) data
      = ([], Err StructError))
  /\ (forall attr_values b,
         build host ids (NlAttrSchemaArray (NlAttrSchemaInt fmt)) attr_values = Ok b ->
         exists items, py_iter attr_values = Ok items
                       /\ len b = calcsize fmt * len items).
Proof.
  assert (Hp : parse host ids (NlAttrSchemaArray (NlAttrSchemaInt fmt)) data
               = mbind (array_parse_loop (S (List.length data))
                          (NlAttrSchemaInt_parse host fmt) (calcsize fmt) data [])
                       (fun l => ret (VList l))) by reflexivity.
  rewrite Hp. clear Hp.
  destruct (array_parse_loop_int host fmt (List.length data) data (S (List.length data)) []
              eq_refl ltac:(lia)) as [Hok Hbad].
  split; [|split].
  - intros Hm. destruct (Hok Hm) as (l & -> & Hl). exists l. cbn [mbind ret app].
    split; [reflexivity|exact Hl].
  - intros Hm. rewrite (Hbad Hm). reflexivity.
  - intros v b. cbn [build]. unfold NlAttrSchemaArray_build.
    destruct (py_iter v) as [items|]; [|discriminate]. cbn [bind].
    intros H. apply array_build_loop_chunks in H. destruct H as (chunks & -> & HF).
    exists items. split; [reflexivity|]. rewrite app_nil_l.
    clear Hok Hbad. induction HF as [|x c items chunks Hx HF IH].
    + cbn. lia.
    + cbn [List.concat]. rewrite len_app, len_cons, IH.
      unfold NlAttrSchemaInt_build in Hx.
      destruct x; try discriminate.
      rewrite (len_struct_pack _ _ _ _ Hx). lia.
Qed.

Lemma array_parse_splits_in_elements_witness :
  (exists l,
      parse little [] (NlAttrSchemaArray (NlAttrSchemaInt fmt_H)) [x01; x00; x02; x00]
      = ([], Ok (VList l))
      /\ len l = len [x01; x00; x02; x00] / calcsize fmt_H
      /\ forall i, 0 <= i < len l ->
                   exists z,
                     nth_error l (Z.to_nat i) = Some (VInt z)
                     /\ struct_unpack little fmt_H
                          (slice [x01; x00; x02; x00]
                                 (i * calcsize fmt_H) (i * calcsize fmt_H + calcsize fmt_H))
                        = Ok z)
  /\ parse little [] (NlAttrSchemaArray (NlAttrSchemaInt fmt_H)) [x01; x00; x02]
     = ([], Err StructError)
  /\ exists items,
      py_iter (VList [VInt 1; VInt 2]) = Ok items
      /\ len [x01; x00; x02; x00] = calcsize fmt_H * len items.
Proof.
  split; [|split].
  - apply (proj1 (array_parse_splits_in_elements little [] fmt_H [x01; x00; x02; x00])).
    reflexivity.
  - apply (proj1 (proj2 (array_parse_splits_in_elements little [] fmt_H [x01; x00; x02]))).
    discriminate.
  - apply (proj2 (proj2 (array_parse_splits_in_elements little [] fmt_H [x01; x00; x02]))
             (VList [VInt 1; VInt 2]) [x01; x00; x02; x00]).
    reflexivity.
Defined.

(** ** Keyword arguments and attribute access *)

Lemma dict_get_injective (nm : dict string) (k1 k2 n : string) :
  NoDup (map snd nm) ->
  dict_get k1 nm = Some n -> dict_get k2 nm = Some n -> k1 = k2.
Proof.
  induction nm as [|[k0 n0] rest IH]; cbn [map snd dict_get]; [discriminate|].
  intros Hnd H1 H2. inversion Hnd as [|? ? Hnin Hnd']; subst.
  destruct (String.eqb_spec k1 k0) as [->|N1], (String.eqb_spec k2 k0) as [->|N2].
  - reflexivity.
  - injection H1 as ->. apply dict_get_In in H2.
    exfalso. apply Hnin. apply (in_map snd) in H2. exact H2.
  - injection H2 as ->. apply dict_get_In in H1.
    exfalso. apply Hnin. apply (in_map snd) in H1. exact H1.
  - now apply IH.
Qed.

Lemma In_dict_set {V} (k : string) (v : V) (d : dict V) (k' : string) (v' : V) :
  In (k', v') (dict_set k v d) -> (k' = k /\ v' = v) \/ In (k', v') d.
Proof.
  induction d as [|[k0 v0] rest IH]; cbn [dict_set In].
  - intros [[= <- <-]|[]]. now left.
  - destruct (String.eqb_spec k k0) as [->|Hne]; cbn [In].
    + intros [[= <- <-]|H]; [now left|right; now right].
    + intros [H|H]; [right; now left|]. destruct (IH H); [now left|right; now right].
Qed.

Lemma translate_kwargs_spec (name_mapping : dict string) (kwargs : dict value) :
  forall acc d,
    translate_kwargs name_mapping kwargs acc = Ok d ->
    (NoDup (dict_keys acc) -> NoDup (dict_keys d))
    /\ (forall n x, In (n, x) d ->
                    In (n, x) acc
                    \/ exists k, In (k, x) kwargs /\ dict_get k name_mapping = Some n)
    /\ (forall n, (forall k v, In (k, v) kwargs -> dict_get k name_mapping <> Some n) ->
                  dict_get n d = dict_get n acc)
    /\ (NoDup (dict_keys kwargs) -> NoDup (map snd name_mapping) ->
        forall k v, In (k, v) kwargs ->
                    exists n, dict_get k name_mapping = Some n /\ dict_get n d = Some v).
Proof.
  induction kwargs as [|[k0 v0] rest IH]; intros acc d H.
  - injection H as <-. repeat split; try tauto. intros _ _ k v [].
  - cbn [translate_kwargs] in H. unfold dict_lookup in H.
    destruct (dict_get k0 name_mapping) as [n0|] eqn:Hn0; [|discriminate].
    cbn [bind] in H. destruct (IH _ _ H) as (I1 & I2 & I3 & I4).
    split; [intros Hnd; apply I1, NoDup_dict_set, Hnd|].
    split; [|split].
    + intros n x Hin. destruct (I2 n x Hin) as [Hacc|[k [Hk Hkn]]].
      * apply In_dict_set in Hacc. destruct Hacc as [[-> ->]|Hacc]; [|now left].
        right. exists k0. split; [now left|exact Hn0].
      * right. exists k. split; [now right|exact Hkn].
    + intros n Hnone. rewrite I3 by (intros k v Hin; apply (Hnone k v); now right).
      apply dict_get_dict_set_other. intros ->.
      apply (Hnone k0 v0 (or_introl eq_refl)). exact Hn0.
    + intros Hkw Hnm k v [[= <- <-]|Hin].
      * exists n0. split; [exact Hn0|].
        rewrite I3; [apply dict_get_dict_set_same|].
        intros k v Hin Hk. cbn [dict_keys map fst] in Hkw.
        inversion Hkw as [|? ? Hnin _]; subst. apply Hnin.
        assert (k = k0) as -> by (eapply dict_get_injective; eassumption).
        apply (in_map fst) in Hin. exact Hin.
      * cbn [dict_keys map fst] in Hkw. inversion Hkw as [|? ? _ Hkw']; subst.
        apply (I4 Hkw' Hnm k v Hin).
Qed.

(** X17: Values built from keyword arguments are read back by attribute
    access: for a schema with distinct ids in every scope and no two Python
    names for one attribute, and keyword values of the shape of their
    schemas, [parse] of what [build] returned for the keyword arguments
    gives a set on which [getattr] with each keyword returns the keyword's
    value. *)
Theorem kwargs_read_back_by_python_name (host : byteorder) (ids : dict Z)
        (subattr_schemata : dict schema) (required_attrs : list string)
        (name_mapping : dict string) (kwargs : dict value) (b : bytes) :
  scope_ids_ok ids (NlAttrSchema subattr_schemata required_attrs name_mapping) = true ->
  arrays_sized (NlAttrSchema subattr_schemata required_attrs name_mapping) = true ->
  NoDup (dict_keys kwargs) ->
  NoDup (map snd name_mapping) ->
  Forall (fun '(k, v) =>
            forall n c, dict_get k name_mapping = Some n ->
                        dict_get n subattr_schemata = Some c ->
                        value_ok c v = true) kwargs ->
  build_kwargs host ids (NlAttrSchema subattr_schemata required_attrs name_mapping)
               VNone kwargs = Ok b ->
  exists d,
    parse host ids (NlAttrSchema subattr_schemata required_attrs name_mapping) b
    = ([], Ok (VDict d))
    /\ Forall (fun '(k, v) => getattr name_mapping d k = Ok v) kwargs.
Proof.
  intros Hids Hsz Hkw Hnm Hv Hb.
  apply build_kwargs_inv in Hb. destruct Hb as (d & [[-> Hd]|(_ & _ & Ht)] & Hb).
  { discriminate. }
  destruct (translate_kwargs_spec _ _ _ _ Ht) as (I1 & I2 & _ & I4).
  exists d. split.
  - apply build_parse_roundtrip; try assumption.
    cbn [value_ok]. apply andb_true_iff. split.
    + apply unique_names_NoDup, I1. constructor.
    + apply forallb_forall. intros [n x] Hin.
      destruct (I2 n x Hin) as [[]|[k [Hk Hkn]]].
      rewrite dict_get_map. destruct (dict_get n subattr_schemata) as [c|] eqn:Hc;
        cbn [option_map]; [|reflexivity].
      rewrite Forall_forall in Hv. exact (Hv _ Hk n c Hkn Hc).
  - apply Forall_forall. intros [k v] Hin.
    destruct (I4 Hkw Hnm k v Hin) as (n & Hn & Hd).
    unfold getattr, dict_lookup. now rewrite Hn, Hd.
Qed.

Lemma kwargs_read_back_by_python_name_witness :
  exists d,
    parse little example_ids
          (NlAttrSchema example_children ["ATTR_X"] example_name_mapping)
          [x08; x00; x01; x00; xef; xbe; xad; xde; x07; x00; x02; x00; x68; x69; x00; x00]
    = ([], Ok (VDict d))
    /\ Forall (fun '(k, v) => getattr example_name_mapping d k = Ok v)
              [("x", VInt 3735928559); ("name", VStr [104; 105])].
Proof.
  apply (kwargs_read_back_by_python_name little example_ids example_children ["ATTR_X"]
           example_name_mapping [("x", VInt 3735928559); ("name", VStr [104; 105])]).
  - reflexivity.
  - reflexivity.
  - apply unique_names_NoDup. reflexivity.
  - apply unique_names_NoDup. reflexivity.
  - repeat constructor; intros n c Hn Hc; cbn in Hn; injection Hn as <-;
      cbn in Hc; injection Hc as <-; reflexivity.
  - reflexivity.
Defined.

(** ** Strings *)

Lemma encode_ascii_spec (s : text) :
  (Forall (fun c => 0 <= c < 128) s -> encode_ascii s = Ok (map byte_of_Z s))
  /\ (~ Forall (fun c => 0 <= c < 128) s -> encode_ascii s = Err UnicodeError).
Proof.
  induction s as [|c s [IH1 IH2]]; cbn [encode_ascii map].
  - split; [reflexivity|]. intros H. exfalso. apply H. constructor.
  - destruct (Z.leb_spec 0 c) as [H0|H0], (Z.ltb_spec c 128) as [H1|H1]; cbn [andb].
    2-4: split; [intros H; inversion H; subst; lia|reflexivity].
    split.
    + intros H. inversion H; subst. rewrite IH1 by assumption. reflexivity.
    + intros H. rewrite IH2; [reflexivity|]. intros Hs. apply H. constructor; [lia|exact Hs].
Qed.

(** X18: [build] of a string accepts exactly ASCII text and writes its bytes
    and one NUL; [parse] gives the text back, and also accepts the bytes
    without the NUL when the text is not empty and does not end in NUL
    itself.  Text with a code point of 128 or more raises
    [UnicodeEncodeError]. *)
Theorem str_codec_is_ascii_with_optional_terminator (host : byteorder) (ids : dict Z)
        (s : text) :
  (Forall (fun c => 0 <= c < 128) s ->
   build host ids NlAttrSchemaStr (VStr s) = Ok (map byte_of_Z s ++ [x00])
   /\ parse host ids NlAttrSchemaStr (map byte_of_Z s ++ [x00]) = ([], Ok (VStr s))
   /\ (s <> [] -> last s 0 <> 0 ->
       parse host ids NlAttrSchemaStr (map byte_of_Z s) = ([], Ok (VStr s))))
  /\ (~ Forall (fun c => 0 <= c < 128) s ->
      build host ids NlAttrSchemaStr (VStr s) = Err UnicodeError).
Proof.
  destruct (encode_ascii_spec s) as [Hok Hbad]. cbn [build parse].
  unfold NlAttrSchemaStr_build. split.
  - intros Hs. specialize (Hok Hs). rewrite Hok. cbn [bind].
    split; [reflexivity|]. split.
    + apply str_roundtrip. unfold NlAttrSchemaStr_build. now rewrite Hok.
    + intros Hne Hlast. unfold NlAttrSchemaStr_parse, lift, decode.
      pose proof (decode_encode_ascii _ _ [] Hok) as Hd. rewrite app_nil_r in Hd.
      rewrite Hd. cbn [utf8_decode option_map bind]. rewrite app_nil_r.
      destruct (rev s) as [|c r] eqn:Hr.
      { apply (f_equal (@rev Z)) in Hr. rewrite rev_involutive in Hr. contradiction. }
      apply rev_cons_inv in Hr. subst s. rewrite last_last in Hlast.
      destruct (Z.eqb_spec c 0); [contradiction|reflexivity].
  - intros Hs. now rewrite (Hbad Hs).
Qed.

Lemma str_codec_is_ascii_with_optional_terminator_witness :
  (build little [] NlAttrSchemaStr (VStr [104; 105]) = Ok (map byte_of_Z [104; 105] ++ [x00])
   /\ parse little [] NlAttrSchemaStr (map byte_of_Z [104; 105] ++ [x00])
      = ([], Ok (VStr [104; 105]))
   /\ ([104; 105] <> [] -> last [104; 105] 0 <> 0 ->
       parse little [] NlAttrSchemaStr (map byte_of_Z [104; 105])
       = ([], Ok (VStr [104; 105]))))
  /\ build little [] NlAttrSchemaStr (VStr [233]) = Err UnicodeError.
Proof.
  split.
  - apply (proj1 (str_codec_is_ascii_with_optional_terminator little [] [104; 105])).
    repeat constructor; discriminate.
  - apply (proj2 (str_codec_is_ascii_with_optional_terminator little [] [233])).
    intros H. inversion H as [|? ? [_ Hc] _]. vm_compute in Hc. discriminate.
Defined.

(** ** What [build] of an attribute set checks *)

(** X19: What [build] of an attribute set has checked when it returns: the
    values are a mapping that is not empty; every key is the name of a
    child; every required name is a key; and every value was built by its
    child into a payload of at most 65531 bytes, under an id of the table
    that fits 16 bits. *)
Theorem build_accepts_only_known_and_complete (host : byteorder) (ids : dict Z)
        (subattr_schemata : dict schema) (required_attrs : list string)
        (name_mapping : dict string) (v : value) (b : bytes) :
  build host ids (NlAttrSchema subattr_schemata required_attrs name_mapping) v = Ok b ->
  exists d,
    v = VDict d
    /\ d <> []
    /\ (forall k, In k (dict_keys d) -> In k (dict_keys subattr_schemata))
    /\ (forall r, In r required_attrs -> In r (dict_keys d))
    /\ Forall (fun '(name, val) =>
                 exists child attr_payload attr_id,
                   dict_get name subattr_schemata = Some child
                   /\ build host ids child val = Ok attr_payload
                   /\ dict_get name ids = Some attr_id
                   /\ 0 <= attr_id <= 65535
                   /\ len attr_payload <= 65531) d.
Proof.
  cbn [build]. intros H. apply NlAttrSchema_build_positional in H.
  destruct H as (d & -> & Hne & Hk & Hr & Hl).
  exists d. split; [reflexivity|]. split; [exact Hne|].
  apply some_not_in_false in Hk, Hr. rewrite dict_keys_child_builders in Hk.
  split; [exact Hk|]. split; [exact Hr|].
  apply set_build_loop_pieces in Hl. destruct Hl as (pieces & _ & HF).
  clear -HF. induction HF as [|[name val] piece d pieces Hx HF IH]; constructor; [|exact IH].
  destruct Hx as (child & attr_payload & attr_id & Hc & Hb & Hi & Ht).
  rewrite dict_get_child_builders in Hc.
  destruct (dict_get name subattr_schemata) as [c|]; [|discriminate].
  injection Hc as <-. exists c, attr_payload, attr_id.
  apply tlv_inv in Ht. destruct Ht as (hdr & Hp & _).
  apply struct_pack_HH_inv in Hp. unfold attrib_hdr_len in Hp.
  repeat split; try assumption; lia.
Qed.

Lemma build_accepts_only_known_and_complete_witness :
  exists d,
    example_value = VDict d
    /\ d <> []
    /\ (forall k, In k (dict_keys d) -> In k (dict_keys example_children))
    /\ (forall r, In r ["ATTR_X"] -> In r (dict_keys d))
    /\ Forall (fun '(name, val) =>
                 exists child attr_payload attr_id,
                   dict_get name example_children = Some child
                   /\ build little example_ids child val = Ok attr_payload
                   /\ dict_get name example_ids = Some attr_id
                   /\ 0 <= attr_id <= 65535
                   /\ len attr_payload <= 65531) d.
Proof.
  apply (build_accepts_only_known_and_complete little example_ids example_children
           ["ATTR_X"] example_name_mapping example_value example_bytes).
  reflexivity.
Defined.

(** ** Looking a family up *)

Lemma list_eqb_Z_refl (s : list Z) : list_eqb Z.eqb s s = true.
Proof. induction s as [|c s IH]; cbn [list_eqb]; [reflexivity|]. now rewrite Z.eqb_refl. Qed.

Lemma list_eqb_Z_eq (s t : list Z) : list_eqb Z.eqb s t = true -> s = t.
Proof.
  revert t. induction s as [|c s IH]; intros [|d t]; cbn [list_eqb]; try discriminate.
  - reflexivity.
  - intros H. apply andb_true_iff in H. destruct H as [H1 H2].
    apply Z.eqb_eq in H1. apply IH in H2. congruence.
Qed.

Lemma groups_set_fresh (k : text) (v : value) (d : list (value * value)) :
  ~ In (VStr k) (map fst d) ->
  groups_set (VStr k) v d = d ++ [(VStr k, v)].
Proof.
  induction d as [|[k' v'] rest IH]; cbn [groups_set map fst In app]; intros Hn; [reflexivity|].
  destruct (key_eqb (VStr k) k') eqn:E.
  - exfalso. apply Hn. left. destruct k'; cbn [key_eqb] in E; try discriminate.
    apply list_eqb_Z_eq in E. now subst.
  - f_equal. apply IH. tauto.
Qed.

Lemma mcast_groups_loop_entries (groups : list (text * Z)) :
  forall acc,
    NoDup (map fst acc ++ map (fun g => VStr (strip isspace (fst g))) groups) ->
    mcast_groups_loop (map mcast_entry groups) acc
    = Ok (acc ++ map (fun g => (VStr (strip isspace (fst g)), VInt (snd g))) groups).
Proof.
  induction groups as [|[n g] rest IH]; intros acc Hnd; cbn [map mcast_groups_loop].
  - now rewrite app_nil_r.
  - cbn [map fst snd] in Hnd. unfold mcast_entry at 1 2. cbn [getitem fst snd].
    unfold dict_lookup. cbn [dict_get String.eqb Ascii.eqb Bool.eqb bind py_strip].
    rewrite groups_set_fresh.
    + rewrite IH.
      * rewrite <- app_assoc. reflexivity.
      * rewrite map_app. cbn [map fst]. rewrite <- app_assoc. exact Hnd.
    + apply NoDup_remove_2 in Hnd. intros Hin. apply Hnd. apply in_or_app. now left.
Qed.

(** X20: The request [lookup_genl_family] sends for a family name parses
    back: [parse_genl_message] returns a header of type [GENL_ID_CTRL] with
    the request flag, the command [CTRL_CMD_GETFAMILY] in version 1, and a
    body that the schema of the package parses, without a warning, to the
    family name alone. *)
Theorem lookup_request_parses_back (host : byteorder) (now pid : Z) (name : text)
        (cmd : bytes) :
  lookup_request host now pid (VStr name) = Ok cmd ->
  exists S payload,
    getfamily_schema = Ok S
    /\ parse_genl_message host cmd
       = Ok (mkNLMessageHeader (len cmd) GENL_ID_CTRL NLM_F_REQUEST now pid,
             mkGNLMessageHeader CTRL_CMD_GETFAMILY GNL_FAMILY_VERSION 0,
             payload)
    /\ len cmd = NL_HEADER_LEN + GNL_HEADER_LEN + len payload
    /\ parse host genl_ctrl_constants S payload
       = ([], Ok (VDict [("CTRL_ATTR_FAMILY_NAME", VStr name)])).
Proof.
  unfold lookup_request.
  destruct getfamily_schema as [S|] eqn:HS; [|discriminate].
  cbn [bind].
  destruct (build_kwargs host genl_ctrl_constants S VNone [("family_name", VStr name)])
    as [payload|] eqn:Hb; [|discriminate].
  cbn [bind]. intros Hm.
  vm_compute in HS. injection HS as HS. subst S.
  apply build_kwargs_inv in Hb. destruct Hb as (d & [[Hk _]|(_ & _ & Ht)] & Hb).
  { discriminate. }
  cbn in Ht. injection Ht as <-.
  pose proof Hb as Hb'.
  apply build_parse_roundtrip in Hb'; [|reflexivity|reflexivity|reflexivity].
  apply build_positional_layout in Hb.
  destruct Hb as (d & pieces & [= <-] & -> & HF & H4).
  inversion HF as [|? piece ? ps Hx HF']; subst. inversion HF'; subst.
  destruct Hx as (child & attr_payload & attr_id & _ & _ & _ & Hlay).
  destruct Hlay as (hdr & k & Hpiece & Hu & Hk & Hmod).
  assert (Hlenp : len (List.concat [piece]) = len piece).
  { cbn [List.concat]. now rewrite app_nil_r. }
  assert (Hhdr : len hdr = 4).
  { unfold struct_unpack_HH in Hu.
    destruct (Z.eqb_spec (len hdr) attrib_hdr_len) as [E|]; [exact E|discriminate]. }
  assert (Hap : 0 <= len attr_payload < 65536).
  { apply struct_unpack_HH_range in Hu. unfold attrib_hdr_len in Hu.
    pose proof (len_nonneg attr_payload). lia. }
  assert (Hpl : len piece < 2 ^ 63).
  { rewrite Hpiece, !len_app, len_zeros, Hhdr by lia.
    change (2 ^ 63) with 9223372036854775808. lia. }
  rewrite <- Hlenp in Hpl, Hmod.
  destruct (get_genl_message_parses _ _ _ _ _ _ _ _ _ _ _ Hpl Hm)
    as (k' & Hk' & Hl & Hm4 & Hp).
  assert (k' = 0) as ->.
  { rewrite Hl in Hm4. unfold NL_HEADER_LEN, GNL_HEADER_LEN in Hm4.
    pose proof (Z.div_mod (len (List.concat [piece])) 4 ltac:(lia)) as Hd.
    rewrite Hmod in Hd.
    replace (16 + 4 + len (List.concat [piece]) + k')
      with (k' + (5 + len (List.concat [piece]) / 4) * 4) in Hm4 by lia.
    rewrite Z.mod_add, Z.mod_small in Hm4 by lia. exact Hm4. }
  change (zeros 0) with (@nil byte) in Hp. rewrite app_nil_r in Hp.
  eexists. exists (List.concat [piece]).
  split; [reflexivity|]. split; [exact Hp|]. split; [lia|exact Hb'].
Qed.

Lemma lookup_request_parses_back_witness :
  exists cmd,
    lookup_request little 1 2 (VStr [110; 108]) = Ok cmd
    /\ exists S payload,
        getfamily_schema = Ok S
        /\ parse_genl_message little cmd
           = Ok (mkNLMessageHeader (len cmd) GENL_ID_CTRL NLM_F_REQUEST 1 2,
                 mkGNLMessageHeader CTRL_CMD_GETFAMILY GNL_FAMILY_VERSION 0,
                 payload)
        /\ len cmd = NL_HEADER_LEN + GNL_HEADER_LEN + len payload
        /\ parse little genl_ctrl_constants S payload
           = ([], Ok (VDict [("CTRL_ATTR_FAMILY_NAME", VStr [110; 108])])).
Proof.
  eexists. split.
  - vm_compute. reflexivity.
  - apply (lookup_request_parses_back little 1 2 [110; 108]). vm_compute. reflexivity.
Defined.

(** X21: [lookup_genl_family] returns only for a reply that carries both the
    family id (an attribute of type 1) and the multicast groups (an
    attribute of type 7): a reply without multicast groups makes it raise. *)
Theorem lookup_needs_family_id_and_groups (host : byteorder) (data : bytes)
        (info : GenlFamilyInfo) :
  snd (lookup_response host data) = Ok info ->
  exists nl_header genl_header genl_body attrs,
    parse_genl_message host data = Ok (nl_header, genl_header, genl_body)
    /\ parse_generic_attributes host genl_body = Ok attrs
    /\ (exists a, In a attrs /\ atype a = 1)
    /\ (exists a, In a attrs /\ atype a = 7).
Proof.
  unfold lookup_response. rewrite snd_mbind, snd_lift.
  destruct getfamily_schema as [S|] eqn:HS; [|discriminate].
  vm_compute in HS. injection HS as HS. subst S.
  rewrite snd_mbind, snd_lift.
  destruct (parse_genl_message host data) as [[[nlh gh] body]|] eqn:Hg; [|discriminate].
  rewrite snd_mbind.
  match goal with
  | |- context [parse host genl_ctrl_constants ?S body] =>
      destruct (parse host genl_ctrl_constants S body) as [w [response|e]] eqn:Hp
  end; cbn [snd]; [|discriminate].
  rewrite snd_lift. intros H.
  cbn [parse] in Hp. unfold NlAttrSchema_parse, NlAttrSchema_parse_attrs in Hp.
  destruct (parse_generic_attributes host body) as [attrs|] eqn:Hs;
    cbn [lift mbind] in Hp; [|discriminate].
  match type of Hp with
  | context [set_parse_loop ?ids ?sp attrs []] =>
      destruct (set_parse_loop ids sp attrs []) as [w1 [d|e]] eqn:Hl
  end; cbn [mbind] in Hp; [|rewrite ?app_nil_l in Hp; discriminate].
  cbn [some_not_in existsb lift ret] in Hp.
  apply pair_equal_spec in Hp. destruct Hp as [_ [= <-]].
  destruct (set_parse_loop_keys _ _ _ _ _ _ Hl) as (_ & I2 & _).
  exists nlh, gh, body, attrs. split; [reflexivity|]. split; [exact Hs|].
  cbn [getitem] in H. unfold dict_lookup in H.
  destruct (dict_get "CTRL_ATTR_MCAST_GROUPS" d) as [groups|] eqn:Hgr; [|discriminate].
  cbn [bind] in H.
  destruct (py_iter groups) as [entries|]; [|discriminate]. cbn [bind] in H.
  destruct (mcast_groups_loop entries []) as [mg|]; [|discriminate]. cbn [bind] in H.
  destruct (dict_get "CTRL_ATTR_FAMILY_ID" d) as [fid|] eqn:Hfid; [|discriminate].
  apply dict_get_Some_In_keys in Hgr, Hfid.
  split.
  - destruct (I2 _ Hfid) as [[]|(_ & a & Ha & Hid)].
    exists a. split; [exact Ha|]. cbn in Hid. congruence.
  - destruct (I2 _ Hgr) as [[]|(_ & a & Ha & Hid)].
    exists a. split; [exact Ha|]. cbn in Hid. congruence.
Qed.

Lemma lookup_needs_family_id_and_groups_witness :
  exists nl_header genl_header genl_body attrs,
    parse_genl_message little (example_reply_header ++ example_reply_body)
    = Ok (nl_header, genl_header, genl_body)
    /\ parse_generic_attributes little genl_body = Ok attrs
    /\ (exists a, In a attrs /\ atype a = 1)
    /\ (exists a, In a attrs /\ atype a = 7).
Proof.
  apply (lookup_needs_family_id_and_groups little
           (example_reply_header ++ example_reply_body)
           (mkGenlFamilyInfo (VInt 28) [(VStr [109; 108; 109; 101], VInt 5)])).
  vm_compute. reflexivity.
Defined.

Lemma NoDup_map_VStr (l : list text) : NoDup l -> NoDup (map VStr l).
Proof.
  intros Hnd. induction Hnd as [|x l Hnin _ IH]; cbn [map]; constructor; [|exact IH].
  intros Hin. apply in_map_iff in Hin. destruct Hin as (y & [= ->] & Hy).
  contradiction.
Qed.

(** X22: [lookup_genl_family] on a reply in the format of the schema: for a
    reply of 20 header bytes and a body that the schema builds from values
    with a family id and a list of multicast groups, it returns the family
    id and the groups' ids under their names with surrounding white space
    removed, in the order of the reply, when the names so stripped are
    distinct. *)
Theorem lookup_reads_built_reply (host : byteorder) (now pid : Z) (sock : bytes -> bytes)
        (family_name : value) (cmd hdr body : bytes) (S : schema) (d : dict value)
        (fid : value) (groups : list (text * Z)) :
  getfamily_schema = Ok S ->
  lookup_request host now pid family_name = Ok cmd ->
  sock cmd = hdr ++ body ->
  len hdr = NL_HEADER_LEN + GNL_HEADER_LEN ->
  value_ok S (VDict d) = true ->
  build host genl_ctrl_constants S (VDict d) = Ok body ->
  dict_get "CTRL_ATTR_FAMILY_ID" d = Some fid ->
  dict_get "CTRL_ATTR_MCAST_GROUPS" d = Some (VList (map mcast_entry groups)) ->
  NoDup (map (fun g => strip isspace (fst g)) groups) ->
  lookup_genl_family host now pid sock family_name
  = ([], Ok (mkGenlFamilyInfo
               fid
               (map (fun g => (VStr (strip isspace (fst g)), VInt (snd g))) groups))).
Proof.
  intros HS Hreq Hsock Hhdr Hv Hb Hfid Hgr Hnd.
  unfold lookup_genl_family. rewrite Hreq. cbn [lift mbind]. rewrite Hsock.
  unfold lookup_response. rewrite HS. cbn [lift mbind].
  destruct (parse_genl_message_long host (hdr ++ body)) as (nlh & gh & _ & _ & Hp).
  { rewrite len_app. pose proof (len_nonneg body). lia. }
  rewrite Hp. cbn [mbind].
  replace (skipn 20 (hdr ++ body)) with body.
  2:{ symmetry. apply (skipn_len_app hdr body 20). rewrite Hhdr. reflexivity. }
  assert (Hroundtrip : parse host genl_ctrl_constants S body = ([], Ok (VDict d))).
  { apply build_parse_roundtrip; try assumption.
    - vm_compute in HS. injection HS as <-. reflexivity.
    - vm_compute in HS. injection HS as <-. reflexivity. }
  rewrite Hroundtrip. cbn [mbind app getitem]. unfold dict_lookup.
  rewrite Hgr, Hfid. cbn [bind py_iter].
  rewrite mcast_groups_loop_entries.
  - reflexivity.
  - cbn [map app]. clear -Hnd.
    rewrite <- (map_map (fun g : text * Z => strip isspace (fst g)) VStr).
    apply NoDup_map_VStr. exact Hnd.
Qed.

Lemma lookup_reads_built_reply_witness :
  lookup_genl_family little 1 2 (fun _ => example_reply_header ++ example_reply_body)
                     (VStr [110; 108])
  = ([], Ok (mkGenlFamilyInfo
               (VInt 28)
               (map (fun g => (VStr (strip isspace (fst g)), VInt (snd g)))
                    [([32; 109; 108; 109; 101], 5)]))).
Proof.
  eapply (lookup_reads_built_reply little 1 2
            (fun _ => example_reply_header ++ example_reply_body) (VStr [110; 108])
            _ example_reply_header example_reply_body _ example_reply_values
            (VInt 28) [([32; 109; 108; 109; 101], 5)]).
  - vm_compute. reflexivity.
  - vm_compute. reflexivity.
  - reflexivity.
  - reflexivity.
  - reflexivity.
  - reflexivity.
  - reflexivity.
  - reflexivity.
  - repeat constructor. intros [].
Defined.
